(** * eblob: the on-disk index lookup core (library/index.c)

    A shallow embedding of the closed-base index path of eblob: the
    comparators, the Bloom sizing, the block-table builder, the two-level
    searcher, the sorted-index generator and the lookup coordinator,
    followed by the properties stated about them.

    Conventions.  C integers are [Z]; unsigned 64-bit wrap-around is written
    out with [u64] where the source multiplies sizes.  A pointer into the
    sorted mmap is the byte offset from [bctl->sort.data]; a pointer that may
    be NULL is an [option].  POSIX locks and the hold counter do not change
    any value computed here and are left out.  Traps of the C program
    (division by zero, a failed assert, an access outside an array) are the
    [Fault] results of the [outcome] monad. *)

From Stdlib Require Import ZArith List Lia Bool.
From Stdlib Require Import Floats.SpecFloat.
From stdpp Require Import base option list sorting.

Open Scope Z_scope.

(** ** Outcomes of a C computation *)

Inductive fault : Type :=
| DivideByZero
| AssertionFailed
| OutOfBounds
| NullDeref
| OutOfFuel.

Inductive outcome (A : Type) : Type :=
| Ok (a : A)
| Fault (f : fault).

Arguments Ok {A} a.
Arguments Fault {A} f.

#[global] Instance outcome_ret : MRet outcome := fun A a => Ok a.
#[global] Instance outcome_bind : MBind outcome :=
  fun A B k m => match m with Ok a => k a | Fault f => Fault f end.

Definition u64 (x : Z) : Z := x mod 2 ^ 64.

(** The conversion to [int64_t], as a two's-complement machine does it. *)
Definition s64 (x : Z) : Z := (x + 2 ^ 63) mod 2 ^ 64 - 2 ^ 63.

(** Unsigned division as the machine does it: a zero divisor traps. *)
Definition udiv (a b : Z) : outcome Z :=
  if b =? 0 then Fault DivideByZero else Ok (a / b).

(** errno values (Linux). *)
Definition ENOENT : Z := 2.
Definition ENOMEM : Z := 12.
Definition EDEADLK : Z := 35.

(** ** Data model *)

(** [struct eblob_key]: the raw id bytes. *)
Definition eblob_key : Type := list Z.

(** Modelled from the spec: [eblob_id_cmp] is declared in blob.h, which is
    not part of the sources at hand.  The spec fixes it: "Ordering is
    lexicographic on raw bytes; equality is byte equality."  The result is
    the sign, as a [memcmp]-style comparison gives it.  Keys have a fixed
    width in the program; on lists of different lengths the shorter prefix
    comes first. *)
Fixpoint eblob_id_cmp (id1 id2 : eblob_key) : Z :=
  match id1, id2 with
  | [], [] => 0
  | [], _ :: _ => -1
  | _ :: _, [] => 1
  | a :: r1, b :: r2 =>
      if a <? b then -1 else if b <? a then 1 else eblob_id_cmp r1 r2
  end.

Record eblob_disk_control : Type := mk_dc {
  dc_key : eblob_key;
  dc_flags : Z;
  dc_data_size : Z;
  dc_disk_size : Z;
  dc_position : Z
}.

Record eblob_index_block : Type := mk_block {
  start_key : eblob_key;
  end_key : eblob_key;
  start_offset : Z;
  end_offset : Z
}.

(** [struct eblob_map_fd]: a descriptor, the mapped length in bytes and the
    mapped content, a packed array of disk-control records. *)
Record eblob_map_fd : Type := mk_map {
  map_fd : Z;
  map_size : Z;
  map_data : list eblob_disk_control
}.

(** The two tunables of [b->cfg] the index code reads. *)
Record eblob_config : Type := mk_cfg {
  index_block_size : Z;
  index_block_bloom_length : Z
}.

(** The per-base counters written through [eblob_stat_set]/[eblob_stat_inc]. *)
Record eblob_stat : Type := mk_stat {
  LST_BLOOM_SIZE : Z;
  LST_INDEX_BLOCKS_SIZE : Z;
  LST_RECORDS_REMOVED : Z;
  LST_REMOVED_SIZE : Z;
  LST_INDEX_CORRUPTED_ENTRIES : Z
}.

(** [struct eblob_base_ctl], the fields index.c touches.  [back_cfg] is
    [bctl->back->cfg]; the Bloom bit array is an unbounded integer whose
    bit [n] is bit [n] of the array. *)
Record eblob_base_ctl : Type := mk_bctl {
  bctl_index : Z;
  index_fd : Z;
  bctl_sort : eblob_map_fd;
  index_blocks : option (list eblob_index_block);
  bloom : option Z;
  bloom_size : Z;
  bloom_func_num : Z;
  bctl_stat : eblob_stat;
  back_cfg : eblob_config
}.

Definition set_sort (s : eblob_map_fd) (b : eblob_base_ctl) : eblob_base_ctl :=
  mk_bctl (bctl_index b) (index_fd b) s (index_blocks b) (bloom b)
          (bloom_size b) (bloom_func_num b) (bctl_stat b) (back_cfg b).
Definition set_index_blocks (t : option (list eblob_index_block))
    (b : eblob_base_ctl) : eblob_base_ctl :=
  mk_bctl (bctl_index b) (index_fd b) (bctl_sort b) t (bloom b)
          (bloom_size b) (bloom_func_num b) (bctl_stat b) (back_cfg b).
Definition set_bloom (bl : option Z) (b : eblob_base_ctl) : eblob_base_ctl :=
  mk_bctl (bctl_index b) (index_fd b) (bctl_sort b) (index_blocks b) bl
          (bloom_size b) (bloom_func_num b) (bctl_stat b) (back_cfg b).
Definition set_bloom_size (n : Z) (b : eblob_base_ctl) : eblob_base_ctl :=
  mk_bctl (bctl_index b) (index_fd b) (bctl_sort b) (index_blocks b) (bloom b)
          n (bloom_func_num b) (bctl_stat b) (back_cfg b).
Definition set_bloom_func_num (n : Z) (b : eblob_base_ctl) : eblob_base_ctl :=
  mk_bctl (bctl_index b) (index_fd b) (bctl_sort b) (index_blocks b) (bloom b)
          (bloom_size b) n (bctl_stat b) (back_cfg b).
Definition set_stat (s : eblob_stat) (b : eblob_base_ctl) : eblob_base_ctl :=
  mk_bctl (bctl_index b) (index_fd b) (bctl_sort b) (index_blocks b) (bloom b)
          (bloom_size b) (bloom_func_num b) s (back_cfg b).

Definition stat_set_bloom_size (v : Z) (s : eblob_stat) : eblob_stat :=
  mk_stat v (LST_INDEX_BLOCKS_SIZE s) (LST_RECORDS_REMOVED s)
          (LST_REMOVED_SIZE s) (LST_INDEX_CORRUPTED_ENTRIES s).
Definition stat_set_index_blocks_size (v : Z) (s : eblob_stat) : eblob_stat :=
  mk_stat (LST_BLOOM_SIZE s) v (LST_RECORDS_REMOVED s)
          (LST_REMOVED_SIZE s) (LST_INDEX_CORRUPTED_ENTRIES s).
Definition stat_set_records_removed (v : Z) (s : eblob_stat) : eblob_stat :=
  mk_stat (LST_BLOOM_SIZE s) (LST_INDEX_BLOCKS_SIZE s) v
          (LST_REMOVED_SIZE s) (LST_INDEX_CORRUPTED_ENTRIES s).
Definition stat_set_removed_size (v : Z) (s : eblob_stat) : eblob_stat :=
  mk_stat (LST_BLOOM_SIZE s) (LST_INDEX_BLOCKS_SIZE s) (LST_RECORDS_REMOVED s)
          v (LST_INDEX_CORRUPTED_ENTRIES s).
Definition stat_inc_index_corrupted (s : eblob_stat) : eblob_stat :=
  mk_stat (LST_BLOOM_SIZE s) (LST_INDEX_BLOCKS_SIZE s) (LST_RECORDS_REMOVED s)
          (LST_REMOVED_SIZE s) (LST_INDEX_CORRUPTED_ENTRIES s + 1).

(** [struct eblob_disk_search_stat]. *)
Record eblob_disk_search_stat : Type := mk_sstat {
  loops : Z;
  no_sort : Z;
  search_on_disk : Z;
  bloom_null : Z;
  found_index_block : Z;
  no_block : Z;
  bsearch_reached : Z;
  bsearch_found : Z;
  additional_reads : Z
}.

Definition sstat0 : eblob_disk_search_stat := mk_sstat 0 0 0 0 0 0 0 0 0.

Definition inc_loops (s : eblob_disk_search_stat) :=
  mk_sstat (loops s + 1) (no_sort s) (search_on_disk s) (bloom_null s)
    (found_index_block s) (no_block s) (bsearch_reached s) (bsearch_found s)
    (additional_reads s).
Definition inc_no_sort (s : eblob_disk_search_stat) :=
  mk_sstat (loops s) (no_sort s + 1) (search_on_disk s) (bloom_null s)
    (found_index_block s) (no_block s) (bsearch_reached s) (bsearch_found s)
    (additional_reads s).
Definition inc_search_on_disk (s : eblob_disk_search_stat) :=
  mk_sstat (loops s) (no_sort s) (search_on_disk s + 1) (bloom_null s)
    (found_index_block s) (no_block s) (bsearch_reached s) (bsearch_found s)
    (additional_reads s).
Definition inc_bloom_null (s : eblob_disk_search_stat) :=
  mk_sstat (loops s) (no_sort s) (search_on_disk s) (bloom_null s + 1)
    (found_index_block s) (no_block s) (bsearch_reached s) (bsearch_found s)
    (additional_reads s).
Definition inc_found_index_block (s : eblob_disk_search_stat) :=
  mk_sstat (loops s) (no_sort s) (search_on_disk s) (bloom_null s)
    (found_index_block s + 1) (no_block s) (bsearch_reached s) (bsearch_found s)
    (additional_reads s).
Definition inc_no_block (s : eblob_disk_search_stat) :=
  mk_sstat (loops s) (no_sort s) (search_on_disk s) (bloom_null s)
    (found_index_block s) (no_block s + 1) (bsearch_reached s) (bsearch_found s)
    (additional_reads s).
Definition inc_bsearch_reached (s : eblob_disk_search_stat) :=
  mk_sstat (loops s) (no_sort s) (search_on_disk s) (bloom_null s)
    (found_index_block s) (no_block s) (bsearch_reached s + 1) (bsearch_found s)
    (additional_reads s).
Definition inc_bsearch_found (s : eblob_disk_search_stat) :=
  mk_sstat (loops s) (no_sort s) (search_on_disk s) (bloom_null s)
    (found_index_block s) (no_block s) (bsearch_reached s) (bsearch_found s + 1)
    (additional_reads s).
Definition inc_additional_reads (s : eblob_disk_search_stat) :=
  mk_sstat (loops s) (no_sort s) (search_on_disk s) (bloom_null s)
    (found_index_block s) (no_block s) (bsearch_reached s) (bsearch_found s)
    (additional_reads s + 1).

(** [struct eblob_ram_control], as [eblob_disk_index_lookup] fills it; the
    base is named by its index number. *)
Record eblob_ram_control : Type := mk_rctl {
  rctl_data_offset : Z;
  rctl_index_offset : Z;
  rctl_size : Z;
  rctl_bctl : Z
}.

(** ** What blob.h declares

    The header with the constants, the record validity check and the Bloom
    hash family is not among the sources, so the development is parametric
    in them.  [eblob_bswap64] converts between disk (little-endian) and
    host order and is the identity on a little-endian host. *)
Class BlobHeader : Type := {
  BLOB_DISK_CTL_REMOVE : Z;
  eblob_bswap64 : Z -> Z;
  EBLOB_ID_SIZE : nat;
  sizeof_disk_control : Z;
  sizeof_index_block : Z;
  EBLOB_BLOB_INDEX_CORRUPT_MAX : Z;
  eblob_check_record : eblob_base_ctl -> eblob_disk_control -> Z;
  bloom_hash : Z -> eblob_key -> Z;
  sizeof_disk_control_pos : 0 < sizeof_disk_control;
  sizeof_index_block_pos : 0 < sizeof_index_block
}.

(** ** What the operating system answers

    A [pread] on the sorted file can fail.  One call of the builder reads
    every offset once, so the answer is a function of the descriptor and
    the offset: [None] when the read goes through, [Some e] when it fails
    with [errno = e]. *)
Class Storage : Type := {
  pread_errno : Z -> Z -> option positive
}.

Section Index.
Context `{BlobHeader} {storage : Storage}.

(** A flag test [flags & mask], as a C condition. *)
Definition flag_set (flags mask : Z) : bool := negb (Z.land flags mask =? 0).

(** ** Comparators *)

Definition eblob_disk_control_sort (d1 d2 : eblob_disk_control) : Z :=
  eblob_id_cmp (dc_key d1) (dc_key d2).

Definition eblob_disk_control_sort_with_flags
    (dc1 dc2 : eblob_disk_control) : Z :=
  let cmp := eblob_id_cmp (dc_key dc1) (dc_key dc2) in
  if cmp =? 0 then
    let cmp :=
      if flag_set (dc_flags dc1) BLOB_DISK_CTL_REMOVE
         && negb (flag_set (dc_flags dc2) BLOB_DISK_CTL_REMOVE)
      then -1 else cmp in
    let cmp :=
      if negb (flag_set (dc_flags dc1) BLOB_DISK_CTL_REMOVE)
         && flag_set (dc_flags dc2) BLOB_DISK_CTL_REMOVE
      then 1 else cmp in
    cmp
  else cmp.

Definition eblob_key_range_cmp (key : eblob_key) (index : eblob_index_block) : Z :=
  let cmp := eblob_id_cmp key (start_key index) in
  if cmp <? 0 then -1
  else if cmp =? 0 then 0
  else
    let cmp := eblob_id_cmp key (end_key index) in
    if cmp <? 0 then 0
    else if cmp =? 0 then 0
    else 1.

Definition eblob_index_block_cmp (k : eblob_index_block) (k2 : eblob_index_block) : Z :=
  eblob_key_range_cmp (start_key k) k2.

Definition eblob_find_non_removed_callback
    (sorted dc : eblob_disk_control) : bool :=
  let rem := eblob_bswap64 BLOB_DISK_CTL_REMOVE in
  negb (flag_set (dc_flags sorted) rem).

(** ** Block-table destruction

    [free] releases what the pointer owns and accepts NULL; in this model
    the array is dropped when the field is overwritten. *)
Definition eblob_index_blocks_destroy (bctl : eblob_base_ctl)
    : Z * eblob_base_ctl :=
  let bctl := set_index_blocks None bctl in
  let bctl := set_bloom None bctl in
  let bctl := set_stat (stat_set_bloom_size 0 (bctl_stat bctl)) bctl in
  let bctl := set_stat (stat_set_index_blocks_size 0 (bctl_stat bctl)) bctl in
  (0, bctl).

(** ** bsearch(3)

    The C library's binary search, as glibc writes it: halve [l, u) around
    [idx = (l + u) / 2] and follow the sign of the comparison.  [get] reads
    element [idx] of the array; [None] is an access outside it. *)
Fixpoint bsearch_loop {K A : Type} (compar : K -> A -> Z) (key : K)
    (get : nat -> option A) (fuel l u : nat) : outcome (option nat) :=
  match fuel with
  | O => Fault OutOfFuel
  | S fuel' =>
      if (l <? u)%nat then
        let idx := ((l + u) / 2)%nat in
        match get idx with
        | None => Fault OutOfBounds
        | Some p =>
            let comparison := compar key p in
            if comparison <? 0 then bsearch_loop compar key get fuel' l idx
            else if 0 <? comparison then
              bsearch_loop compar key get fuel' (S idx) u
            else Ok (Some idx)
        end
      else Ok None
  end.

Definition bsearch {K A : Type} (compar : K -> A -> Z) (key : K)
    (get : nat -> option A) (nmemb : nat) : outcome (option nat) :=
  bsearch_loop compar key get (S nmemb) 0 nmemb.

(** ** Bloom filter

    Modelled from the spec: [eblob_bloom_get] and [eblob_bloom_set] are
    defined in blob.h, which is not among the sources.  The spec: "a bit
    array of size bloom_size bytes and a hash-function count k"; "An insert
    sets all k bits; a query returns true iff all k bits are set"; the bit
    positions come from "any fixed family" of hashes, here [bloom_hash].
    Both are called with the base and the key only, as index.c calls them. *)
Definition bloom_bit (bctl : eblob_base_ctl) (key : eblob_key) (i : Z) : Z :=
  bloom_hash i key mod (8 * bloom_size bctl).

Definition eblob_bloom_set (bctl : eblob_base_ctl) (key : eblob_key)
    : outcome eblob_base_ctl :=
  match bloom bctl with
  | None => Fault NullDeref
  | Some bits =>
      if bloom_size bctl =? 0 then Fault DivideByZero
      else
        let bits' :=
          fold_left (fun acc i => Z.setbit acc (bloom_bit bctl key i))
                    (seqZ 0 (bloom_func_num bctl)) bits in
        Ok (set_bloom (Some bits') bctl)
  end.

Definition eblob_bloom_get (bctl : eblob_base_ctl) (key : eblob_key)
    : outcome bool :=
  match bloom bctl with
  | None => Fault NullDeref
  | Some bits =>
      if bloom_size bctl =? 0 then Fault DivideByZero
      else
        Ok (forallb (fun i => Z.testbit bits (bloom_bit bctl key i))
                    (seqZ 0 (bloom_func_num bctl)))
  end.

(** ** Block search *)

(** The array [bctl->index_blocks] as [bsearch] reads it. *)
Definition index_blocks_get (bctl : eblob_base_ctl) (i : nat)
    : option eblob_index_block :=
  match index_blocks bctl with
  | None => None
  | Some arr => arr !! i
  end.

(** The result is the position of the block in [bctl->index_blocks]. *)
Definition eblob_index_blocks_search_nolock_bsearch_nobloom
    (bctl : eblob_base_ctl) (dc : eblob_disk_control)
    (st : eblob_disk_search_stat)
    : outcome (option nat * eblob_disk_search_stat) :=
  t ← bsearch eblob_key_range_cmp (dc_key dc) (index_blocks_get bctl)
        (Z.to_nat (LST_INDEX_BLOCKS_SIZE (bctl_stat bctl) / sizeof_index_block));
  match t with
  | Some _ => mret (t, inc_found_index_block st)
  | None => mret (t, st)
  end.

Definition eblob_index_blocks_search_nolock
    (bctl : eblob_base_ctl) (dc : eblob_disk_control)
    (st : eblob_disk_search_stat)
    : outcome (option nat * eblob_disk_search_stat) :=
  present ← eblob_bloom_get bctl (dc_key dc);
  if negb present then mret (None, inc_bloom_null st)
  else
    '(t, st) ← eblob_index_blocks_search_nolock_bsearch_nobloom bctl dc st;
    match t with
    | None => mret (t, inc_no_block st)
    | Some _ => mret (t, st)
    end.

(** ** Bloom sizing *)

Definition eblob_bloom_size (bctl : eblob_base_ctl) : outcome Z :=
  let bloom_size := 0 in
  let bloom_size :=
    u64 (bloom_size + map_size (bctl_sort bctl) / sizeof_disk_control) in
  bloom_size ← udiv bloom_size (index_block_size (back_cfg bctl));
  let bloom_size := u64 (bloom_size + 1) in
  let bloom_size := u64 (bloom_size * index_block_bloom_length (back_cfg bctl)) in
  let bloom_size := bloom_size / 8 in
  mret bloom_size.

(** binary64 arithmetic, from the specification of IEEE 754 floats. *)
Definition prec64 : Z := 53.
Definition emax64 : Z := 1024.

(** The [double] a [uint64_t] converts to. *)
Definition double_of_uint64 (n : Z) : spec_float :=
  binary_normalize prec64 emax64 n 0 false.

(** The literal [0.69]: the binary64 number nearest to 69/100. *)
Definition double_0_69 : spec_float :=
  SFdiv prec64 emax64 (double_of_uint64 69) (double_of_uint64 100).

(** Truncation toward zero of a finite [double]. *)
Definition double_trunc (x : spec_float) : Z :=
  match x with
  | S754_finite s m e =>
      let a := if 0 <=? e then Z.pos m * 2 ^ e else Z.pos m / 2 ^ (- e) in
      if s then - a else a
  | _ => 0
  end.

(** The conversion [(uint8_t) x].  A value that truncates into [0, 255] is
    that integer.  Outside that range C leaves the conversion undefined;
    the definition takes what the x86-64 code of the usual compilers gives,
    a 32-bit [cvttsd2si] and the low byte of its result: the low byte of
    the truncation when that fits 32 bits, and the low byte of the
    "integer indefinite" value [0x80000000], which is 0, when it does
    not. *)
Definition uint8_of_double (x : spec_float) : Z :=
  let t := double_trunc x in
  if (- 2 ^ 31 <=? t) && (t <? 2 ^ 31) then t mod 256 else 0.

Definition eblob_bloom_func_num (bctl : eblob_base_ctl) : outcome Z :=
  bits_per_key ←
    udiv (u64 (8 * bloom_size bctl))
         (map_size (bctl_sort bctl) / sizeof_disk_control);
  let func_num :=
    uint8_of_double
      (SFmul prec64 emax64 (double_of_uint64 bits_per_key) double_0_69) in
  if func_num =? 0 then mret 1
  else if 20 <? func_num then mret 20
  else mret func_num.

(** ** Block-table builder *)

(** The record at byte offset [off] of a mapping, when [off] is the start
    of a record inside it. *)
Definition dc_at (m : eblob_map_fd) (off : Z) : option eblob_disk_control :=
  if (0 <=? off) && (off mod sizeof_disk_control =? 0)
  then map_data m !! Z.to_nat (off / sizeof_disk_control)
  else None.

(** [pread(bctl->sort.fd, &dc, sizeof(dc), offset)]: the sorted file is the
    file behind the mapping, [map_size] bytes long.  The result is the
    value returned and the record read: -1 when the call fails; the size
    of a record, and the record, when that many bytes are left at
    [offset]; else the number of bytes left, a short read.  A mapping with
    bytes for a record its content does not hold is outside the model. *)
Definition pread (m : eblob_map_fd) (offset : Z)
    : outcome (Z * option eblob_disk_control) :=
  match pread_errno (map_fd m) offset with
  | Some _ => mret (-1, None)
  | None =>
      let left := map_size m - offset in
      if sizeof_disk_control <=? left then
        match dc_at m offset with
        | Some r => mret (sizeof_disk_control, Some r)
        | None => Fault OutOfBounds
        end
      else mret (Z.max 0 left, None)
  end.

(** [errno] as a failed [pread] at [offset] leaves it. *)
Definition pread_errno_value (m : eblob_map_fd) (offset : Z) : Z :=
  match pread_errno (map_fd m) offset with
  | Some e => Z.pos e
  | None => 0
  end.

Definition zero_key : eblob_key := replicate EBLOB_ID_SIZE 0.
(** What [calloc] hands out for one block. *)
Definition zero_block : eblob_index_block := mk_block zero_key zero_key 0 0.
(** Stands for the local [dc] before the first [pread] has filled it. *)
Definition zero_dc : eblob_disk_control := mk_dc zero_key 0 0 0 0.

Definition block_set_start_offset (v : Z) (b : eblob_index_block) :=
  mk_block (start_key b) (end_key b) v (end_offset b).
Definition block_set_start_key (k : eblob_key) (b : eblob_index_block) :=
  mk_block k (end_key b) (start_offset b) (end_offset b).
Definition block_set_end (k : eblob_key) (v : Z) (b : eblob_index_block) :=
  mk_block (start_key b) k (start_offset b) v.

(** A store through the pointer [block = &bctl->index_blocks[id]]. *)
Definition store_block (f : eblob_index_block -> eblob_index_block)
    (id : nat) (bctl : eblob_base_ctl) : eblob_base_ctl :=
  set_index_blocks (alter f id <$> index_blocks bctl) bctl.

(** The locals of [eblob_index_blocks_fill] that live across iterations;
    [fl_block] is the position [block] points at. *)
Record fill_locals : Type := mk_fill {
  fl_bctl : eblob_base_ctl;
  fl_block : nat;
  fl_dc : eblob_disk_control;
  fl_block_id : Z;
  fl_err_count : Z;
  fl_offset : Z;
  fl_removed : Z;
  fl_removed_size : Z
}.

Definition fl_set_bctl (b : eblob_base_ctl) (l : fill_locals) :=
  mk_fill b (fl_block l) (fl_dc l) (fl_block_id l) (fl_err_count l)
          (fl_offset l) (fl_removed l) (fl_removed_size l).
Definition fl_set_dc (d : eblob_disk_control) (l : fill_locals) :=
  mk_fill (fl_bctl l) (fl_block l) d (fl_block_id l) (fl_err_count l)
          (fl_offset l) (fl_removed l) (fl_removed_size l).
Definition fl_next_block (l : fill_locals) :=
  mk_fill (fl_bctl l) (Z.to_nat (fl_block_id l)) (fl_dc l) (fl_block_id l + 1)
          (fl_err_count l) (fl_offset l) (fl_removed l) (fl_removed_size l).
Definition fl_inc_err_count (l : fill_locals) :=
  mk_fill (fl_bctl l) (fl_block l) (fl_dc l) (fl_block_id l)
          (fl_err_count l + 1) (fl_offset l) (fl_removed l) (fl_removed_size l).
Definition fl_advance (l : fill_locals) :=
  mk_fill (fl_bctl l) (fl_block l) (fl_dc l) (fl_block_id l) (fl_err_count l)
          (fl_offset l + sizeof_disk_control) (fl_removed l) (fl_removed_size l).
(** [removed++; removed_size += dc.disk_size;] on the two [int64_t]
    counters. *)
Definition fl_count_removed (disk_size : Z) (l : fill_locals) :=
  mk_fill (fl_bctl l) (fl_block l) (fl_dc l) (fl_block_id l) (fl_err_count l)
          (fl_offset l) (s64 (fl_removed l + 1))
          (s64 (fl_removed_size l + disk_size)).

(** How a pass over the records leaves the loops: through their conditions,
    or through [goto err_out_drop_tree] with [err] set. *)
Inductive fill_exit : Type :=
| FillNext (l : fill_locals)
| FillDropTree (err : Z) (l : fill_locals).

(** The inner [for] loop; [n] is the number of values [i] has left below
    [index_block_size]. *)
Fixpoint fill_block_records (n : nat) (i : Z) (l : fill_locals)
    : outcome fill_exit :=
  match n with
  | O => mret (FillNext l)
  | S n' =>
      if fl_offset l <? map_size (bctl_sort (fl_bctl l)) then
        r ← pread (bctl_sort (fl_bctl l)) (fl_offset l);
        match r with
        | (err, None) =>
            let err :=
              if err <? 0
              then - pread_errno_value (bctl_sort (fl_bctl l)) (fl_offset l)
              else err in
            mret (FillDropTree err l)
        | (_, Some dc) =>
            let l := fl_set_dc dc l in
            let err := eblob_check_record (fl_bctl l) dc in
            if negb (err =? 0) then
              let l :=
                fl_set_bctl
                  (set_stat (stat_inc_index_corrupted (bctl_stat (fl_bctl l)))
                            (fl_bctl l)) l in
              let err_count := fl_err_count l in
              let l := fl_inc_err_count l in
              if (EBLOB_BLOB_INDEX_CORRUPT_MAX <? err_count)
                 || (i =? 0)
                 || (i =? index_block_size (back_cfg (fl_bctl l)) - 1)
              then mret (FillDropTree err l)
              else fill_block_records n' (i + 1) (fl_advance l)
            else
              let l :=
                if i =? 0
                then fl_set_bctl
                       (store_block (block_set_start_key (dc_key dc))
                                    (fl_block l) (fl_bctl l)) l
                else l in
              l ← (if flag_set (dc_flags dc) (eblob_bswap64 BLOB_DISK_CTL_REMOVE)
                   then mret (fl_count_removed (dc_disk_size dc) l)
                   else bctl ← eblob_bloom_set (fl_bctl l) (dc_key dc);
                        mret (fl_set_bctl bctl l));
              fill_block_records n' (i + 1) (fl_advance l)
        end
      else mret (FillNext l)
  end.

(** The outer [while] loop.  Every pass reads at least one record or leaves
    the function, so one unit of fuel per record and one more is enough. *)
Fixpoint fill_blocks (fuel : nat) (l : fill_locals) : outcome fill_exit :=
  if fl_offset l <? map_size (bctl_sort (fl_bctl l)) then
    match fuel with
    | O => Fault OutOfFuel
    | S fuel' =>
        let l := fl_next_block l in
        match index_blocks_get (fl_bctl l) (fl_block l) with
        | None => Fault OutOfBounds
        | Some _ =>
            let l :=
              fl_set_bctl
                (store_block (block_set_start_offset (fl_offset l))
                             (fl_block l) (fl_bctl l)) l in
            r ← fill_block_records
                  (Z.to_nat (index_block_size (back_cfg (fl_bctl l)))) 0 l;
            match r with
            | FillDropTree err l => mret (FillDropTree err l)
            | FillNext l =>
                fill_blocks fuel'
                  (fl_set_bctl
                     (store_block
                        (block_set_end (dc_key (fl_dc l)) (fl_offset l))
                        (fl_block l) (fl_bctl l)) l)
            end
        end
    end
  else mret (FillNext l).

(** [howmany(x, y)] of sys/param.h. *)
Definition howmany (x y : Z) : outcome Z := udiv (x + (y - 1)) y.

(** [calloc_ok n] tells whether the [n]-th allocation of the call succeeds
    (0: the Bloom bit array, 1: the block array). *)
Definition eblob_index_blocks_fill (calloc_ok : nat -> bool)
    (bctl : eblob_base_ctl) : outcome (Z * eblob_base_ctl) :=
  let err := 0 in
  bsize ← eblob_bloom_size bctl;
  let bctl := set_bloom_size bsize bctl in
  fnum ← eblob_bloom_func_num bctl;
  let bctl := set_bloom_func_num fnum bctl in
  let bctl := set_bloom (if calloc_ok 0%nat then Some 0 else None) bctl in
  match bloom bctl with
  | None =>
      let err := - err in
      mret (err, bctl)
  | Some _ =>
      let bctl :=
        set_stat (stat_set_bloom_size (bloom_size bctl) (bctl_stat bctl)) bctl in
      block_count ←
        howmany (map_size (bctl_sort bctl) / sizeof_disk_control)
                (index_block_size (back_cfg bctl));
      let bctl :=
        set_index_blocks
          (if calloc_ok 1%nat
           then Some (replicate (Z.to_nat block_count) zero_block)
           else None) bctl in
      match index_blocks bctl with
      | None =>
          let err := - ENOMEM in
          mret (err, bctl)
      | Some _ =>
          let bctl :=
            set_stat (stat_set_index_blocks_size
                        (block_count * sizeof_index_block) (bctl_stat bctl))
                     bctl in
          r ← fill_blocks (S (length (map_data (bctl_sort bctl))))
                (mk_fill bctl 0%nat zero_dc 0 0 0 0 0);
          match r with
          | FillNext l =>
              let bctl := fl_bctl l in
              let bctl :=
                set_stat (stat_set_records_removed (fl_removed l)
                            (bctl_stat bctl)) bctl in
              let bctl :=
                set_stat (stat_set_removed_size (fl_removed_size l)
                            (bctl_stat bctl)) bctl in
              mret (0, bctl)
          | FillDropTree err l =>
              let '(_, bctl) := eblob_index_blocks_destroy (fl_bctl l) in
              mret (err, bctl)
          end
      end
  end.

(** ** Two-level searcher *)

Section FindOnDisk.
Variable b_cfg : eblob_config.
Variable bctl : eblob_base_ctl.
Variable dc : eblob_disk_control.
Variable callback : eblob_disk_control -> eblob_disk_control -> bool.

(** A dereference of a record pointer into the sorted mapping. *)
Definition sorted_at (p : Z) : outcome eblob_disk_control :=
  match dc_at (bctl_sort bctl) p with
  | Some r => Ok r
  | None => Fault OutOfBounds
  end.

(** The forward loop, [sorted] running up to [end]. *)
Fixpoint scan_forward (fuel : nat) (sorted : Z) (st : eblob_disk_search_stat)
    : outcome (option Z * eblob_disk_search_stat) :=
  match fuel with
  | O => Fault OutOfFuel
  | S fuel' =>
      if sorted <? map_size (bctl_sort bctl) then
        r ← sorted_at sorted;
        if eblob_disk_control_sort r dc =? 0 then
          if callback r dc then mret (Some sorted, st)
          else scan_forward fuel' (sorted + sizeof_disk_control)
                            (inc_additional_reads st)
        else mret (None, st)
      else mret (None, st)
  end.

(** The backward loop, [sorted] running down to [start]. *)
Fixpoint scan_backward (fuel : nat) (sorted : Z) (st : eblob_disk_search_stat)
    : outcome (option Z * eblob_disk_search_stat) :=
  match fuel with
  | O => Fault OutOfFuel
  | S fuel' =>
      if 0 <=? sorted then
        let st := inc_additional_reads st in
        r ← sorted_at sorted;
        if negb (eblob_disk_control_sort r dc =? 0) then mret (None, st)
        else if callback r dc then mret (Some sorted, st)
        else scan_backward fuel' (sorted - sizeof_disk_control) st
      else mret (None, st)
  end.

(** The part of [eblob_find_on_disk] after the intra-block [bsearch] has
    returned [sorted_orig]. *)
Definition linear_expansion (sorted_orig : Z) (st : eblob_disk_search_stat)
    : outcome (option Z * eblob_disk_search_stat) :=
  let fuel := S (length (map_data (bctl_sort bctl))) in
  '(found, st) ← scan_forward fuel sorted_orig st;
  match found with
  | Some _ => mret (found, st)
  | None => scan_backward fuel (sorted_orig - sizeof_disk_control) st
  end.

(** The block the search selected, and the slice [search_start, num] the
    intra-block [bsearch] runs over. *)
Definition block_slice (t : nat) : outcome (Z * Z) :=
  match index_blocks_get bctl t with
  | None => Fault OutOfBounds
  | Some block =>
      let rest := u64 (map_size (bctl_sort bctl) - start_offset block) in
      if negb (0 <? rest / sizeof_disk_control) then Fault AssertionFailed
      else if negb (rest mod sizeof_disk_control =? 0) then Fault AssertionFailed
      else
        let num := rest / sizeof_disk_control in
        let num := if index_block_size b_cfg <? num
                   then index_block_size b_cfg else num in
        mret (start_offset block, num)
  end.

(** The result is the byte offset of the accepted record in the mapping. *)
Definition eblob_find_on_disk (st : eblob_disk_search_stat)
    : outcome (option Z * eblob_disk_search_stat) :=
  let st := inc_search_on_disk st in
  '(block, st) ← eblob_index_blocks_search_nolock bctl dc st;
  match block with
  | None => mret (None, st)
  | Some t =>
      '(search_start, num) ← block_slice t;
      let st := inc_bsearch_reached st in
      sorted_orig ←
        bsearch eblob_disk_control_sort dc
          (fun i => dc_at (bctl_sort bctl)
                      (search_start + Z.of_nat i * sizeof_disk_control))
          (Z.to_nat num);
      match sorted_orig with
      | None => mret (None, st)
      | Some i =>
          let st := inc_bsearch_found st in
          linear_expansion (search_start + Z.of_nat i * sizeof_disk_control) st
      end
  end.

End FindOnDisk.

(** ** Sorted-index generator *)

(** qsort(3) over the first [nmemb] elements.  The C library fixes neither
    the algorithm nor the order in which it leaves elements that compare
    equal; the model sorts by merging, and the order of equal elements it
    gives is one of those a C library may give, not that of a particular
    one.  No property below depends on it. *)
Definition qsort {A : Type} (compar : A -> A -> Z) (base : list A)
    (nmemb : nat) : list A :=
  @merge_sort A (fun a b => compar a b <= 0)
     (fun a b => decide (compar a b <= 0)) (take nmemb base)
  ++ drop nmemb base.

Definition eblob_get_actual_size (fstat_ret st_size : Z) : Z :=
  let err := fstat_ret in
  if err <? 0 then err else st_size.

(** What the operating system and the helpers of other files answer during
    one run of the generator: the results of the two [malloc]s, of [open]
    (with [errno]), of [fstat], of [eblob_data_map] on the source, of
    [eblob_preallocate], of [eblob_data_map] on the target and of [msync],
    and the index file behind [bctl->index_fd].  A file is its whole
    records, [io_index], and the bytes after the last of them, fewer than
    one record: [io_tail] counts them, and only its residue modulo the
    size of a record is read. *)
Record sort_io : Type := mk_sort_io {
  io_malloc_file : bool;
  io_malloc_dst_file : bool;
  io_open : Z;
  io_errno : positive;
  io_fstat : Z;
  io_index : list eblob_disk_control;
  io_tail : Z;
  io_map_src : Z;
  io_preallocate : Z;
  io_map_dst : Z;
  io_msync : Z
}.

(** [st.st_size] of the index file. *)
Definition io_st_size (io : sort_io) : Z :=
  sizeof_disk_control * Z.of_nat (length (io_index io))
  + io_tail io mod sizeof_disk_control.

(** [src.size] and [dst.size] are read as signed, as the test
    [src.size <= 0] and the assignment [err = src.size] have them; the type
    of the field is declared in blob.h.  Were the field unsigned, a failed
    [fstat] would pass the test and reach [eblob_data_map] with the error
    as the size to map. *)
Definition eblob_generate_sorted_index (io : sort_io) (bctl : eblob_base_ctl)
    : Z * eblob_base_ctl :=
  if negb (io_malloc_file io) then (- ENOMEM, bctl)
  else if negb (io_malloc_dst_file io) then (- ENOMEM, bctl)
  else
    let fd := io_open io in
    if fd <? 0 then (- Z.pos (io_errno io), bctl)
    else
      let src_size := eblob_get_actual_size (io_fstat io) (io_st_size io) in
      if src_size <=? 0 then (src_size, bctl)
      else
        let err := io_map_src io in
        if negb (err =? 0) then (err, bctl)
        else
          let src := mk_map (index_fd bctl) src_size (io_index io) in
          let err := io_preallocate io in
          if negb (err =? 0) then (err, bctl)
          else
            let err := io_map_dst io in
            if negb (err =? 0) then (err, bctl)
            else
              let dst_data := map_data src in
              let dst_data :=
                qsort eblob_disk_control_sort_with_flags dst_data
                      (Z.to_nat (src_size / sizeof_disk_control)) in
              let dst := mk_map fd src_size dst_data in
              let err := io_msync io in
              if err =? -1 then (err, bctl)
              else (0, set_sort dst bctl).

(** ** Lookup coordinator *)

(** Modelled from the spec: [eblob_convert_disk_control] is declared in
    blob.h.  The spec: "byte-swap the DC fields into host order". *)
Definition eblob_convert_disk_control (dc : eblob_disk_control)
    : eblob_disk_control :=
  mk_dc (dc_key dc) (eblob_bswap64 (dc_flags dc))
        (eblob_bswap64 (dc_data_size dc)) (eblob_bswap64 (dc_disk_size dc))
        (eblob_bswap64 (dc_position dc)).

(** [struct eblob_backend]: the configuration and the list of bases, in
    list order (oldest first). *)
Record eblob_backend : Type := mk_backend {
  b_cfg : eblob_config;
  bases : list eblob_base_ctl
}.

(** How one pass over the bases ends: [goto again] is pending (the
    condition on [tries] is still to be evaluated), or the function is
    about to return [err] with [rctl] filled or not. *)
Inductive traversal : Type :=
| Invalidated (st : eblob_disk_search_stat)
| Finished (err : Z) (rctl : option eblob_ram_control)
           (st : eblob_disk_search_stat).

(** The body of [list_for_each_entry_reverse], over the bases still to
    visit, newest first. *)
Fixpoint lookup_bases (cfg : eblob_config) (key : eblob_key)
    (l : list eblob_base_ctl) (st : eblob_disk_search_stat)
    : outcome traversal :=
  match l with
  | [] => mret (Finished (- ENOENT) None st)
  | bctl :: rest =>
      let st := inc_loops st in
      if index_fd bctl <? 0 then mret (Invalidated st)
      else if map_fd (bctl_sort bctl) <? 0 then
        lookup_bases cfg key rest (inc_no_sort st)
      else
        let tmp := mk_dc key 0 0 0 0 in
        '(dc, st) ← eblob_find_on_disk cfg bctl tmp
                      eblob_find_non_removed_callback st;
        match dc with
        | None => lookup_bases cfg key rest st
        | Some p =>
            r ← sorted_at bctl p;
            let r := eblob_convert_disk_control r in
            mret (Finished 0
                    (Some (mk_rctl (dc_position r) p (dc_data_size r)
                                   (bctl_index bctl)))
                    st)
        end
  end.

Definition max_tries : Z := 10.

(** The function from the label [again] on.  Other threads may change the
    bases between two passes: [b n] is the backend as the pass that follows
    [n] restarts finds it.  No more than [max_tries + 2] passes are made,
    which bounds [fuel]. *)
Fixpoint lookup_again (fuel : nat) (b : nat -> eblob_backend) (key : eblob_key)
    (tries : Z) (st : eblob_disk_search_stat)
    : outcome (Z * option eblob_ram_control * eblob_disk_search_stat) :=
  match fuel with
  | O => Fault OutOfFuel
  | S fuel' =>
      let now := b (Z.to_nat tries) in
      r ← lookup_bases (b_cfg now) key (rev (bases now)) st;
      match r with
      | Finished err rctl st => mret (err, rctl, st)
      | Invalidated st =>
          if max_tries <? tries then mret (- EDEADLK, None, st)
          else lookup_again fuel' b key (tries + 1) st
      end
  end.

Definition eblob_disk_index_lookup (b : nat -> eblob_backend) (key : eblob_key)
    : outcome (Z * option eblob_ram_control * eblob_disk_search_stat) :=
  lookup_again (Z.to_nat (max_tries + 2)) b key 0 sstat0.

End Index.

(** ** The properties, as the design text words them *)

Section Design.
Context `{BlobHeader}.

(** The leading elements of [l] that satisfy [p]. *)
Fixpoint take_while {A : Type} (p : A -> bool) (l : list A) : list A :=
  match l with
  | [] => []
  | x :: l' => if p x then x :: take_while p l' else []
  end.

(** The position of the first element of [l] that satisfies [p]. *)
Fixpoint find_index {A : Type} (p : A -> bool) (l : list A) : option nat :=
  match l with
  | [] => None
  | x :: l' => if p x then Some 0%nat else S <$> find_index p l'
  end.

(** "Key equality holds" between a record and the probe, and "the callback
    accepts" a record. *)
Definition same_key (dc r : eblob_disk_control) : bool :=
  eblob_disk_control_sort r dc =? 0.
Definition accepted
    (callback : eblob_disk_control -> eblob_disk_control -> bool)
    (dc r : eblob_disk_control) : bool :=
  callback r dc.

(** Step 4 of the searcher in the words of the design: from the record
    number [hit], the equal-key run forward, first accepted record; failing
    that, the equal-key run backward from [hit - 1], first accepted record;
    failing that, nothing.  The result is a record number. *)
Definition spec_linear_expansion (data : list eblob_disk_control)
    (dc : eblob_disk_control)
    (callback : eblob_disk_control -> eblob_disk_control -> bool)
    (hit : nat) : option nat :=
  match find_index (accepted callback dc)
          (take_while (same_key dc) (drop hit data)) with
  | Some k => Some (hit + k)%nat
  | None =>
      match find_index (accepted callback dc)
              (take_while (same_key dc) (rev (take hit data))) with
      | Some k => Some (hit - 1 - k)%nat
      | None => None
      end
  end.

(** What a search or a lookup found, the counters left aside. *)
Definition found_of {A : Type} (r : outcome (A * eblob_disk_search_stat))
    : outcome A :=
  match r with
  | Ok (a, _) => Ok a
  | Fault f => Fault f
  end.

(** What a pass over the bases decided: nothing yet when it was cut short
    by an invalidated base, else the error code and the result. *)
Definition verdict (t : traversal) : option (Z * option eblob_ram_control) :=
  match t with
  | Invalidated _ => None
  | Finished err rctl _ => Some (err, rctl)
  end.

Definition pass_verdict (r : outcome traversal)
    : outcome (option (Z * option eblob_ram_control)) :=
  match r with
  | Ok t => Ok (verdict t)
  | Fault f => Fault f
  end.

(** [clamp(x, lo, hi)]. *)
Definition clamp (x lo hi : Z) : Z := Z.max lo (Z.min hi x).

(** The hash-function count in the words of the design:
    [clamp(round(bits_per_key * 0.69), 1, 20)] with
    [bits_per_key = 8 * bloom_size / records], computed exactly on the
    fraction [8 * bloom_size * 69 / (records * 100)], halves rounded up. *)
Definition spec_bloom_func_num (bloom_size records : Z) : Z :=
  let num := 8 * bloom_size * 69 in
  let den := records * 100 in
  clamp ((2 * num + den) / (2 * den)) 1 20.

(** The Bloom probe placed as the design places it: a negative answer of
    the filter is only ever given after the block-range search has
    selected a block. *)
Definition bloom_probed_after_block_selected : Prop :=
  forall bctl dc st t st',
    eblob_index_blocks_search_nolock bctl dc st = Ok (t, st') ->
    bloom_null st' = bloom_null st + 1 ->
    found_index_block st' = found_index_block st + 1.

(** The index is monotone non-decreasing by key. *)
Definition key_sorted (data : list eblob_disk_control) : Prop :=
  forall i j di dj, (i <= j)%nat ->
    data !! i = Some di -> data !! j = Some dj ->
    eblob_id_cmp (dc_key di) (dc_key dj) <= 0.

(** Among records of one key, no live record comes before a removed one;
    removed is what the comparator tests, [flags & BLOB_DISK_CTL_REMOVE]. *)
Definition removed_before_live (data : list eblob_disk_control) : Prop :=
  forall i j di dj, (i < j)%nat ->
    data !! i = Some di -> data !! j = Some dj ->
    eblob_id_cmp (dc_key di) (dc_key dj) = 0 ->
    flag_set (dc_flags dj) BLOB_DISK_CTL_REMOVE = true ->
    flag_set (dc_flags di) BLOB_DISK_CTL_REMOVE = true.

(** What the builder leaves in a slot of the block array: the zeroed range
    [calloc] gave it, or the range of records [s, e) with the keys of
    record [s] and of record [e - 1]. *)
Definition block_covers (data : list eblob_disk_control)
    (b : eblob_index_block) : Prop :=
  (start_offset b = 0 /\ end_offset b = 0) \/
  exists (s e : nat) (ds de : eblob_disk_control),
    (s < e)%nat /\
    start_offset b = sizeof_disk_control * Z.of_nat s /\
    end_offset b = sizeof_disk_control * Z.of_nat e /\
    data !! s = Some ds /\ start_key b = dc_key ds /\
    data !! (e - 1)%nat = Some de /\ end_key b = dc_key de.

End Design.

(** ** A concrete header

    The values a little-endian Linux build sees: 64-byte ids, 96-byte
    disk-control records, [BLOB_DISK_CTL_REMOVE = 1], the corruption limit
    of the spec (100).  The record check and the hash family stand for the
    ones of blob.c and blob.h: a record is sound when its disk size covers
    its data size, and the [i]-th hash of a key is an affine function of
    the id read as a number. *)
Module Sample.

Definition check_record (bctl : eblob_base_ctl) (dc : eblob_disk_control) : Z :=
  if dc_disk_size dc <? dc_data_size dc then -22 else 0.

Definition hash (i : Z) (key : eblob_key) : Z :=
  (i + 1) * fold_left (fun acc b => acc * 256 + b) key 0 + i.

Definition header : BlobHeader := {|
  BLOB_DISK_CTL_REMOVE := 1;
  eblob_bswap64 := fun x => x;
  EBLOB_ID_SIZE := 64;
  sizeof_disk_control := 96;
  sizeof_index_block := 144;
  EBLOB_BLOB_INDEX_CORRUPT_MAX := 100;
  eblob_check_record := check_record;
  bloom_hash := hash;
  sizeof_disk_control_pos := eq_refl;
  sizeof_index_block_pos := eq_refl
|}.

(** A disk on which no read fails. *)
Definition disk : Storage := {| pread_errno := fun _ _ => None |}.

(** The key whose last byte is [n], the others 0. *)
Definition key (n : Z) : eblob_key := replicate 63 0 ++ [n].

(** The record a lookup of key [n] searches with. *)
Definition probe (n : Z) : eblob_disk_control := mk_dc (key n) 0 0 0 0.

(** A live record and a tombstone for key [n] with payload at [pos]. *)
Definition live (n pos : Z) : eblob_disk_control := mk_dc (key n) 0 10 16 pos.
Definition removed (n pos : Z) : eblob_disk_control := mk_dc (key n) 1 10 16 pos.
(** A record the check rejects. *)
Definition corrupt (n : Z) : eblob_disk_control := mk_dc (key n) 0 10 0 0.

Definition cfg : eblob_config := mk_cfg 4 512.

Definition stat0 : eblob_stat := mk_stat 0 0 0 0 0.

(** A freshly closed base number [n]: no sorted mapping yet, no block
    table, no Bloom. *)
Definition closed_base (n : Z) : eblob_base_ctl :=
  mk_bctl n 3 (mk_map (-1) 0 []) None None 0 0 stat0 cfg.

(** An operating system that grants everything. *)
Definition io_ok (recs : list eblob_disk_control) : sort_io :=
  mk_sort_io true true 4 1%positive 0 recs 0 0 0 0 0.

Definition calloc_always : nat -> bool := fun _ => true.

(** The base as it stands after the sorted index was generated and the
    block table filled. *)
Definition sorted_base (n : Z) (recs : list eblob_disk_control)
    : outcome (Z * eblob_base_ctl) :=
  let '(_, bctl) :=
    @eblob_generate_sorted_index header (io_ok recs) (closed_base n) in
  @eblob_index_blocks_fill header disk calloc_always bctl.

Definition base_of (r : outcome (Z * eblob_base_ctl)) : eblob_base_ctl :=
  match r with
  | Ok (_, bctl) => bctl
  | Fault _ => closed_base 0
  end.

(** A base whose sorted mapping is [recs] as it stands, block table not
    built yet. *)
Definition unfilled (recs : list eblob_disk_control) : eblob_base_ctl :=
  set_sort (mk_map 4 (96 * Z.of_nat (length recs)) recs) (closed_base 1).

(** Six records, two blocks; key 7 was removed and written again. *)
Definition index_a : list eblob_disk_control :=
  [live 3 100; live 1 200; removed 7 5; live 7 6; live 2 1; live 9 1].
Definition base_a : eblob_base_ctl := base_of (sorted_base 1 index_a).

(** One block in which the tombstone of key 7 sits right before its live
    record. *)
Definition index_b : list eblob_disk_control :=
  [live 1 1; live 2 2; removed 7 5; live 7 6].
Definition base_b : eblob_base_ctl := base_of (sorted_base 1 index_b).

(** Key 3 live in base 1, removed in the newer base 2. *)
Definition older_live : eblob_base_ctl := base_of (sorted_base 1 [live 3 100]).
Definition newer_tomb : eblob_base_ctl := base_of (sorted_base 2 [removed 3 50]).

(** Base 2 as a data-sort leaves it while it replaces it, and as it is
    once the data-sort has finished. *)
Definition invalidated : eblob_base_ctl :=
  mk_bctl 2 (-1) (mk_map (-1) 0 []) None None 0 0 stat0 cfg.
Definition newer_live : eblob_base_ctl := base_of (sorted_base 2 [live 3 50]).

(** A data-sort that is under way during the first eleven passes of a
    lookup and over at the twelfth. *)
Definition racing (n : nat) : eblob_backend :=
  if (n <=? 10)%nat then mk_backend cfg [older_live; invalidated]
  else mk_backend cfg [older_live; newer_live].

(** The Bloom allocation fails; the block array cannot be allocated. *)
Definition no_bloom_memory (n : nat) : bool := negb (n =? 0)%nat.
Definition no_block_memory (n : nat) : bool := negb (n =? 1)%nat.

(** Blocks of four records with two, or one, unsound records in the
    middle; [k] blocks of the first kind hold [2 * k] unsound records. *)
Definition two_unsound (n : Z) : list eblob_disk_control :=
  [live n 0; corrupt n; corrupt n; live n 0].
Definition one_unsound (n : Z) : list eblob_disk_control :=
  [live n 0; corrupt n; live n 0; live n 0].
Definition unsound_blocks (k : nat) : list eblob_disk_control :=
  flat_map (fun i => two_unsound (Z.of_nat i)) (seq 0 k).
Definition index_101_unsound : list eblob_disk_control :=
  unsound_blocks 50 ++ one_unsound 50.
Definition index_102_unsound : list eblob_disk_control := unsound_blocks 51.

(** A sorted file of 146 bytes: one record and 50 bytes more. *)
Definition truncated : eblob_base_ctl :=
  set_sort (mk_map 4 146 [live 1 1]) (closed_base 1).

(** A disk on which the read at byte 96 fails with [errno = 5]. *)
Definition failing_disk : Storage :=
  {| pread_errno := fun _ off => if off =? 96 then Some 5%positive else None |}.

(** An index file of the records [recs] and [tail] bytes more. *)
Definition io_tailed (recs : list eblob_disk_control) (tail : Z) : sort_io :=
  mk_sort_io true true 4 1%positive 0 recs tail 0 0 0 0.

(** A tombstone for key [n] whose disk size is [2 ^ 63]. *)
Definition huge_removed (n : Z) : eblob_disk_control :=
  mk_dc (key n) 1 10 (2 ^ 63) 0.

End Sample.

(** ** Further notions used by the properties *)

Section Notions.
Context `{BlobHeader} {storage : Storage}.

(** What the loops of the builder never touch in the base: the mapping,
    the configuration, the descriptors, the size and hash count of the
    Bloom, and the two size counters. *)
Definition base_frame (b b' : eblob_base_ctl) : Prop :=
  bctl_sort b' = bctl_sort b /\
  back_cfg b' = back_cfg b /\
  bctl_index b' = bctl_index b /\
  index_fd b' = index_fd b /\
  bloom_size b' = bloom_size b /\
  bloom_func_num b' = bloom_func_num b /\
  LST_BLOOM_SIZE (bctl_stat b') = LST_BLOOM_SIZE (bctl_stat b) /\
  LST_INDEX_BLOCKS_SIZE (bctl_stat b') = LST_INDEX_BLOCKS_SIZE (bctl_stat b).

(** Block number [k] of a table over [data] with [per] records a block:
    it spans the records from [k * per] up to [(k + 1) * per], or up to the
    end of [data] if that comes first, and carries the keys of the first
    and of the last of them. *)
Definition block_tiles (data : list eblob_disk_control) (per k : nat)
    (b : eblob_index_block) : Prop :=
  (k * per < length data)%nat /\
  start_offset b = sizeof_disk_control * Z.of_nat (k * per) /\
  end_offset b =
    sizeof_disk_control * Z.of_nat (Nat.min ((k + 1) * per) (length data)) /\
  (exists ds, data !! (k * per)%nat = Some ds /\ start_key b = dc_key ds) /\
  (exists de,
      data !! (Nat.min ((k + 1) * per) (length data) - 1)%nat = Some de /\
      end_key b = dc_key de).

(** The key lies in the range of a block. *)
Definition key_in_block (key : eblob_key) (b : eblob_index_block) : Prop :=
  eblob_id_cmp (start_key b) key <= 0 /\ eblob_id_cmp key (end_key b) <= 0.

(** A record the callback of the lookup accepts. *)
Definition live_record (d : eblob_disk_control) : Prop :=
  flag_set (dc_flags d) (eblob_bswap64 BLOB_DISK_CTL_REMOVE) = false.

(** Why the builder left through [err_out_drop_tree] with [err]: a record
    of the mapping that [eblob_check_record] rejected with that verdict, on
    a base with the same mapping and configuration; a [pread] that failed
    with [errno = -err]; or a [pread] that returned [err] bytes, the bytes
    the sorted file has after its last whole record. *)
Definition drop_reason (bctl : eblob_base_ctl) (err : Z) : Prop :=
  (exists p d b, dc_at (bctl_sort bctl) p = Some d /\
                 bctl_sort b = bctl_sort bctl /\
                 back_cfg b = back_cfg bctl /\
                 err = eblob_check_record b d /\ err <> 0) \/
  (exists p e, pread_errno (map_fd (bctl_sort bctl)) p = Some e /\
               err = - Z.pos e) \/
  (err = map_size (bctl_sort bctl) mod sizeof_disk_control /\ 0 < err).

(** The records [eblob_check_record] rejects, on the base [b]. *)
Definition unsound_records (b : eblob_base_ctl)
    (data : list eblob_disk_control) : list eblob_disk_control :=
  List.filter (fun d => negb (eblob_check_record b d =? 0)) data.

(** The records the builder counts as removed, and the sum of the disk
    sizes it adds up for them. *)
Definition removed_records (data : list eblob_disk_control)
    : list eblob_disk_control :=
  List.filter
    (fun d => flag_set (dc_flags d) (eblob_bswap64 BLOB_DISK_CTL_REMOVE)) data.

Definition disk_size_sum (data : list eblob_disk_control) : Z :=
  fold_right (fun d acc => dc_disk_size d + acc) 0 data.

End Notions.

(** The base of [Sample.index_a] between the two steps of its build: the
    sorted index generated, the block table still to be filled; and the
    block table the builder then leaves. *)
Module Built.
Import Sample.

Definition sorted_a : eblob_base_ctl :=
  (@eblob_generate_sorted_index header (io_ok index_a) (closed_base 1)).2.

Definition blocks_a : list eblob_index_block :=
  [mk_block (key 1) (key 7) 0 384; mk_block (key 7) (key 9) 384 576].

(** What the builder makes of a base, and the block table it leaves. *)
Definition built (bctl : eblob_base_ctl) : eblob_base_ctl :=
  base_of (@eblob_index_blocks_fill header disk calloc_always bctl).
Definition blocks_of (bctl : eblob_base_ctl) : list eblob_index_block :=
  match index_blocks bctl with
  | Some arr => arr
  | None => []
  end.

(** The index file of 146 bytes, sorted. *)
Definition sorted_146 : eblob_base_ctl :=
  (@eblob_generate_sorted_index header (io_tailed [live 1 1] 50)
     (closed_base 1)).2.

End Built.

(** * Properties *)

(** ** The order on ids *)

Lemma eblob_id_cmp_refl (a : eblob_key) : eblob_id_cmp a a = 0.
Proof.
  induction a as [|x a IH]; cbn; [reflexivity|].
  rewrite Z.ltb_irrefl. exact IH.
Qed.

Lemma eblob_id_cmp_sign (a b : eblob_key) :
  eblob_id_cmp a b = -1 \/ eblob_id_cmp a b = 0 \/ eblob_id_cmp a b = 1.
Proof.
  revert b. induction a as [|x a IH]; intros [|y b]; cbn; auto.
  destruct (x <? y); auto. destruct (y <? x); auto.
Qed.

Lemma eblob_id_cmp_eq (a b : eblob_key) : eblob_id_cmp a b = 0 -> a = b.
Proof.
  revert b. induction a as [|x a IH]; intros [|y b]; cbn; try discriminate; auto.
  destruct (Z.ltb_spec x y); [discriminate|].
  destruct (Z.ltb_spec y x); [discriminate|].
  intros E. f_equal; [lia|auto].
Qed.

Lemma eblob_id_cmp_antisym (a b : eblob_key) :
  eblob_id_cmp b a = - eblob_id_cmp a b.
Proof.
  revert b. induction a as [|x a IH]; intros [|y b]; cbn; auto.
  destruct (Z.ltb_spec x y), (Z.ltb_spec y x); auto; lia.
Qed.

Lemma eblob_id_cmp_trans (a b c : eblob_key) :
  eblob_id_cmp a b <= 0 -> eblob_id_cmp b c <= 0 -> eblob_id_cmp a c <= 0.
Proof.
  revert b c. induction a as [|x a IH]; intros [|y b] [|z c]; cbn; try lia.
  destruct (Z.ltb_spec x y), (Z.ltb_spec y x), (Z.ltb_spec y z),
    (Z.ltb_spec z y), (Z.ltb_spec x z), (Z.ltb_spec z x); try lia.
  apply IH.
Qed.

Lemma StronglySorted_lookup {A : Type} (R : relation A) (l : list A)
    (i j : nat) (x y : A) :
  StronglySorted R l -> (i < j)%nat ->
  l !! i = Some x -> l !! j = Some y -> R x y.
Proof.
  intros Hs. revert i j x y.
  induction Hs as [|a l Hs IH Hall]; intros i j x y Hij Hi Hj.
  - discriminate.
  - destruct j as [|j]; [lia|]. cbn in Hj. destruct i as [|i].
    + cbn in Hi. injection Hi as <-.
      rewrite Forall_forall in Hall. apply Hall.
      apply list_elem_of_lookup. eauto.
    + cbn in Hi. apply (IH i j); [lia|assumption..].
Qed.

Section Facts.
Context `{BlobHeader} {storage : Storage}.

(** ** Reading the sorted mapping *)

Lemma dc_at_index (m : eblob_map_fd) (i : nat) :
  dc_at m (sizeof_disk_control * Z.of_nat i) = map_data m !! i.
Proof.
  pose proof sizeof_disk_control_pos as Hsz. unfold dc_at.
  rewrite (Z.mul_comm sizeof_disk_control), Z_mod_mult, Z.div_mul by lia.
  rewrite Nat2Z.id.
  destruct (Z.leb_spec 0 (Z.of_nat i * sizeof_disk_control)); [reflexivity|nia].
Qed.

Lemma dc_at_Some (m : eblob_map_fd) (p : Z) (r : eblob_disk_control) :
  dc_at m p = Some r ->
  p = sizeof_disk_control * Z.of_nat (Z.to_nat (p / sizeof_disk_control)) /\
  map_data m !! Z.to_nat (p / sizeof_disk_control) = Some r.
Proof.
  pose proof sizeof_disk_control_pos as Hsz. unfold dc_at.
  destruct (Z.leb_spec 0 p) as [Hp|]; [|discriminate].
  destruct (Z.eqb_spec (p mod sizeof_disk_control) 0) as [Hm|]; [|discriminate].
  cbn. intros Hr. split; [|exact Hr].
  rewrite Z2Nat.id by (apply Z.div_pos; lia).
  rewrite (Z.div_mod p sizeof_disk_control) at 1 by lia. lia.
Qed.

(** A read of a record the mapping holds gives that record, unless the
    system call fails. *)
Lemma pread_whole (m : eblob_map_fd) (idx : nat) (d : eblob_disk_control) :
  map_size m = sizeof_disk_control * Z.of_nat (length (map_data m)) ->
  map_data m !! idx = Some d ->
  pread m (sizeof_disk_control * Z.of_nat idx) =
    Ok (match pread_errno (map_fd m) (sizeof_disk_control * Z.of_nat idx) with
        | Some _ => (-1, None)
        | None => (sizeof_disk_control, Some d)
        end).
Proof.
  pose proof sizeof_disk_control_pos as Hsz.
  intros Hmap Hd. unfold pread.
  destruct (pread_errno _ _); [reflexivity|]. cbv zeta.
  apply lookup_lt_Some in Hd as Hlt. rewrite dc_at_index, Hd, Hmap.
  destruct (Z.leb_spec sizeof_disk_control
              (sizeof_disk_control * Z.of_nat (length (map_data m)) -
               sizeof_disk_control * Z.of_nat idx)); [reflexivity|nia].
Qed.

(** What [pread] returns when it does not return a record: -1 from a
    failed call, or the number of bytes left before the end of the file,
    fewer than a record has. *)
Lemma pread_no_record (m : eblob_map_fd) (offset err : Z) :
  pread m offset = Ok (err, None) ->
  (exists e, pread_errno (map_fd m) offset = Some e /\ err = -1) \/
  (pread_errno (map_fd m) offset = None /\
   map_size m - offset < sizeof_disk_control /\
   err = Z.max 0 (map_size m - offset)).
Proof.
  unfold pread. destruct (pread_errno _ _) as [e|].
  - intros [= <-]. left. eauto.
  - cbv zeta.
    destruct (Z.leb_spec sizeof_disk_control (map_size m - offset)).
    + destruct (dc_at m offset); discriminate.
    + intros [= <-]. right. auto.
Qed.

Lemma pread_record (m : eblob_map_fd) (offset err : Z)
    (d : eblob_disk_control) :
  pread m offset = Ok (err, Some d) ->
  pread_errno (map_fd m) offset = None /\ dc_at m offset = Some d /\
  err = sizeof_disk_control.
Proof.
  unfold pread. destruct (pread_errno _ _) as [e|]; [discriminate|].
  cbv zeta. destruct (_ <=? _); [|discriminate].
  destruct (dc_at m offset); [|discriminate].
  intros [= <- <-]. auto.
Qed.

Lemma pread_fault (m : eblob_map_fd) (offset : Z) (f : fault) :
  pread m offset = Fault f -> f = OutOfBounds.
Proof.
  unfold pread. destruct (pread_errno _ _); [discriminate|]. cbv zeta.
  destruct (_ <=? _); [|discriminate].
  destruct (dc_at m offset); [discriminate|]. intros [= <-]. reflexivity.
Qed.

(** ** bsearch *)

Lemma bsearch_midpoint (l u : nat) :
  (l < u)%nat -> (l <= (l + u) / 2 < u)%nat.
Proof.
  intros Hlu.
  split; [apply Nat.div_le_lower_bound|apply Nat.Div0.div_lt_upper_bound]; lia.
Qed.

Lemma bsearch_loop_hit {K A : Type} (compar : K -> A -> Z) (key : K)
    (get : nat -> option A) (fuel l u i : nat) :
  bsearch_loop compar key get fuel l u = Ok (Some i) ->
  exists p, get i = Some p /\ compar key p = 0 /\ (l <= i < u)%nat.
Proof.
  revert l u. induction fuel as [|fuel IH]; intros l u;
    cbn [bsearch_loop]; cbv zeta; [discriminate|].
  destruct (Nat.ltb_spec l u) as [Hlu|]; [|discriminate].
  pose proof (bsearch_midpoint l u Hlu) as Hmid.
  destruct (get ((l + u) / 2)%nat) as [p|] eqn:Hget; [|discriminate].
  destruct (Z.ltb_spec (compar key p) 0).
  - intros Hr. apply IH in Hr as (q & ? & ? & ?).
    exists q. repeat split; auto; lia.
  - destruct (Z.ltb_spec 0 (compar key p)).
    + intros Hr. apply IH in Hr as (q & ? & ? & ?).
      exists q. repeat split; auto; lia.
    + intros Hr. assert (Hi : i = ((l + u) / 2)%nat) by congruence.
      exists p. rewrite Hi. repeat split; auto; lia.
Qed.

Lemma bsearch_hit {K A : Type} (compar : K -> A -> Z) (key : K)
    (get : nat -> option A) (nmemb i : nat) :
  bsearch compar key get nmemb = Ok (Some i) ->
  exists p, get i = Some p /\ compar key p = 0 /\ (i < nmemb)%nat.
Proof.
  intros Hb. apply bsearch_loop_hit in Hb as (p & ? & ? & ?).
  exists p. repeat split; auto; lia.
Qed.

Lemma bsearch_loop_fuel {K A : Type} (compar : K -> A -> Z) (key : K)
    (get : nat -> option A) (fuel l u : nat) :
  (u - l < fuel)%nat ->
  bsearch_loop compar key get fuel l u <> Fault OutOfFuel.
Proof.
  revert l u. induction fuel as [|fuel IH]; intros l u Hfuel; [lia|].
  cbn [bsearch_loop]; cbv zeta.
  destruct (Nat.ltb_spec l u) as [Hlu|]; [|discriminate].
  pose proof (bsearch_midpoint l u Hlu) as Hmid.
  destruct (get ((l + u) / 2)%nat) as [p|]; [|discriminate].
  destruct (compar key p <? 0); [apply IH; lia|].
  destruct (0 <? compar key p); [apply IH; lia|discriminate].
Qed.

(** ** Block-table destruction *)

(** On a base whose table was never built the call changes nothing. *)
Lemma eblob_index_blocks_destroy_never_built (bctl : eblob_base_ctl) :
  index_blocks bctl = None -> bloom bctl = None ->
  LST_BLOOM_SIZE (bctl_stat bctl) = 0 ->
  LST_INDEX_BLOCKS_SIZE (bctl_stat bctl) = 0 ->
  eblob_index_blocks_destroy bctl = (0, bctl).
Proof.
  destruct bctl as [? ? ? ? ? ? ? [? ? ? ? ?] ?]. cbn.
  intros -> -> -> ->. reflexivity.
Qed.

(** What the call leaves alone: the descriptors, the sorted mapping, the
    configuration, the size and hash count computed for the Bloom, and the
    three counters it does not set. *)
Lemma eblob_index_blocks_destroy_frame (bctl : eblob_base_ctl) :
  let b := (eblob_index_blocks_destroy bctl).2 in
  bctl_index b = bctl_index bctl /\ index_fd b = index_fd bctl /\
  bctl_sort b = bctl_sort bctl /\ back_cfg b = back_cfg bctl /\
  bloom_size b = bloom_size bctl /\ bloom_func_num b = bloom_func_num bctl /\
  LST_RECORDS_REMOVED (bctl_stat b) = LST_RECORDS_REMOVED (bctl_stat bctl) /\
  LST_REMOVED_SIZE (bctl_stat b) = LST_REMOVED_SIZE (bctl_stat bctl) /\
  LST_INDEX_CORRUPTED_ENTRIES (bctl_stat b) =
    LST_INDEX_CORRUPTED_ENTRIES (bctl_stat bctl).
Proof.
  destruct bctl as [? ? ? ? ? ? ? [? ? ? ? ?] ?]. cbn. tauto.
Qed.

(** Claim C10.  [eblob_index_blocks_destroy] is total and idempotent: it
    returns 0 from every state, leaves [index_blocks] and [bloom] NULL and
    the two size counters 0, and changes nothing else of the base.  Run
    again on what it left it returns 0 and leaves the same state, and so it
    does on a base whose table was never built: both pointers NULL, both
    size counters 0. *)
Theorem eblob_index_blocks_destroy_idempotent (bctl : eblob_base_ctl) :
  (eblob_index_blocks_destroy bctl).1 = 0 /\
  index_blocks (eblob_index_blocks_destroy bctl).2 = None /\
  bloom (eblob_index_blocks_destroy bctl).2 = None /\
  LST_BLOOM_SIZE (bctl_stat (eblob_index_blocks_destroy bctl).2) = 0 /\
  LST_INDEX_BLOCKS_SIZE (bctl_stat (eblob_index_blocks_destroy bctl).2) = 0 /\
  (bctl_index (eblob_index_blocks_destroy bctl).2 = bctl_index bctl /\
   index_fd (eblob_index_blocks_destroy bctl).2 = index_fd bctl /\
   bctl_sort (eblob_index_blocks_destroy bctl).2 = bctl_sort bctl /\
   back_cfg (eblob_index_blocks_destroy bctl).2 = back_cfg bctl /\
   bloom_size (eblob_index_blocks_destroy bctl).2 = bloom_size bctl /\
   bloom_func_num (eblob_index_blocks_destroy bctl).2 = bloom_func_num bctl /\
   LST_RECORDS_REMOVED (bctl_stat (eblob_index_blocks_destroy bctl).2) =
     LST_RECORDS_REMOVED (bctl_stat bctl) /\
   LST_REMOVED_SIZE (bctl_stat (eblob_index_blocks_destroy bctl).2) =
     LST_REMOVED_SIZE (bctl_stat bctl) /\
   LST_INDEX_CORRUPTED_ENTRIES (bctl_stat (eblob_index_blocks_destroy bctl).2) =
     LST_INDEX_CORRUPTED_ENTRIES (bctl_stat bctl)) /\
  eblob_index_blocks_destroy (eblob_index_blocks_destroy bctl).2 =
    (0, (eblob_index_blocks_destroy bctl).2) /\
  (index_blocks bctl = None -> bloom bctl = None ->
   LST_BLOOM_SIZE (bctl_stat bctl) = 0 ->
   LST_INDEX_BLOCKS_SIZE (bctl_stat bctl) = 0 ->
   eblob_index_blocks_destroy bctl = (0, bctl)).
Proof.
  split; [reflexivity|]. split; [reflexivity|]. split; [reflexivity|].
  split; [reflexivity|]. split; [reflexivity|].
  split; [exact (eblob_index_blocks_destroy_frame bctl)|].
  split.
  - apply eblob_index_blocks_destroy_never_built; reflexivity.
  - apply eblob_index_blocks_destroy_never_built.
Qed.

(** ** Allocation failures of the builder *)

(** Claim C2, what the code does when the Bloom allocation fails.  The
    function returns 0, the value [err = -err] has when [err] is still 0:
    the caller is told the block table was built.  The Bloom pointer is
    NULL and nothing was allocated before it. *)
Theorem fill_bloom_allocation_failure_returns_zero
    (calloc_ok : nat -> bool) (bctl : eblob_base_ctl) (bsize fnum : Z) :
  eblob_bloom_size bctl = Ok bsize ->
  eblob_bloom_func_num (set_bloom_size bsize bctl) = Ok fnum ->
  calloc_ok 0%nat = false ->
  eblob_index_blocks_fill calloc_ok bctl =
    Ok (0, set_bloom None (set_bloom_func_num fnum (set_bloom_size bsize bctl))).
Proof.
  intros Hs Hf Hc. unfold eblob_index_blocks_fill.
  rewrite Hs. cbn [mbind outcome_bind]. rewrite Hf. cbn [mbind outcome_bind].
  rewrite Hc. reflexivity.
Qed.

(** When the block array cannot be allocated the function does return
    [-ENOMEM], but through [err_out_exit]: the Bloom array allocated just
    before stays in place, with its size counter. *)
Lemma fill_index_blocks_allocation_failure_keeps_bloom
    (calloc_ok : nat -> bool) (bctl : eblob_base_ctl) (bsize fnum : Z) :
  eblob_bloom_size bctl = Ok bsize ->
  eblob_bloom_func_num (set_bloom_size bsize bctl) = Ok fnum ->
  index_block_size (back_cfg bctl) <> 0 ->
  calloc_ok 0%nat = true ->
  calloc_ok 1%nat = false ->
  exists bctl',
    eblob_index_blocks_fill calloc_ok bctl = Ok (- ENOMEM, bctl') /\
    bloom bctl' = Some 0 /\ index_blocks bctl' = None /\
    LST_BLOOM_SIZE (bctl_stat bctl') = bsize.
Proof.
  intros Hs Hf Hi Hc0 Hc1. unfold eblob_index_blocks_fill.
  rewrite Hs. cbn [mbind outcome_bind]. rewrite Hf. cbn [mbind outcome_bind].
  rewrite Hc0. cbn [bloom set_bloom]. unfold howmany, udiv.
  cbn [back_cfg set_stat set_bloom set_bloom_func_num set_bloom_size].
  destruct (Z.eqb_spec (index_block_size (back_cfg bctl)) 0) as [E|_];
    [contradiction|].
  cbn [mbind outcome_bind]. rewrite Hc1. cbn.
  eexists. repeat split.
Qed.

(** ** The number of hash functions *)

Lemma eblob_bloom_func_num_unfold (bctl : eblob_base_ctl) :
  eblob_bloom_func_num bctl =
    (bits_per_key ← udiv (u64 (8 * bloom_size bctl))
                         (map_size (bctl_sort bctl) / sizeof_disk_control);
     let func_num := uint8_of_double
       (SFmul prec64 emax64 (double_of_uint64 bits_per_key) double_0_69) in
     Ok (if func_num =? 0 then 1 else if 20 <? func_num then 20 else func_num)).
Proof.
  unfold eblob_bloom_func_num. destruct (udiv _ _); cbn; [|reflexivity].
  repeat case_match; reflexivity.
Qed.

Lemma func_num_in_range (f : Z) :
  0 <= f ->
  1 <= (if f =? 0 then 1 else if 20 <? f then 20 else f) <= 20.
Proof.
  intros Hf. destruct (Z.eqb_spec f 0); [lia|].
  destruct (Z.ltb_spec 20 f); lia.
Qed.

(** Up to 371 bits per key the product stays below 256 and the conversion
    to [uint8_t] is defined; each of these values is checked by running the
    binary64 multiplication. *)
Lemma truncated_product_small (n : Z) :
  0 <= n <= 371 ->
  (let f := uint8_of_double
       (SFmul prec64 emax64 (double_of_uint64 n) double_0_69) in
   if f =? 0 then 1 else if 20 <? f then 20 else f)
  = clamp (n * 69 / 100) 1 20.
Proof.
  intros Hn.
  assert (Hall : forallb (fun n =>
      (let f := uint8_of_double
           (SFmul prec64 emax64 (double_of_uint64 n) double_0_69) in
       if f =? 0 then 1 else if 20 <? f then 20 else f)
      =? clamp (n * 69 / 100) 1 20) (seqZ 0 372) = true)
    by (vm_compute; reflexivity).
  rewrite forallb_forall in Hall.
  apply Z.eqb_eq, Hall, list_elem_of_In, elem_of_seqZ. lia.
Qed.

(** Claim C8, as the code has it.  For a base with at least one record
    [eblob_bloom_func_num] returns a count in [1, 20]; the product
    [bits_per_key * 0.69] is truncated toward zero, not rounded: up to 371
    bits per key the count is [clamp(floor(bits_per_key * 69 / 100), 1, 20)],
    with [bits_per_key] the integer quotient of [8 * bloom_size] by the
    number of records. *)
Theorem eblob_bloom_func_num_truncates (bctl : eblob_base_ctl) :
  0 < map_size (bctl_sort bctl) / sizeof_disk_control ->
  exists k,
    eblob_bloom_func_num bctl = Ok k /\
    1 <= k <= 20 /\
    (let bits_per_key :=
       u64 (8 * bloom_size bctl)
       / (map_size (bctl_sort bctl) / sizeof_disk_control) in
     bits_per_key <= 371 -> k = clamp (bits_per_key * 69 / 100) 1 20).
Proof.
  intros Hrec. rewrite eblob_bloom_func_num_unfold. unfold udiv.
  destruct (Z.eqb_spec (map_size (bctl_sort bctl) / sizeof_disk_control) 0)
    as [E|_]; [lia|].
  cbn [mbind outcome_bind]. eexists. split; [reflexivity|]. split.
  - apply func_num_in_range. unfold uint8_of_double. cbv zeta.
    destruct (_ && _); [apply Z.mod_pos_bound; lia|lia].
  - cbv zeta. intros Hsmall. apply truncated_product_small.
    split; [|exact Hsmall].
    apply Z.div_pos; [|lia]. unfold u64. apply Z.mod_pos_bound. lia.
Qed.

(** ** The sorted-index generator *)

Lemma sort_with_flags_le (a b : eblob_disk_control) :
  eblob_disk_control_sort_with_flags a b <= 0 <->
  eblob_id_cmp (dc_key a) (dc_key b) < 0 \/
  (eblob_id_cmp (dc_key a) (dc_key b) = 0 /\
   (flag_set (dc_flags b) BLOB_DISK_CTL_REMOVE = true ->
    flag_set (dc_flags a) BLOB_DISK_CTL_REMOVE = true)).
Proof.
  unfold eblob_disk_control_sort_with_flags.
  destruct (Z.eqb_spec (eblob_id_cmp (dc_key a) (dc_key b)) 0) as [E|E].
  - rewrite E.
    destruct (flag_set (dc_flags a) _), (flag_set (dc_flags b) _); cbn;
      intuition (try lia; try discriminate).
  - intuition lia.
Qed.

#[local] Instance sort_with_flags_total :
  Total (fun a b => eblob_disk_control_sort_with_flags a b <= 0).
Proof.
  intros a b. rewrite !sort_with_flags_le.
  rewrite (eblob_id_cmp_antisym (dc_key a) (dc_key b)).
  destruct (eblob_id_cmp_sign (dc_key a) (dc_key b)) as [E|[E|E]]; rewrite E.
  - left. left. lia.
  - destruct (flag_set (dc_flags a) BLOB_DISK_CTL_REMOVE),
      (flag_set (dc_flags b) BLOB_DISK_CTL_REMOVE);
      [left|left|right|left]; right; split; auto.
  - right. left. lia.
Qed.

#[local] Instance sort_with_flags_trans :
  Transitive (fun a b => eblob_disk_control_sort_with_flags a b <= 0).
Proof.
  intros a b c. rewrite !sort_with_flags_le.
  intros [Hab|[Hab Rab]] [Hbc|[Hbc Rbc]].
  - left. destruct (eblob_id_cmp_sign (dc_key a) (dc_key c)) as [E|[E|E]];
      [lia| |].
    + apply eblob_id_cmp_eq in E. rewrite E in Hab.
      rewrite (eblob_id_cmp_antisym (dc_key b) (dc_key c)) in Hab. lia.
    + pose proof (eblob_id_cmp_trans (dc_key a) (dc_key b) (dc_key c)). lia.
  - left. apply eblob_id_cmp_eq in Hbc. rewrite <- Hbc. exact Hab.
  - left. apply eblob_id_cmp_eq in Hab. rewrite Hab. exact Hbc.
  - right. apply eblob_id_cmp_eq in Hab. rewrite Hab. split; auto.
Qed.

Lemma qsort_whole {A : Type} (compar : A -> A -> Z) (base : list A) :
  qsort compar base (length base) =
  @merge_sort A (fun a b => compar a b <= 0)
     (fun a b => decide (compar a b <= 0)) base.
Proof.
  unfold qsort. rewrite firstn_all, drop_all. apply app_nil_r.
Qed.

Lemma sorted_with_flags_properties (l : list eblob_disk_control) :
  StronglySorted (fun a b => eblob_disk_control_sort_with_flags a b <= 0) l ->
  key_sorted l /\ removed_before_live l.
Proof.
  intros Hs. split.
  - intros i j di dj Hij Hi Hj.
    destruct (decide (i = j)) as [->|Hne].
    + rewrite Hi in Hj. injection Hj as <-. rewrite eblob_id_cmp_refl. lia.
    + pose proof (StronglySorted_lookup _ l i j di dj Hs ltac:(lia) Hi Hj) as HR.
      cbv beta in HR. apply sort_with_flags_le in HR. lia.
  - intros i j di dj Hij Hi Hj Heq Hrem.
    pose proof (StronglySorted_lookup _ l i j di dj Hs Hij Hi Hj) as HR.
    cbv beta in HR. apply sort_with_flags_le in HR.
    destruct HR as [HR|[_ HR]]; [lia|auto].
Qed.

(** The size of a file is not negative, and is that of its whole records
    and of less than one record more. *)
Lemma io_st_size_records (io : sort_io) :
  0 <= io_st_size io /\
  io_st_size io / sizeof_disk_control = Z.of_nat (length (io_index io)) /\
  (io_st_size io = 0 -> io_index io = []).
Proof.
  pose proof sizeof_disk_control_pos as Hsz. unfold io_st_size.
  pose proof (Z.mod_pos_bound (io_tail io) sizeof_disk_control Hsz) as Hm.
  split; [nia|]. split.
  - rewrite (Z.mul_comm sizeof_disk_control), Z.div_add_l by lia.
    rewrite Z.div_small by lia. lia.
  - intros Hz. destruct (io_index io); [reflexivity|]. cbn [length] in Hz. nia.
Qed.

(** The two ways the function returns 0: from the size check, on a file of
    size 0, with nothing published; or at the end, with the sorted copy of
    the file published under the descriptor [open] returned, at the size
    of the file. *)
Lemma eblob_generate_sorted_index_returns
    (io : sort_io) (bctl bctl' : eblob_base_ctl) :
  eblob_generate_sorted_index io bctl = (0, bctl') ->
  (io_st_size io = 0 /\ bctl' = bctl) \/
  (0 < io_st_size io /\ 0 <= io_open io /\
   bctl' =
     set_sort
       (mk_map (io_open io) (io_st_size io)
          (@merge_sort _ (fun a b => eblob_disk_control_sort_with_flags a b <= 0)
             (fun a b => decide (eblob_disk_control_sort_with_flags a b <= 0))
             (io_index io)))
       bctl).
Proof.
  intros Hgen. unfold eblob_generate_sorted_index in Hgen.
  pose proof sizeof_disk_control_pos as Hsz.
  destruct (io_st_size_records io) as (Hpos & Hrecs & _).
  destruct (io_malloc_file io); cbn [negb] in Hgen; [|discriminate].
  destruct (io_malloc_dst_file io); cbn [negb] in Hgen; [|discriminate].
  destruct (Z.ltb_spec (io_open io) 0) as [_|Hfd]; [discriminate|].
  unfold eblob_get_actual_size in Hgen.
  destruct (Z.ltb_spec (io_fstat io) 0) as [Hst|_].
  { destruct (Z.leb_spec (io_fstat io) 0); [|lia].
    injection Hgen as Hz _. lia. }
  destruct (Z.leb_spec (io_st_size io) 0) as [Hle|Hgt].
  { injection Hgen as Hz <-. left. split; [lia|reflexivity]. }
  destruct (Z.eqb_spec (io_map_src io) 0) as [_|Hn]; cbn [negb] in Hgen;
    [|injection Hgen as Hz _; contradiction].
  destruct (Z.eqb_spec (io_preallocate io) 0) as [_|Hn]; cbn [negb] in Hgen;
    [|injection Hgen as Hz _; contradiction].
  destruct (Z.eqb_spec (io_map_dst io) 0) as [_|Hn]; cbn [negb] in Hgen;
    [|injection Hgen as Hz _; contradiction].
  destruct (Z.eqb_spec (io_msync io) (-1)) as [Hm|_];
    [injection Hgen as Hz _; lia|].
  injection Hgen as <-. cbn [map_data]. right.
  rewrite Hrecs, Nat2Z.id, qsort_whole. auto.
Qed.

(** With an index file of size 0 the function returns 0 from the size
    check ([err = src.size]) and publishes nothing. *)
Lemma eblob_generate_sorted_index_empty
    (io : sort_io) (bctl bctl' : eblob_base_ctl) :
  eblob_generate_sorted_index io bctl = (0, bctl') ->
  io_st_size io = 0 ->
  bctl' = bctl.
Proof.
  intros Hgen Hnil.
  apply eblob_generate_sorted_index_returns in Hgen as [[_ ->]|[Hpos _]];
    [reflexivity|lia].
Qed.

(** Claim C6.  When [eblob_generate_sorted_index] returns 0 for a base that
    had no sorted mapping before or whose index file is not empty, the
    sorted mapping of the base is a permutation of the index file, its keys
    never decrease, and among records of one key no live record comes
    before a removed one. *)
Theorem eblob_generate_sorted_index_sorts
    (io : sort_io) (bctl bctl' : eblob_base_ctl) :
  eblob_generate_sorted_index io bctl = (0, bctl') ->
  io_index io <> [] \/ map_data (bctl_sort bctl) = [] ->
  (map_data (bctl_sort bctl') ≡ₚ io_index io) /\
  key_sorted (map_data (bctl_sort bctl')) /\
  removed_before_live (map_data (bctl_sort bctl')).
Proof.
  intros Hgen Hpre.
  pose proof (io_st_size_records io) as (_ & _ & Hempty).
  apply eblob_generate_sorted_index_returns in Hgen
    as [[Hz ->]|(_ & _ & ->)].
  - specialize (Hempty Hz).
    destruct Hpre as [?|Hold]; [contradiction|]. rewrite Hold, Hempty.
    split; [reflexivity|].
    split; intros i j di dj _ Hi; discriminate Hi.
  - cbn [bctl_sort set_sort map_data].
    split; [apply merge_sort_Permutation|].
    apply sorted_with_flags_properties.
    apply (StronglySorted_merge_sort _).
Qed.

(** ** The two scans of the searcher *)

Section Scans.
Variable bctl : eblob_base_ctl.
Variable dc : eblob_disk_control.
Variable callback : eblob_disk_control -> eblob_disk_control -> bool.

Local Abbreviation data := (map_data (bctl_sort bctl)).

Hypothesis mapped_whole :
  map_size (bctl_sort bctl) =
    sizeof_disk_control * Z.of_nat (length data).

Lemma scan_forward_run (fuel idx : nat) (st : eblob_disk_search_stat) :
  (idx <= length data)%nat -> (length data - idx < fuel)%nat ->
  exists st',
    scan_forward bctl dc callback fuel (sizeof_disk_control * Z.of_nat idx) st =
    Ok ((fun k => sizeof_disk_control * Z.of_nat (idx + k))
          <$> find_index (accepted callback dc)
                (take_while (same_key dc) (drop idx data)),
        st').
Proof.
  pose proof sizeof_disk_control_pos as Hsz.
  revert idx st. induction fuel as [|fuel IH]; intros idx st Hidx Hfuel; [lia|].
  cbn [scan_forward]. rewrite mapped_whole.
  destruct (Z.ltb_spec (sizeof_disk_control * Z.of_nat idx)
              (sizeof_disk_control * Z.of_nat (length data))) as [Hlt|Hge].
  - assert (Hin : (idx < length data)%nat) by nia.
    destruct (lookup_lt_is_Some_2 data idx Hin) as [d Hd].
    unfold sorted_at. rewrite dc_at_index, Hd.
    cbn [mbind outcome_bind]. rewrite (drop_S _ _ _ Hd). cbn [take_while].
    unfold same_key at 1. destruct (eblob_disk_control_sort d dc =? 0).
    + cbn [find_index]. unfold accepted at 1. destruct (callback d dc).
      * eexists. cbn. rewrite Nat.add_0_r. reflexivity.
      * destruct (IH (S idx) (inc_additional_reads st)) as [st' Hst'];
          [lia|lia|].
        replace (sizeof_disk_control * Z.of_nat idx + sizeof_disk_control)
          with (sizeof_disk_control * Z.of_nat (S idx)) by lia.
        rewrite Hst'. exists st'. f_equal. f_equal.
        destruct (find_index (accepted callback dc) _); cbn; [|reflexivity].
        do 3 f_equal. lia.
    + eexists. reflexivity.
  - assert (idx = length data) as -> by nia.
    rewrite drop_all. eexists. reflexivity.
Qed.

Lemma scan_backward_run (fuel idx : nat) (st : eblob_disk_search_stat) :
  (idx <= length data)%nat -> (idx < fuel)%nat ->
  exists st',
    scan_backward bctl dc callback fuel
      (sizeof_disk_control * Z.of_nat idx - sizeof_disk_control) st =
    Ok ((fun k => sizeof_disk_control * Z.of_nat (idx - 1 - k))
          <$> find_index (accepted callback dc)
                (take_while (same_key dc) (rev (take idx data))),
        st').
Proof.
  pose proof sizeof_disk_control_pos as Hsz.
  revert fuel st. induction idx as [|idx IH]; intros fuel st Hidx Hfuel;
    (destruct fuel as [|fuel]; [lia|]); cbn [scan_backward].
  - destruct (Z.leb_spec 0 (sizeof_disk_control * Z.of_nat 0 - sizeof_disk_control));
      [lia|]. eexists. reflexivity.
  - replace (sizeof_disk_control * Z.of_nat (S idx) - sizeof_disk_control)
      with (sizeof_disk_control * Z.of_nat idx) by lia.
    destruct (Z.leb_spec 0 (sizeof_disk_control * Z.of_nat idx)); [|nia].
    destruct (lookup_lt_is_Some_2 data idx ltac:(lia)) as [d Hd].
    unfold sorted_at. rewrite dc_at_index, Hd.
    cbn [mbind outcome_bind].
    rewrite (take_S_r _ _ _ Hd), rev_app_distr. cbn [rev app take_while].
    unfold same_key at 1. destruct (eblob_disk_control_sort d dc =? 0); cbn [negb].
    + cbn [find_index]. unfold accepted at 1. destruct (callback d dc).
      * eexists. cbn. do 4 f_equal. lia.
      * destruct (IH fuel (inc_additional_reads st)) as [st' Hst']; [lia|lia|].
        rewrite Hst'. exists st'. f_equal. f_equal.
        destruct (find_index (accepted callback dc) _); cbn; [|reflexivity].
        do 3 f_equal. lia.
    + eexists. reflexivity.
Qed.

Lemma linear_expansion_run (hit : nat) (st : eblob_disk_search_stat) :
  (hit < length data)%nat ->
  exists st',
    linear_expansion bctl dc callback (sizeof_disk_control * Z.of_nat hit) st =
    Ok ((fun n => sizeof_disk_control * Z.of_nat n)
          <$> spec_linear_expansion data dc callback hit, st').
Proof.
  intros Hhit. unfold linear_expansion, spec_linear_expansion.
  destruct (scan_forward_run (S (length data)) hit st) as [st1 H1]; [lia|lia|].
  rewrite H1. cbn [mbind outcome_bind].
  destruct (find_index (accepted callback dc)
              (take_while (same_key dc) (drop hit data))) as [k|].
  - exists st1. reflexivity.
  - cbn [fmap option_fmap option_map].
    destruct (scan_backward_run (S (length data)) hit st1) as [st2 H2];
      [lia|lia|].
    rewrite H2. exists st2. f_equal. f_equal.
    destruct (find_index (accepted callback dc) _); reflexivity.
Qed.

End Scans.


(** ** What the searcher returns *)

Lemma scan_forward_sound (bctl : eblob_base_ctl) (dc : eblob_disk_control)
    (callback : eblob_disk_control -> eblob_disk_control -> bool)
    (fuel : nat) (sorted p : Z) (st st' : eblob_disk_search_stat) :
  scan_forward bctl dc callback fuel sorted st = Ok (Some p, st') ->
  exists r, dc_at (bctl_sort bctl) p = Some r /\
            eblob_disk_control_sort r dc = 0 /\ callback r dc = true.
Proof.
  revert sorted st. induction fuel as [|fuel IH]; intros sorted st;
    cbn [scan_forward]; [discriminate|].
  destruct (sorted <? map_size (bctl_sort bctl)); [|discriminate].
  unfold sorted_at. destruct (dc_at (bctl_sort bctl) sorted) as [r|] eqn:Hr;
    [|discriminate].
  cbn [mbind outcome_bind].
  destruct (Z.eqb_spec (eblob_disk_control_sort r dc) 0) as [Heq|];
    [|discriminate].
  destruct (callback r dc) eqn:Hcb.
  - intros [= <- <-]. eauto.
  - apply IH.
Qed.

Lemma scan_backward_sound (bctl : eblob_base_ctl) (dc : eblob_disk_control)
    (callback : eblob_disk_control -> eblob_disk_control -> bool)
    (fuel : nat) (sorted p : Z) (st st' : eblob_disk_search_stat) :
  scan_backward bctl dc callback fuel sorted st = Ok (Some p, st') ->
  exists r, dc_at (bctl_sort bctl) p = Some r /\
            eblob_disk_control_sort r dc = 0 /\ callback r dc = true.
Proof.
  revert sorted st. induction fuel as [|fuel IH]; intros sorted st;
    cbn [scan_backward]; [discriminate|].
  destruct (0 <=? sorted); [|discriminate].
  unfold sorted_at. destruct (dc_at (bctl_sort bctl) sorted) as [r|] eqn:Hr;
    [|discriminate].
  cbn [mbind outcome_bind].
  destruct (Z.eqb_spec (eblob_disk_control_sort r dc) 0) as [Heq|];
    cbn [negb]; [|discriminate].
  destruct (callback r dc) eqn:Hcb.
  - intros [= <- <-]. eauto.
  - apply IH.
Qed.

Lemma eblob_find_on_disk_sound (cfg : eblob_config) (bctl : eblob_base_ctl)
    (dc : eblob_disk_control)
    (callback : eblob_disk_control -> eblob_disk_control -> bool)
    (p : Z) (st st' : eblob_disk_search_stat) :
  eblob_find_on_disk cfg bctl dc callback st = Ok (Some p, st') ->
  exists r, dc_at (bctl_sort bctl) p = Some r /\
            eblob_disk_control_sort r dc = 0 /\ callback r dc = true.
Proof.
  unfold eblob_find_on_disk.
  destruct (eblob_index_blocks_search_nolock _ _ _) as [[[t|] st1]|];
    cbn [mbind outcome_bind]; try discriminate.
  destruct (block_slice cfg bctl t) as [[search_start num]|];
    cbn [mbind outcome_bind]; try discriminate.
  destruct (bsearch _ _ _ _) as [[i|]|]; cbn [mbind outcome_bind];
    try discriminate.
  unfold linear_expansion.
  destruct (scan_forward _ _ _ _ _ _) as [[[q|] st2]|] eqn:Hfwd;
    cbn [mbind outcome_bind]; try discriminate.
  - intros [= <- <-]. eapply scan_forward_sound, Hfwd.
  - apply scan_backward_sound.
Qed.


(** The counters of a search do not bear on what it finds. *)

Lemma scan_forward_stat (bctl : eblob_base_ctl) (dc : eblob_disk_control)
    (callback : eblob_disk_control -> eblob_disk_control -> bool)
    (fuel : nat) (sorted : Z) (st1 st2 : eblob_disk_search_stat) :
  found_of (scan_forward bctl dc callback fuel sorted st1) =
  found_of (scan_forward bctl dc callback fuel sorted st2).
Proof.
  revert sorted st1 st2. induction fuel as [|fuel IH]; intros sorted st1 st2;
    cbn [scan_forward]; [reflexivity|].
  destruct (sorted <? _); [|reflexivity].
  destruct (sorted_at bctl sorted) as [r|]; cbn [mbind outcome_bind];
    [|reflexivity].
  destruct (_ =? 0); [|reflexivity].
  destruct (callback r dc); [reflexivity|apply IH].
Qed.

Lemma scan_backward_stat (bctl : eblob_base_ctl) (dc : eblob_disk_control)
    (callback : eblob_disk_control -> eblob_disk_control -> bool)
    (fuel : nat) (sorted : Z) (st1 st2 : eblob_disk_search_stat) :
  found_of (scan_backward bctl dc callback fuel sorted st1) =
  found_of (scan_backward bctl dc callback fuel sorted st2).
Proof.
  revert sorted st1 st2. induction fuel as [|fuel IH]; intros sorted st1 st2;
    cbn [scan_backward]; [reflexivity|].
  destruct (0 <=? sorted); [|reflexivity].
  destruct (sorted_at bctl sorted) as [r|]; cbn [mbind outcome_bind];
    [|reflexivity].
  destruct (negb _); [reflexivity|].
  destruct (callback r dc); [reflexivity|apply IH].
Qed.

Lemma linear_expansion_stat (bctl : eblob_base_ctl) (dc : eblob_disk_control)
    (callback : eblob_disk_control -> eblob_disk_control -> bool)
    (sorted_orig : Z) (st1 st2 : eblob_disk_search_stat) :
  found_of (linear_expansion bctl dc callback sorted_orig st1) =
  found_of (linear_expansion bctl dc callback sorted_orig st2).
Proof.
  unfold linear_expansion.
  pose proof (scan_forward_stat bctl dc callback
                (S (length (map_data (bctl_sort bctl)))) sorted_orig st1 st2)
    as Hfwd.
  destruct (scan_forward _ _ _ _ _ st1) as [[f1 s1]|e1],
    (scan_forward _ _ _ _ _ st2) as [[f2 s2]|e2];
    cbn [found_of] in Hfwd; try discriminate; cbn [mbind outcome_bind];
    [|injection Hfwd as ->; reflexivity].
  injection Hfwd as <-. destruct f1; [reflexivity|].
  apply scan_backward_stat.
Qed.

Lemma eblob_index_blocks_search_nolock_stat (bctl : eblob_base_ctl)
    (dc : eblob_disk_control) (st1 st2 : eblob_disk_search_stat) :
  found_of (eblob_index_blocks_search_nolock bctl dc st1) =
  found_of (eblob_index_blocks_search_nolock bctl dc st2).
Proof.
  unfold eblob_index_blocks_search_nolock,
    eblob_index_blocks_search_nolock_bsearch_nobloom.
  destruct (eblob_bloom_get _ _) as [[|]|];
    cbn [mbind outcome_bind negb]; [|reflexivity..].
  destruct (bsearch eblob_key_range_cmp _ _ _) as [[t|]|]; reflexivity.
Qed.

Lemma eblob_find_on_disk_stat (cfg : eblob_config) (bctl : eblob_base_ctl)
    (dc : eblob_disk_control)
    (callback : eblob_disk_control -> eblob_disk_control -> bool)
    (st1 st2 : eblob_disk_search_stat) :
  found_of (eblob_find_on_disk cfg bctl dc callback st1) =
  found_of (eblob_find_on_disk cfg bctl dc callback st2).
Proof.
  unfold eblob_find_on_disk.
  pose proof (eblob_index_blocks_search_nolock_stat bctl dc
                (inc_search_on_disk st1) (inc_search_on_disk st2)) as Hblk.
  destruct (eblob_index_blocks_search_nolock _ _ (inc_search_on_disk st1))
    as [[t1 s1]|e1],
    (eblob_index_blocks_search_nolock _ _ (inc_search_on_disk st2))
    as [[t2 s2]|e2];
    cbn [found_of] in Hblk; try discriminate; cbn [mbind outcome_bind];
    [|injection Hblk as ->; reflexivity].
  injection Hblk as <-. destruct t1 as [t|]; [|reflexivity].
  destruct (block_slice cfg bctl t) as [[search_start num]|];
    cbn [mbind outcome_bind]; [|reflexivity].
  destruct (bsearch eblob_disk_control_sort _ _ _) as [[i|]|];
    cbn [mbind outcome_bind]; [|reflexivity..].
  apply linear_expansion_stat.
Qed.

Lemma lookup_bases_stat (cfg : eblob_config) (key : eblob_key)
    (l : list eblob_base_ctl) (st1 st2 : eblob_disk_search_stat) :
  pass_verdict (lookup_bases cfg key l st1) =
  pass_verdict (lookup_bases cfg key l st2).
Proof.
  revert st1 st2. induction l as [|bctl rest IH]; intros st1 st2;
    cbn [lookup_bases]; [reflexivity|].
  destruct (index_fd bctl <? 0); [reflexivity|].
  destruct (map_fd (bctl_sort bctl) <? 0); [apply IH|].
  pose proof (eblob_find_on_disk_stat cfg bctl (mk_dc key 0 0 0 0)
                eblob_find_non_removed_callback
                (inc_loops st1) (inc_loops st2)) as Hfind.
  destruct (eblob_find_on_disk _ _ _ _ (inc_loops st1)) as [[f1 s1]|e1],
    (eblob_find_on_disk _ _ _ _ (inc_loops st2)) as [[f2 s2]|e2];
    cbn [found_of] in Hfind; try discriminate; cbn [mbind outcome_bind];
    [|injection Hfind as ->; reflexivity].
  injection Hfind as <-. destruct f1 as [p|]; [|apply IH].
  destruct (sorted_at bctl p); reflexivity.
Qed.

Lemma lookup_again_stat (bl br : nat -> eblob_backend) (key : eblob_key) :
  (forall n st1 st2,
     pass_verdict (lookup_bases (b_cfg (bl n)) key (rev (bases (bl n))) st1) =
     pass_verdict (lookup_bases (b_cfg (br n)) key (rev (bases (br n))) st2)) ->
  forall fuel tries st1 st2,
    found_of (lookup_again fuel bl key tries st1) =
    found_of (lookup_again fuel br key tries st2).
Proof.
  intros Hpass. induction fuel as [|fuel IH]; intros tries st1 st2;
    cbn [lookup_again]; [reflexivity|].
  specialize (Hpass (Z.to_nat tries) st1 st2).
  destruct (lookup_bases (b_cfg (bl _)) _ _ _) as [[s1|e1 r1 s1]|f1],
    (lookup_bases (b_cfg (br _)) _ _ _) as [[s2|e2 r2 s2]|f2];
    cbn [pass_verdict verdict] in Hpass; try discriminate;
    cbn [mbind outcome_bind mret outcome_ret].
  - destruct (max_tries <? tries); [reflexivity|apply IH].
  - injection Hpass as <- <-. reflexivity.
  - injection Hpass as ->. reflexivity.
Qed.


(** Claim C4, as the code has it.  [eblob_index_blocks_search_nolock]
    asks the Bloom filter first, for the key alone.  When the filter
    answers no, the result is NULL with only [bloom_null] counted: neither
    the block-range search nor, in [eblob_find_on_disk], the intra-block
    search is made.  When it answers yes, the result is that of the
    block-range search, a miss counted in [no_block]. *)
Theorem bloom_probe_precedes_block_search
    (cfg : eblob_config) (bctl : eblob_base_ctl) (dc : eblob_disk_control)
    (callback : eblob_disk_control -> eblob_disk_control -> bool)
    (st : eblob_disk_search_stat) (present : bool) :
  eblob_bloom_get bctl (dc_key dc) = Ok present ->
  eblob_index_blocks_search_nolock bctl dc st =
    (if present
     then '(t, st1) ← eblob_index_blocks_search_nolock_bsearch_nobloom bctl dc st;
          Ok (t, if t is Some _ then st1 else inc_no_block st1)
     else Ok (None, inc_bloom_null st)) /\
  (present = false ->
   eblob_find_on_disk cfg bctl dc callback st =
     Ok (None, inc_bloom_null (inc_search_on_disk st))).
Proof.
  intros Hget. split.
  - unfold eblob_index_blocks_search_nolock. rewrite Hget.
    cbn [mbind outcome_bind]. destruct present; cbn [negb]; [|reflexivity].
    destruct (eblob_index_blocks_search_nolock_bsearch_nobloom bctl dc st)
      as [[[t|] st1]|]; reflexivity.
  - intros ->. unfold eblob_find_on_disk, eblob_index_blocks_search_nolock.
    rewrite Hget. reflexivity.
Qed.

(** ** The block-table builder *)

Lemma eblob_bloom_set_frame (bctl bctl' : eblob_base_ctl) (key : eblob_key) :
  eblob_bloom_set bctl key = Ok bctl' ->
  exists bits, bctl' = set_bloom (Some bits) bctl.
Proof.
  unfold eblob_bloom_set. destruct (bloom bctl); [|discriminate].
  destruct (bloom_size bctl =? 0); [discriminate|].
  intros [= <-]. eauto.
Qed.

Lemma fill_block_records_next (n : nat) :
  forall (i : Z) (l l' : fill_locals) (idx : nat),
  fill_block_records n i l = Ok (FillNext l') ->
  map_size (bctl_sort (fl_bctl l)) =
    sizeof_disk_control * Z.of_nat (length (map_data (bctl_sort (fl_bctl l)))) ->
  fl_offset l = sizeof_disk_control * Z.of_nat idx ->
  (idx <= length (map_data (bctl_sort (fl_bctl l))))%nat ->
  0 <= i ->
  bctl_sort (fl_bctl l') = bctl_sort (fl_bctl l) /\
  back_cfg (fl_bctl l') = back_cfg (fl_bctl l) /\
  fl_block l' = fl_block l /\
  exists m : nat,
    (idx <= m <= length (map_data (bctl_sort (fl_bctl l))))%nat /\
    fl_offset l' = sizeof_disk_control * Z.of_nat m /\
    ((0 < n)%nat -> (idx < length (map_data (bctl_sort (fl_bctl l))))%nat ->
     (idx < m)%nat) /\
    ((m = idx /\ fl_dc l' = fl_dc l /\
      index_blocks (fl_bctl l') = index_blocks (fl_bctl l)) \/
     ((idx < m)%nat /\
      map_data (bctl_sort (fl_bctl l)) !! (m - 1)%nat = Some (fl_dc l') /\
      exists d0,
        map_data (bctl_sort (fl_bctl l)) !! idx = Some d0 /\
        index_blocks (fl_bctl l') =
          if i =? 0
          then alter (block_set_start_key (dc_key d0)) (fl_block l)
                 <$> index_blocks (fl_bctl l)
          else index_blocks (fl_bctl l))).
Proof.
  pose proof sizeof_disk_control_pos as Hsz.
  induction n as [|n IH]; intros i l l' idx Hrun Hmap Hoff Hidx Hi.
  - cbn in Hrun. injection Hrun as <-. repeat split.
    exists idx. repeat split; try lia; auto.
  - cbn [fill_block_records] in Hrun. rewrite Hmap, Hoff in Hrun.
    destruct (Z.ltb_spec (sizeof_disk_control * Z.of_nat idx)
                (sizeof_disk_control *
                 Z.of_nat (length (map_data (bctl_sort (fl_bctl l))))))
      as [Hlt|Hge].
    + assert (Hin : (idx < length (map_data (bctl_sort (fl_bctl l))))%nat) by nia.
      destruct (lookup_lt_is_Some_2 _ idx Hin) as [d Hd].
      rewrite (pread_whole _ _ _ Hmap Hd) in Hrun.
      destruct (pread_errno _ _); cbn [mbind outcome_bind] in Hrun;
        [discriminate|].
      (* what one more pass over a record that was not fatal leads to *)
      assert (Hstep : forall l2,
        bctl_sort (fl_bctl l2) = bctl_sort (fl_bctl l) ->
        back_cfg (fl_bctl l2) = back_cfg (fl_bctl l) ->
        fl_block l2 = fl_block l ->
        fl_offset l2 = fl_offset l ->
        fl_dc l2 = d ->
        index_blocks (fl_bctl l2) =
          (if i =? 0
           then alter (block_set_start_key (dc_key d)) (fl_block l)
                  <$> index_blocks (fl_bctl l)
           else index_blocks (fl_bctl l)) ->
        fill_block_records n (i + 1) (fl_advance l2) = Ok (FillNext l') ->
        bctl_sort (fl_bctl l') = bctl_sort (fl_bctl l) /\
        back_cfg (fl_bctl l') = back_cfg (fl_bctl l) /\
        fl_block l' = fl_block l /\
        exists m : nat,
          (idx <= m <= length (map_data (bctl_sort (fl_bctl l))))%nat /\
          fl_offset l' = sizeof_disk_control * Z.of_nat m /\
          ((0 < S n)%nat ->
           (idx < length (map_data (bctl_sort (fl_bctl l))))%nat ->
           (idx < m)%nat) /\
          ((m = idx /\ fl_dc l' = fl_dc l /\
            index_blocks (fl_bctl l') = index_blocks (fl_bctl l)) \/
           ((idx < m)%nat /\
            map_data (bctl_sort (fl_bctl l)) !! (m - 1)%nat = Some (fl_dc l') /\
            exists d0,
              map_data (bctl_sort (fl_bctl l)) !! idx = Some d0 /\
              index_blocks (fl_bctl l') =
                if i =? 0
                then alter (block_set_start_key (dc_key d0)) (fl_block l)
                       <$> index_blocks (fl_bctl l)
                else index_blocks (fl_bctl l)))).
      { intros l2 Hs2 Hc2 Hb2 Ho2 Hd2 Hblk2 Hrec.
        apply (IH _ _ _ (S idx)) in Hrec; cbn [fl_advance fl_bctl fl_offset];
          [|rewrite Hs2; exact Hmap|rewrite Ho2, Hoff; lia|rewrite Hs2; lia|lia].
        cbn [fl_advance fl_bctl fl_block fl_dc] in Hrec.
        destruct Hrec as (Hs & Hc & Hb & m & Hm & Hom & _ & Hcases).
        rewrite Hs2 in Hs, Hm, Hcases. rewrite Hc2 in Hc. rewrite Hb2 in Hb.
        repeat split; auto.
        exists m. repeat split; try lia; auto.
        right. split; [lia|].
        destruct (Z.eqb_spec (i + 1) 0) as [?|_]; [lia|].
        destruct Hcases as [(-> & Hdc & Hblk)|(Hlt' & Hdc & d0 & _ & Hblk)].
        - split.
          + replace (S idx - 1)%nat with idx by lia. rewrite Hdc, Hd2. exact Hd.
          + exists d. split; [exact Hd|]. rewrite Hblk. exact Hblk2.
        - split; [exact Hdc|].
          exists d. split; [exact Hd|]. rewrite Hblk. exact Hblk2. }
      destruct (eblob_check_record (fl_bctl (fl_set_dc d l)) d =? 0) eqn:Hchk;
        cbn [negb] in Hrun.
      * (* a sound record *)
        match type of Hrun with
        | context [mbind _ ?c] => destruct c as [l2|] eqn:Hl2
        end; [|discriminate].
        cbn [mbind outcome_bind] in Hrun.
        destruct (flag_set (dc_flags d) (eblob_bswap64 BLOB_DISK_CTL_REMOVE)).
        -- cbn [mret outcome_ret] in Hl2. injection Hl2 as <-.
           refine (Hstep _ _ _ _ _ _ _ Hrun); destruct (i =? 0); reflexivity.
        -- destruct (eblob_bloom_set _ (dc_key d)) as [b2|] eqn:Hset;
             [|discriminate].
           cbn [mret outcome_ret mbind outcome_bind] in Hl2.
           injection Hl2 as <-.
           apply eblob_bloom_set_frame in Hset as [bits ->].
           refine (Hstep _ _ _ _ _ _ _ Hrun); destruct (i =? 0); reflexivity.
      * (* a record the check rejects *)
        match type of Hrun with
        | (if ?c then _ else _) = _ => destruct c eqn:Hfatal
        end; [discriminate|].
        apply orb_false_elim in Hfatal as [Hfatal _].
        apply orb_false_elim in Hfatal as [_ Hi0].
        refine (Hstep _ _ _ _ _ _ _ Hrun); try reflexivity.
        cbn [fl_bctl fl_inc_err_count fl_set_bctl index_blocks set_stat fl_set_dc].
        rewrite Hi0. reflexivity.
    + injection Hrun as <-. repeat split.
      exists idx. repeat split; try lia; auto. intros; nia.
Qed.

Lemma fill_blocks_next (fuel : nat) :
  forall (l l' : fill_locals) (idx : nat) (arr : list eblob_index_block),
  fill_blocks fuel l = Ok (FillNext l') ->
  map_size (bctl_sort (fl_bctl l)) =
    sizeof_disk_control * Z.of_nat (length (map_data (bctl_sort (fl_bctl l)))) ->
  0 < index_block_size (back_cfg (fl_bctl l)) ->
  fl_offset l = sizeof_disk_control * Z.of_nat idx ->
  (idx <= length (map_data (bctl_sort (fl_bctl l))))%nat ->
  index_blocks (fl_bctl l) = Some arr ->
  Forall (block_covers (map_data (bctl_sort (fl_bctl l)))) arr ->
  bctl_sort (fl_bctl l') = bctl_sort (fl_bctl l) /\
  exists arr',
    index_blocks (fl_bctl l') = Some arr' /\
    Forall (block_covers (map_data (bctl_sort (fl_bctl l)))) arr'.
Proof.
  pose proof sizeof_disk_control_pos as Hsz.
  induction fuel as [|fuel IH]; intros l l' idx arr Hrun Hmap Hibs Hoff Hidx Harr Hall.
  - cbn in Hrun. destruct (fl_offset l <? _); [discriminate|].
    injection Hrun as <-. eauto.
  - cbn [fill_blocks] in Hrun.
    destruct (fl_offset l <? map_size (bctl_sort (fl_bctl l))) eqn:Hlt;
      [|injection Hrun as <-; eauto].
    unfold index_blocks_get in Hrun.
    cbn [fl_next_block fl_bctl fl_block fl_offset] in Hrun. rewrite Harr in Hrun.
    destruct (arr !! Z.to_nat (fl_block_id l)) as [b0|] eqn:Hb0; [|discriminate].
    match type of Hrun with
    | context [mbind _ ?c] => destruct c as [[l2|err l2]|] eqn:Hrec
    end; cbn [mbind outcome_bind] in Hrun; try discriminate.
    apply (fill_block_records_next _ _ _ _ idx) in Hrec;
      cbn [fl_set_bctl fl_bctl fl_block fl_offset fl_dc store_block
           set_index_blocks bctl_sort back_cfg index_blocks] in Hrec |- *;
      [|exact Hmap|exact Hoff|exact Hidx|lia].
    destruct Hrec as (Hs & Hc & Hb & m & Hm & Hom & Hprog & Hcases).
    assert (Hin : (idx < length (map_data (bctl_sort (fl_bctl l))))%nat).
    { apply Z.ltb_lt in Hlt. rewrite Hmap, Hoff in Hlt. nia. }
    destruct Hcases as [(-> & _)|(Hlt' & Hde & d0 & Hd0 & Hblk)];
      [specialize (Hprog ltac:(lia) Hin); lia|].
    rewrite Z.eqb_refl, Harr in Hblk. cbn [fmap option_fmap option_map] in Hblk.
    apply (IH _ _ m
             (alter (block_set_end (dc_key (fl_dc l2)) (fl_offset l2))
                (fl_block l2)
                (alter (block_set_start_key (dc_key d0))
                   (Z.to_nat (fl_block_id l))
                   (alter (block_set_start_offset (fl_offset l))
                      (Z.to_nat (fl_block_id l)) arr)))) in Hrun;
      cbn [fl_set_bctl fl_bctl fl_block fl_offset fl_dc store_block
           set_index_blocks bctl_sort back_cfg index_blocks] in Hrun |- *.
    + rewrite Hs in Hrun. exact Hrun.
    + rewrite Hs. exact Hmap.
    + rewrite Hc. exact Hibs.
    + exact Hom.
    + rewrite Hs. lia.
    + rewrite Hblk, Hb. reflexivity.
    + rewrite Hs, Hb. rewrite !Forall_lookup in *. intros k b Hk.
      destruct (decide (k = Z.to_nat (fl_block_id l))) as [->|Hne].
      * rewrite !list_lookup_alter_eq, Hb0 in Hk. cbn in Hk.
        injection Hk as <-. right.
        exists idx, m, d0, (fl_dc l2). cbn.
        rewrite Hom, Hoff. repeat split; auto.
      * rewrite !list_lookup_alter_ne in Hk by auto. eapply Hall, Hk.
Qed.

Lemma fill_block_records_fuel (n : nat) (i : Z) (l : fill_locals) :
  fill_block_records n i l <> Fault OutOfFuel.
Proof.
  revert i l. induction n as [|n IH]; intros i l; cbn [fill_block_records];
    [discriminate|].
  destruct (fl_offset l <? _); [|discriminate].
  destruct (pread _ _) as [[err [d|]]|f] eqn:Hp; cbn [mbind outcome_bind];
    [|discriminate|apply pread_fault in Hp; subst f; discriminate].
  destruct (negb _).
  - destruct (_ || _); [discriminate|apply IH].
  - destruct (flag_set _ _); cbn [mbind outcome_bind mret outcome_ret];
      [apply IH|].
    unfold eblob_bloom_set. destruct (bloom _); [|discriminate].
    destruct (bloom_size _ =? 0); [discriminate|].
    cbn [mbind outcome_bind]. apply IH.
Qed.

Lemma fill_blocks_fuel (fuel : nat) :
  forall (l : fill_locals) (idx : nat),
  map_size (bctl_sort (fl_bctl l)) =
    sizeof_disk_control * Z.of_nat (length (map_data (bctl_sort (fl_bctl l)))) ->
  0 < index_block_size (back_cfg (fl_bctl l)) ->
  fl_offset l = sizeof_disk_control * Z.of_nat idx ->
  (idx <= length (map_data (bctl_sort (fl_bctl l))))%nat ->
  (length (map_data (bctl_sort (fl_bctl l))) - idx < fuel)%nat ->
  fill_blocks fuel l <> Fault OutOfFuel.
Proof.
  pose proof sizeof_disk_control_pos as Hsz.
  induction fuel as [|fuel IH]; intros l idx Hmap Hibs Hoff Hidx Hfuel; [lia|].
  cbn [fill_blocks].
  destruct (fl_offset l <? map_size (bctl_sort (fl_bctl l))) eqn:Hlt;
    [|discriminate].
  destruct (index_blocks_get _ _); [|discriminate].
  match goal with
  | |- context [mbind _ ?c] => destruct c as [[l2|err l2]|f] eqn:Hrec
  end; cbn [mbind outcome_bind]; try discriminate.
  2:{ intros [= ->]. revert Hrec. apply fill_block_records_fuel. }
  apply (fill_block_records_next _ _ _ _ idx) in Hrec;
    cbn [fl_next_block fl_set_bctl fl_bctl fl_block fl_offset fl_dc store_block
         set_index_blocks bctl_sort back_cfg index_blocks] in Hrec |- *;
    [|exact Hmap|exact Hoff|exact Hidx|lia].
  destruct Hrec as (Hs & Hc & Hb & m & Hm & Hom & Hprog & _).
  assert (Hin : (idx < length (map_data (bctl_sort (fl_bctl l))))%nat).
  { apply Z.ltb_lt in Hlt. rewrite Hmap, Hoff in Hlt. nia. }
  specialize (Hprog ltac:(lia) Hin).
  apply (IH _ m);
    cbn [fl_set_bctl fl_bctl fl_block fl_offset fl_dc store_block
         set_index_blocks bctl_sort back_cfg index_blocks];
    rewrite ?Hs, ?Hc; auto; lia.
Qed.

(** The builder stops on its own: the bound on the passes of its outer
    loop is never what ends it. *)
Lemma eblob_index_blocks_fill_fuel (calloc_ok : nat -> bool)
    (bctl : eblob_base_ctl) :
  map_size (bctl_sort bctl) =
    sizeof_disk_control * Z.of_nat (length (map_data (bctl_sort bctl))) ->
  0 < index_block_size (back_cfg bctl) ->
  eblob_index_blocks_fill calloc_ok bctl <> Fault OutOfFuel.
Proof.
  intros Hmap Hibs. unfold eblob_index_blocks_fill.
  assert (Hdiv : forall a b, udiv a b <> Fault OutOfFuel)
    by (intros a b; unfold udiv; destruct (b =? 0); discriminate).
  destruct (eblob_bloom_size bctl) as [bsize|f] eqn:Hsize;
    cbn [mbind outcome_bind].
  2:{ intros [= ->]. unfold eblob_bloom_size in Hsize.
      destruct (udiv _ _) eqn:Hu; [discriminate|].
      cbn in Hsize. injection Hsize as ->. exact (Hdiv _ _ Hu). }
  destruct (eblob_bloom_func_num _) as [fnum|f] eqn:Hnum;
    cbn [mbind outcome_bind].
  2:{ intros [= ->]. unfold eblob_bloom_func_num in Hnum.
      destruct (udiv _ _) eqn:Hu.
      - cbn in Hnum. repeat case_match; discriminate.
      - cbn in Hnum. injection Hnum as ->. exact (Hdiv _ _ Hu). }
  destruct (calloc_ok 0%nat); cbn [bloom set_bloom]; [|discriminate].
  destruct (howmany _ _) as [block_count|f] eqn:Hcount;
    cbn [mbind outcome_bind].
  2:{ intros [= ->]. exact (Hdiv _ _ Hcount). }
  destruct (calloc_ok 1%nat); cbn [index_blocks set_index_blocks];
    [|discriminate].
  match goal with
  | |- context [mbind _ ?c] => destruct c as [[l|err l]|f] eqn:Hloop
  end; cbn [mbind outcome_bind]; try discriminate.
  intros [= ->]. revert Hloop.
  apply (fill_blocks_fuel _ _ 0%nat); cbn; auto; lia.
Qed.

(** Claim C7.  After [eblob_index_blocks_fill] has returned 0 on a base
    that had no block table, whose mapping is a whole number of records
    sorted by key, every block [b] of the table and every record [d] at a
    byte offset in [[start_offset b, end_offset b)] satisfy
    [start_key b <= key d <= end_key b]. *)
Theorem eblob_index_blocks_fill_range_containment
    (calloc_ok : nat -> bool) (bctl bctl' : eblob_base_ctl)
    (arr : list eblob_index_block) (b : eblob_index_block)
    (j : nat) (d : eblob_disk_control) :
  eblob_index_blocks_fill calloc_ok bctl = Ok (0, bctl') ->
  index_blocks bctl = None ->
  0 < index_block_size (back_cfg bctl) ->
  map_size (bctl_sort bctl) =
    sizeof_disk_control * Z.of_nat (length (map_data (bctl_sort bctl))) ->
  key_sorted (map_data (bctl_sort bctl)) ->
  index_blocks bctl' = Some arr ->
  b ∈ arr ->
  map_data (bctl_sort bctl) !! j = Some d ->
  start_offset b <= sizeof_disk_control * Z.of_nat j < end_offset b ->
  eblob_id_cmp (start_key b) (dc_key d) <= 0 /\
  eblob_id_cmp (dc_key d) (end_key b) <= 0.
Proof.
  pose proof sizeof_disk_control_pos as Hsz.
  intros Hfill Hnone Hibs Hmap Hsorted Harr Hb Hj Hrange.
  assert (Hcov : block_covers (map_data (bctl_sort bctl)) b).
  { unfold eblob_index_blocks_fill in Hfill.
    destruct (eblob_bloom_size bctl) as [bsize|]; [|discriminate].
    cbn [mbind outcome_bind] in Hfill.
    destruct (eblob_bloom_func_num _) as [fnum|]; [|discriminate].
    cbn [mbind outcome_bind] in Hfill.
    destruct (calloc_ok 0%nat); cbn [bloom set_bloom] in Hfill.
    2:{ injection Hfill as <-. cbn in Harr. congruence. }
    destruct (howmany _ _) as [block_count|]; [|discriminate].
    cbn [mbind outcome_bind] in Hfill.
    destruct (calloc_ok 1%nat); cbn [index_blocks set_index_blocks] in Hfill.
    2:{ injection Hfill as Hz _. unfold ENOMEM in Hz. lia. }
    match type of Hfill with
    | context [mbind _ ?c] => destruct c as [[l|err l]|] eqn:Hloop
    end; cbn [mbind outcome_bind] in Hfill; try discriminate.
    2:{ injection Hfill as _ <-. cbn in Harr. discriminate. }
    injection Hfill as <-.
    apply (fill_blocks_next _ _ _ 0%nat
             (replicate (Z.to_nat block_count) zero_block)) in Hloop;
      cbn in Hloop |- *; try solve [auto | lia].
    - destruct Hloop as (_ & arr' & Harr' & Hall). cbn in Harr.
      rewrite Harr' in Harr. injection Harr as ->.
      rewrite Forall_forall in Hall. apply Hall, Hb.
    - apply Forall_replicate. left. split; reflexivity. }
  destruct Hcov as [[Hs He]|(s & e & ds & de & Hse & Hs & He & Hds & Hks & Hde & Hke)].
  - lia.
  - rewrite Hs, He in Hrange. rewrite Hks, Hke.
    assert (s <= j < e)%nat as [Hsj Hje] by nia.
    split.
    + apply (Hsorted s j); auto.
    + apply (Hsorted j (e - 1)%nat); auto. lia.
Qed.

(** ** The bounds on the loops of the models are never reached *)

Lemma scan_forward_fuel (bctl : eblob_base_ctl) (dc : eblob_disk_control)
    (callback : eblob_disk_control -> eblob_disk_control -> bool)
    (fuel idx : nat) (st : eblob_disk_search_stat) :
  (length (map_data (bctl_sort bctl)) - idx < fuel)%nat ->
  scan_forward bctl dc callback fuel (sizeof_disk_control * Z.of_nat idx) st
    <> Fault OutOfFuel.
Proof.
  revert idx st. induction fuel as [|fuel IH]; intros idx st Hfuel; [lia|].
  cbn [scan_forward].
  destruct (_ <? map_size (bctl_sort bctl)); [|discriminate].
  unfold sorted_at. rewrite dc_at_index.
  destruct (map_data (bctl_sort bctl) !! idx) as [d|] eqn:Hd; [|discriminate].
  apply lookup_lt_Some in Hd. cbn [mbind outcome_bind].
  destruct (eblob_disk_control_sort d dc =? 0); [|discriminate].
  destruct (callback d dc); [discriminate|].
  replace (sizeof_disk_control * Z.of_nat idx + sizeof_disk_control)
    with (sizeof_disk_control * Z.of_nat (S idx)) by lia.
  apply IH. lia.
Qed.

Lemma scan_backward_fuel (bctl : eblob_base_ctl) (dc : eblob_disk_control)
    (callback : eblob_disk_control -> eblob_disk_control -> bool)
    (fuel idx : nat) (st : eblob_disk_search_stat) :
  (idx < fuel)%nat ->
  scan_backward bctl dc callback fuel
    (sizeof_disk_control * Z.of_nat idx - sizeof_disk_control) st
    <> Fault OutOfFuel.
Proof.
  pose proof sizeof_disk_control_pos as Hsz.
  revert fuel st. induction idx as [|idx IH]; intros fuel st Hfuel;
    (destruct fuel as [|fuel]; [lia|]); cbn [scan_backward].
  - destruct (Z.leb_spec 0 (sizeof_disk_control * Z.of_nat 0 - sizeof_disk_control));
      [lia|discriminate].
  - replace (sizeof_disk_control * Z.of_nat (S idx) - sizeof_disk_control)
      with (sizeof_disk_control * Z.of_nat idx) by lia.
    destruct (0 <=? _); [|discriminate].
    unfold sorted_at. destruct (dc_at _ _); [|discriminate].
    cbn [mbind outcome_bind].
    destruct (eblob_disk_control_sort e dc =? 0); cbn [negb]; [|discriminate].
    destruct (callback e dc); [discriminate|]. apply IH. lia.
Qed.

Lemma eblob_find_on_disk_fuel (cfg : eblob_config) (bctl : eblob_base_ctl)
    (dc : eblob_disk_control)
    (callback : eblob_disk_control -> eblob_disk_control -> bool)
    (st : eblob_disk_search_stat) :
  eblob_find_on_disk cfg bctl dc callback st <> Fault OutOfFuel.
Proof.
  unfold eblob_find_on_disk, eblob_index_blocks_search_nolock.
  destruct (eblob_bloom_get bctl (dc_key dc)) as [present|f] eqn:Hget.
  2:{ cbn [mbind outcome_bind]. intros [= ->]. unfold eblob_bloom_get in Hget.
      destruct (bloom bctl); [destruct (bloom_size bctl =? 0)|]; discriminate. }
  cbn [mbind outcome_bind]. destruct present; cbn [negb]; [|discriminate].
  unfold eblob_index_blocks_search_nolock_bsearch_nobloom.
  destruct (bsearch eblob_key_range_cmp _ _ _) as [[t|]|f] eqn:Hblk;
    cbn [mbind outcome_bind mret outcome_ret]; try discriminate.
  2:{ intros [= ->]. revert Hblk. apply bsearch_loop_fuel. lia. }
  destruct (block_slice cfg bctl t) as [[search_start num]|f] eqn:Hslice;
    cbn [mbind outcome_bind].
  2:{ intros [= ->]. unfold block_slice in Hslice.
      destruct (index_blocks_get bctl t); [|discriminate].
      destruct (negb _); [discriminate|]. destruct (negb _); discriminate. }
  destruct (bsearch eblob_disk_control_sort _ _ _) as [[i|]|f] eqn:Hhit;
    cbn [mbind outcome_bind]; try discriminate.
  2:{ intros [= ->]. revert Hhit. apply bsearch_loop_fuel. lia. }
  apply bsearch_hit in Hhit as (p & Hp & _ & _).
  apply dc_at_Some in Hp as [Hpos Hp]. rewrite Hpos.
  unfold linear_expansion.
  destruct (scan_forward _ _ _ _ _ _) as [[[q|] st2]|f] eqn:Hfwd;
    cbn [mbind outcome_bind]; try discriminate.
  - apply scan_backward_fuel. apply lookup_lt_Some in Hp. lia.
  - intros [= ->]. revert Hfwd. apply scan_forward_fuel. lia.
Qed.

Lemma lookup_bases_fuel (cfg : eblob_config) (key : eblob_key)
    (l : list eblob_base_ctl) (st : eblob_disk_search_stat) :
  lookup_bases cfg key l st <> Fault OutOfFuel.
Proof.
  revert st. induction l as [|bctl rest IH]; intros st; cbn [lookup_bases];
    [discriminate|].
  destruct (index_fd bctl <? 0); [discriminate|].
  destruct (map_fd (bctl_sort bctl) <? 0); [apply IH|].
  destruct (eblob_find_on_disk _ _ _ _ _) as [[[p|] st1]|f] eqn:Hfind;
    cbn [mbind outcome_bind].
  - unfold sorted_at. destruct (dc_at _ _); discriminate.
  - apply IH.
  - intros [= ->]. revert Hfind. apply eblob_find_on_disk_fuel.
Qed.

Lemma lookup_again_fuel (b : nat -> eblob_backend) (key : eblob_key)
    (fuel : nat) (tries : Z) (st : eblob_disk_search_stat) :
  0 <= tries <= max_tries + 1 ->
  (Z.to_nat (max_tries + 2 - tries) <= fuel)%nat ->
  lookup_again fuel b key tries st <> Fault OutOfFuel.
Proof.
  unfold max_tries. revert tries st.
  induction fuel as [|fuel IH]; intros tries st Htries Hfuel.
  - cbn. lia.
  - cbn [lookup_again].
    destruct (lookup_bases _ _ _ _) as [[st1|err rctl st1]|f] eqn:Hpass;
      cbn [mbind outcome_bind]; try discriminate.
    + unfold max_tries. destruct (Z.ltb_spec 10 tries); [discriminate|].
      apply IH; lia.
    + intros [= ->]. revert Hpass. apply lookup_bases_fuel.
Qed.

(** The lookup always comes to an end on its own: the bound on the passes
    is never what stops it. *)
Lemma eblob_disk_index_lookup_fuel (b : nat -> eblob_backend) (key : eblob_key) :
  eblob_disk_index_lookup b key <> Fault OutOfFuel.
Proof. apply lookup_again_fuel; [unfold max_tries; lia|reflexivity]. Qed.

(** ** The restart budget *)

Lemma lookup_again_invalidated (b : nat -> eblob_backend) (key : eblob_key) :
  (forall n, exists bctl rest,
      rev (bases (b n)) = bctl :: rest /\ index_fd bctl < 0) ->
  forall (fuel : nat) (tries : Z) (st : eblob_disk_search_stat),
  0 <= tries <= max_tries + 1 ->
  (Z.to_nat (max_tries + 2 - tries) <= fuel)%nat ->
  exists st',
    lookup_again fuel b key tries st = Ok (- EDEADLK, None, st') /\
    loops st' = loops st + (max_tries + 2 - tries).
Proof.
  intros Hinv. unfold max_tries.
  induction fuel as [|fuel IH]; intros tries st Htries Hfuel; [lia|].
  cbn [lookup_again].
  destruct (Hinv (Z.to_nat tries)) as (bctl & rest & -> & Hfd).
  cbn [lookup_bases]. destruct (Z.ltb_spec (index_fd bctl) 0); [|lia].
  cbn [mbind outcome_bind mret outcome_ret]. unfold max_tries.
  destruct (Z.ltb_spec 10 tries).
  - eexists. split; [reflexivity|]. cbn. lia.
  - destruct (IH (tries + 1) (inc_loops st)) as (st' & Hst' & Hloops);
      [lia|lia|].
    exists st'. split; [exact Hst'|]. rewrite Hloops. cbn. lia.
Qed.

End Facts.

(** * The properties on concrete bases *)

Section Concrete.
Import Sample.
#[local] Existing Instance header.
#[local] Existing Instance disk.



(** A base of one record, the Bloom allocation failing: the builder
    returns 0. *)
Lemma fill_bloom_allocation_failure_returns_zero_witness :
  eblob_index_blocks_fill no_bloom_memory (unfilled [live 1 1]) =
  Ok (0, set_bloom None
           (set_bloom_func_num 20 (set_bloom_size 64 (unfilled [live 1 1])))).
Proof.
  apply fill_bloom_allocation_failure_returns_zero; vm_compute; reflexivity.
Defined.

(** The same base, the block array failing instead: the builder returns
    [-ENOMEM] and leaves the Bloom array it had just allocated. *)
Lemma fill_index_blocks_allocation_failure_sample :
  exists bctl',
    eblob_index_blocks_fill no_block_memory (unfilled [live 1 1])
      = Ok (- ENOMEM, bctl') /\
    bloom bctl' = Some 0 /\ index_blocks bctl' = None /\
    LST_BLOOM_SIZE (bctl_stat bctl') = 64.
Proof.
  eexists. split; [vm_compute; reflexivity|]. repeat split.
Qed.

(** Claim C3, where the code departs from it.  The second record of a
    two-record index is unsound and is the last record of its block, a
    block shorter than [index_block_size = 4].  The builder counts it,
    returns 0 and takes the block's [end_key] from it. *)
Theorem fill_accepts_unsound_last_record_of_short_block :
  eblob_check_record (unfilled [live 1 1; corrupt 2]) (corrupt 2) <> 0 /\
  exists bctl',
    eblob_index_blocks_fill calloc_always (unfilled [live 1 1; corrupt 2])
      = Ok (0, bctl') /\
    index_blocks bctl' = Some [mk_block (key 1) (key 2) 0 192] /\
    LST_INDEX_CORRUPTED_ENTRIES (bctl_stat bctl') = 1.
Proof.
  split; [vm_compute; discriminate|].
  eexists. split; [vm_compute; reflexivity|]. split; reflexivity.
Qed.

(** The limit on unsound records is compared with the count before it is
    incremented: 101 unsound records, none first or last of a block, are
    all skipped and the table is built; the 102nd stops the builder. *)
Lemma fill_tolerates_101_unsound_records :
  exists bctl',
    eblob_index_blocks_fill calloc_always (unfilled index_101_unsound)
      = Ok (0, bctl') /\
    LST_INDEX_CORRUPTED_ENTRIES (bctl_stat bctl') = 101 /\
    EBLOB_BLOB_INDEX_CORRUPT_MAX = 100.
Proof.
  eexists. split; [vm_compute; reflexivity|]. split; reflexivity.
Qed.

(** One unsound record more, and the builder stops with the error of the
    record check. *)
Lemma fill_stops_at_102_unsound_records :
  exists bctl',
    eblob_index_blocks_fill calloc_always (unfilled index_102_unsound)
      = Ok (-22, bctl') /\
    index_blocks bctl' = None /\ bloom bctl' = None.
Proof.
  eexists. split; [vm_compute; reflexivity|]. split; reflexivity.
Qed.

(** An unsound record that is the last of a full block stops the builder,
    which tears the table and the Bloom down. *)
Lemma fill_stops_at_unsound_last_record_of_full_block :
  exists bctl',
    eblob_index_blocks_fill calloc_always
      (unfilled [live 1 1; live 2 0; live 3 0; corrupt 4])
      = Ok (-22, bctl') /\
    index_blocks bctl' = None /\ bloom bctl' = None.
Proof.
  eexists. split; [vm_compute; reflexivity|]. split; reflexivity.
Qed.

(** The Bloom of [base_a] does not hold key 8. *)
Lemma base_a_bloom_rejects_key_8 :
  eblob_index_blocks_search_nolock base_a (probe 8) sstat0
  = Ok (None, inc_bloom_null sstat0).
Proof. vm_compute. reflexivity. Qed.

(** Claim C4, the statement as given fails.  Key 8 lies in the range of
    the second block of [base_a], [7, 9]; the Bloom filter does not hold
    it.  The search answers NULL with [bloom_null] counted and
    [found_index_block] not: no block had been selected when the filter
    was asked. *)
Lemma bloom_probed_before_block_search :
  ~ bloom_probed_after_block_selected.
Proof.
  intros Hclaim.
  pose proof (Hclaim base_a (probe 8) sstat0 None (inc_bloom_null sstat0)
                base_a_bloom_rejects_key_8 eq_refl) as Hc.
  vm_compute in Hc. discriminate.
Qed.

(** The block-range search alone does select a block for that key. *)
Lemma block_search_selects_block_for_absent_key :
  eblob_index_blocks_search_nolock_bsearch_nobloom base_a (probe 8) sstat0
  = Ok (Some 1%nat, inc_found_index_block sstat0).
Proof. vm_compute. reflexivity. Qed.

(** On [base_a] and key 8 the filter answers no, and neither search is
    made. *)
Lemma bloom_probe_precedes_block_search_witness :
  eblob_index_blocks_search_nolock base_a (probe 8) sstat0
    = Ok (None, inc_bloom_null sstat0) /\
  eblob_find_on_disk cfg base_a (probe 8) eblob_find_non_removed_callback sstat0
    = Ok (None, inc_bloom_null (inc_search_on_disk sstat0)).
Proof.
  destruct (bloom_probe_precedes_block_search cfg base_a (probe 8)
              eblob_find_non_removed_callback sstat0 false) as [H1 H2].
  - vm_compute. reflexivity.
  - split; [exact H1|exact (H2 eq_refl)].
Defined.


(** The generator on the six records of [index_a]. *)
Lemma eblob_generate_sorted_index_sorts_witness :
  let r := eblob_generate_sorted_index (io_ok index_a) (closed_base 1) in
  r.1 = 0 /\
  (map_data (bctl_sort r.2) ≡ₚ index_a) /\
  key_sorted (map_data (bctl_sort r.2)) /\
  removed_before_live (map_data (bctl_sort r.2)).
Proof.
  intros r. split; [vm_compute; reflexivity|].
  apply (eblob_generate_sorted_index_sorts (io_ok index_a) (closed_base 1)).
  - vm_compute. reflexivity.
  - left. discriminate.
Defined.

(** The second block of [base_a], bytes 384 to 576 with keys 7 and 9, and
    the record of key 7 at byte 384. *)
Lemma eblob_index_blocks_fill_range_containment_witness :
  let bctl := (eblob_generate_sorted_index (io_ok index_a) (closed_base 1)).2 in
  let b := mk_block (key 7) (key 9) 384 576 in
  eblob_id_cmp (start_key b) (dc_key (live 7 6)) <= 0 /\
  eblob_id_cmp (dc_key (live 7 6)) (end_key b) <= 0.
Proof.
  intros bctl b.
  apply (eblob_index_blocks_fill_range_containment calloc_always bctl base_a
           [mk_block (key 1) (key 7) 0 384; b] b 4%nat (live 7 6)).
  - vm_compute. reflexivity.
  - reflexivity.
  - vm_compute. reflexivity.
  - vm_compute. reflexivity.
  - apply sorted_with_flags_properties.
    apply (bool_decide_unpack _). vm_compute. exact I.
  - vm_compute. reflexivity.
  - apply (list_elem_of_lookup_2 _ 1%nat). reflexivity.
  - vm_compute. reflexivity.
  - vm_compute. split; [discriminate|reflexivity].
Defined.

(** Claim C8, the statement as given fails.  With a Bloom of one byte over
    two records there are 4 bits per key; 4 * 0.69 = 2.76 rounds to 3, and
    the function returns 2. *)
Lemma bloom_func_num_not_rounded :
  let bctl := set_bloom_size 1 (unfilled [live 1 0; live 2 0]) in
  eblob_bloom_func_num bctl = Ok 2 /\
  spec_bloom_func_num (bloom_size bctl)
    (map_size (bctl_sort bctl) / sizeof_disk_control) = 3.
Proof. split; vm_compute; reflexivity. Qed.

(** Where the product leaves the range of [int]: [2 ^ 32] bits per key
    give 2963527434.24, the conversion gives 0 and the function
    returns 1. *)
Lemma eblob_bloom_func_num_beyond_int :
  eblob_bloom_func_num (set_bloom_size (2 ^ 29) (unfilled [live 1 0])) = Ok 1.
Proof. vm_compute. reflexivity. Qed.

(** One byte of Bloom over two records. *)
Lemma eblob_bloom_func_num_truncates_witness :
  let bctl := set_bloom_size 1 (unfilled [live 1 0; live 2 0]) in
  0 < map_size (bctl_sort bctl) / sizeof_disk_control /\
  exists k, eblob_bloom_func_num bctl = Ok k /\ 1 <= k <= 20.
Proof.
  intros bctl. split; [vm_compute; reflexivity|].
  destruct (eblob_bloom_func_num_truncates bctl) as (k & Hk & Hr & _).
  - vm_compute. reflexivity.
  - exists k. split; assumption.
Defined.

(** Claim C9, where the code departs from it.  Base 2 is invalidated
    during the first eleven passes and valid at the twelfth.  The lookup
    restarts eleven times, once more than [max_tries = 10], and returns
    the record of base 2 from its twelfth pass. *)
Theorem lookup_restarts_eleven_times :
  max_tries = 10 /\
  exists st,
    eblob_disk_index_lookup racing (key 3)
      = Ok (0, Some (mk_rctl 50 0 10 2), st) /\
    loops st = 12.
Proof.
  split; [reflexivity|]. eexists. split; [vm_compute; reflexivity|reflexivity].
Qed.

End Concrete.

(** With the newest base invalidated at every pass, the lookup gives up
    with [-EDEADLK] after twelve passes. *)
Lemma lookup_gives_up_after_twelve_passes `{BlobHeader}
    (b : nat -> eblob_backend) (key : eblob_key) :
  (forall n, exists bctl rest,
      rev (bases (b n)) = bctl :: rest /\ index_fd bctl < 0) ->
  exists st,
    eblob_disk_index_lookup b key = Ok (- EDEADLK, None, st) /\ loops st = 12.
Proof.
  intros Hinv.
  destruct (lookup_again_invalidated b key Hinv (Z.to_nat (max_tries + 2)) 0
              sstat0) as (st & Hst & Hloops); [unfold max_tries; lia|lia|].
  exists st. split; [exact Hst|]. rewrite Hloops. reflexivity.
Qed.

(** * Further properties *)

Section More.
Context `{BlobHeader} {storage : Storage}.

(** ** The Bloom filter *)

Lemma fold_setbit_keeps (l : list Z) (f : Z -> Z) (bits : Z) (m : Z) :
  Z.testbit bits m = true ->
  Z.testbit (fold_left (fun acc i => Z.setbit acc (f i)) l bits) m = true.
Proof.
  revert bits. induction l as [|x l IH]; intros bits Hm; cbn; [exact Hm|].
  apply IH. rewrite Z.setbit_spec', Z.lor_spec, Hm. reflexivity.
Qed.

Lemma fold_setbit_sets (l : list Z) (f : Z -> Z) (bits : Z) (i : Z) :
  In i l -> 0 <= f i ->
  Z.testbit (fold_left (fun acc i => Z.setbit acc (f i)) l bits) (f i) = true.
Proof.
  revert bits. induction l as [|x l IH]; intros bits Hin Hpos; [destruct Hin|].
  cbn. destruct Hin as [->|Hin]; [|apply IH; assumption].
  apply fold_setbit_keeps. apply Z.setbit_eq. exact Hpos.
Qed.

Lemma eblob_bloom_get_frame (b b' : eblob_base_ctl) (key : eblob_key) :
  bloom b' = bloom b -> bloom_size b' = bloom_size b ->
  bloom_func_num b' = bloom_func_num b ->
  eblob_bloom_get b' key = eblob_bloom_get b key.
Proof.
  intros Hb Hs Hn. unfold eblob_bloom_get, bloom_bit. rewrite Hb, Hs, Hn.
  reflexivity.
Qed.

Lemma eblob_bloom_set_get (b b' : eblob_base_ctl) (key : eblob_key) :
  eblob_bloom_set b key = Ok b' ->
  0 <= bloom_size b ->
  eblob_bloom_get b' key = Ok true /\
  (forall key', eblob_bloom_get b key' = Ok true ->
                eblob_bloom_get b' key' = Ok true).
Proof.
  unfold eblob_bloom_set, eblob_bloom_get.
  destruct (bloom b) as [bits|]; [|discriminate].
  destruct (Z.eqb_spec (bloom_size b) 0) as [|Hnz]; [discriminate|].
  intros [= <-] Hpos. cbn [bloom set_bloom bloom_size bloom_func_num].
  destruct (Z.eqb_spec (bloom_size b) 0) as [|_]; [contradiction|].
  unfold bloom_bit. cbn [bloom_size set_bloom].
  split.
  - f_equal. apply forallb_forall. intros i Hi.
    apply (fold_setbit_sets _ (fun i => bloom_hash i key mod (8 * bloom_size b)));
      [exact Hi|].
    apply Z.mod_pos_bound. lia.
  - intros key' [= Hget]. f_equal. rewrite forallb_forall in Hget |- *.
    intros i Hi. apply fold_setbit_keeps. apply Hget, Hi.
Qed.

(** ** One pass of the inner loop of the builder *)

Lemma base_frame_refl (b : eblob_base_ctl) : base_frame b b.
Proof. repeat split. Qed.

Lemma base_frame_trans (b1 b2 b3 : eblob_base_ctl) :
  base_frame b1 b2 -> base_frame b2 b3 -> base_frame b1 b3.
Proof.
  unfold base_frame. intros (?&?&?&?&?&?&?&?) (?&?&?&?&?&?&?&?).
  repeat split; congruence.
Qed.

Lemma fill_block_records_pass (n : nat) :
  forall (i : Z) (l l' : fill_locals) (idx : nat),
  fill_block_records n i l = Ok (FillNext l') ->
  map_size (bctl_sort (fl_bctl l)) =
    sizeof_disk_control * Z.of_nat (length (map_data (bctl_sort (fl_bctl l)))) ->
  fl_offset l = sizeof_disk_control * Z.of_nat idx ->
  (idx <= length (map_data (bctl_sort (fl_bctl l))))%nat ->
  0 <= bloom_size (fl_bctl l) ->
  base_frame (fl_bctl l) (fl_bctl l') /\
  fl_block_id l' = fl_block_id l /\
  fl_offset l' =
    sizeof_disk_control *
    Z.of_nat (Nat.min (idx + n) (length (map_data (bctl_sort (fl_bctl l))))) /\
  (forall key, eblob_bloom_get (fl_bctl l) key = Ok true ->
               eblob_bloom_get (fl_bctl l') key = Ok true) /\
  (forall j d,
     (idx <= j < Nat.min (idx + n)
                  (length (map_data (bctl_sort (fl_bctl l)))))%nat ->
     map_data (bctl_sort (fl_bctl l)) !! j = Some d ->
     (forall b, eblob_check_record b d = 0) ->
     live_record d ->
     eblob_bloom_get (fl_bctl l') (dc_key d) = Ok true).
Proof.
  pose proof sizeof_disk_control_pos as Hsz.
  induction n as [|n IH]; intros i l l' idx Hrun Hmap Hoff Hidx Hbs.
  - cbn in Hrun. injection Hrun as <-.
    split; [apply base_frame_refl|]. split; [reflexivity|].
    split; [rewrite Hoff; f_equal; lia|]. split; [auto|]. intros j d Hj. lia.
  - cbn [fill_block_records] in Hrun. rewrite Hmap, Hoff in Hrun.
    destruct (Z.ltb_spec (sizeof_disk_control * Z.of_nat idx)
                (sizeof_disk_control *
                 Z.of_nat (length (map_data (bctl_sort (fl_bctl l))))))
      as [Hlt|Hge].
    + assert (Hin : (idx < length (map_data (bctl_sort (fl_bctl l))))%nat) by nia.
      destruct (lookup_lt_is_Some_2 _ idx Hin) as [d Hd].
      rewrite (pread_whole _ _ _ Hmap Hd) in Hrun.
      destruct (pread_errno _ _); cbn [mbind outcome_bind] in Hrun;
        [discriminate|].
      assert (Hstep : forall l2,
        base_frame (fl_bctl l) (fl_bctl l2) ->
        fl_block_id l2 = fl_block_id l ->
        fl_offset l2 = fl_offset l ->
        (forall key, eblob_bloom_get (fl_bctl l) key = Ok true ->
                     eblob_bloom_get (fl_bctl l2) key = Ok true) ->
        ((forall b, eblob_check_record b d = 0) -> live_record d ->
         eblob_bloom_get (fl_bctl l2) (dc_key d) = Ok true) ->
        fill_block_records n (i + 1) (fl_advance l2) = Ok (FillNext l') ->
        base_frame (fl_bctl l) (fl_bctl l') /\
        fl_block_id l' = fl_block_id l /\
        fl_offset l' =
          sizeof_disk_control *
          Z.of_nat (Nat.min (idx + S n)
                      (length (map_data (bctl_sort (fl_bctl l))))) /\
        (forall key, eblob_bloom_get (fl_bctl l) key = Ok true ->
                     eblob_bloom_get (fl_bctl l') key = Ok true) /\
        (forall j d,
           (idx <= j < Nat.min (idx + S n)
                        (length (map_data (bctl_sort (fl_bctl l)))))%nat ->
           map_data (bctl_sort (fl_bctl l)) !! j = Some d ->
           (forall b, eblob_check_record b d = 0) ->
           live_record d ->
           eblob_bloom_get (fl_bctl l') (dc_key d) = Ok true)).
      { intros l2 Hfr2 Hid2 Ho2 Hmono2 Hthis Hrec.
        pose proof Hfr2 as (Hs2 & _ & _ & _ & Hbs2 & _).
        apply (IH _ _ _ (S idx)) in Hrec; cbn [fl_advance fl_bctl fl_offset];
          [|rewrite Hs2; exact Hmap|rewrite Ho2, Hoff; lia|rewrite Hs2; lia
           |rewrite Hbs2; exact Hbs].
        cbn [fl_advance fl_bctl fl_block_id] in Hrec.
        destruct Hrec as (Hfr & Hid & Ho & Hmono & Hnew).
        rewrite Hs2 in Ho, Hnew.
        split; [eapply base_frame_trans; eassumption|].
        split; [congruence|].
        split; [rewrite Ho; f_equal; lia|].
        split; [auto|].
        intros j dj Hj Hdj Hsound Hlive.
        destruct (decide (j = idx)) as [->|Hne].
        - rewrite Hd in Hdj. injection Hdj as <-. auto.
        - apply (Hnew j dj); auto. lia. }
      destruct (eblob_check_record (fl_bctl (fl_set_dc d l)) d =? 0) eqn:Hchk;
        cbn [negb] in Hrun.
      * match type of Hrun with
        | context [mbind _ ?c] => destruct c as [l2|] eqn:Hl2
        end; [|discriminate].
        cbn [mbind outcome_bind] in Hrun.
        destruct (flag_set (dc_flags d) (eblob_bswap64 BLOB_DISK_CTL_REMOVE))
          eqn:Hrem.
        -- cbn [mret outcome_ret] in Hl2. injection Hl2 as <-.
           refine (Hstep _ _ _ _ _ _ Hrun).
           ++ destruct (i =? 0); repeat split.
           ++ destruct (i =? 0); reflexivity.
           ++ destruct (i =? 0); reflexivity.
           ++ intros key Hk. rewrite <- Hk. apply eblob_bloom_get_frame;
                destruct (i =? 0); reflexivity.
           ++ intros _ Hlive. unfold live_record in Hlive. congruence.
        -- destruct (eblob_bloom_set _ (dc_key d)) as [b2|] eqn:Hset;
             [|discriminate].
           cbn [mret outcome_ret mbind outcome_bind] in Hl2.
           injection Hl2 as <-.
           pose proof (eblob_bloom_set_frame _ _ _ Hset) as [bits Hb2].
           apply eblob_bloom_set_get in Hset as [Hget Hmono];
             [|destruct (i =? 0); exact Hbs].
           refine (Hstep _ _ _ _ _ _ Hrun).
           ++ rewrite Hb2. destruct (i =? 0); repeat split.
           ++ destruct (i =? 0); reflexivity.
           ++ destruct (i =? 0); reflexivity.
           ++ intros key Hk. cbn [fl_bctl fl_set_bctl]. apply Hmono.
              rewrite <- Hk. apply eblob_bloom_get_frame;
                destruct (i =? 0); reflexivity.
           ++ intros _ _. exact Hget.
      * match type of Hrun with
        | (if ?c then _ else _) = _ => destruct c eqn:Hfatal
        end; [discriminate|].
        refine (Hstep _ _ _ _ _ _ Hrun).
        -- repeat split.
        -- reflexivity.
        -- reflexivity.
        -- intros key Hk. rewrite <- Hk. apply eblob_bloom_get_frame; reflexivity.
        -- intros Hsound _. rewrite Hsound in Hchk. discriminate.
    + injection Hrun as <-.
      assert (idx = length (map_data (bctl_sort (fl_bctl l)))) by nia.
      split; [apply base_frame_refl|]. split; [reflexivity|].
      split; [rewrite Hoff; f_equal; lia|]. split; [auto|]. intros j d Hj. lia.
Qed.

(** ** The outer loop of the builder *)

Lemma fill_blocks_pass (fuel : nat) :
  forall (l l' : fill_locals) (K : nat) (arr : list eblob_index_block),
  let data := map_data (bctl_sort (fl_bctl l)) in
  let per := Z.to_nat (index_block_size (back_cfg (fl_bctl l))) in
  fill_blocks fuel l = Ok (FillNext l') ->
  map_size (bctl_sort (fl_bctl l)) =
    sizeof_disk_control * Z.of_nat (length data) ->
  0 < index_block_size (back_cfg (fl_bctl l)) ->
  0 <= bloom_size (fl_bctl l) ->
  fl_block_id l = Z.of_nat K ->
  fl_offset l = sizeof_disk_control * Z.of_nat (Nat.min (K * per) (length data)) ->
  index_blocks (fl_bctl l) = Some arr ->
  (forall k b, arr !! k = Some b -> (k < K)%nat -> block_tiles data per k b) ->
  (K = 0%nat \/ ((K - 1) * per < length data)%nat) ->
  base_frame (fl_bctl l) (fl_bctl l') /\
  (forall key, eblob_bloom_get (fl_bctl l) key = Ok true ->
               eblob_bloom_get (fl_bctl l') key = Ok true) /\
  (forall j d,
     (Nat.min (K * per) (length data) <= j)%nat ->
     data !! j = Some d ->
     (forall b, eblob_check_record b d = 0) ->
     live_record d ->
     eblob_bloom_get (fl_bctl l') (dc_key d) = Ok true) /\
  exists (K' : nat) (arr' : list eblob_index_block),
    (K' <= Nat.max K (length arr))%nat /\
    (length data <= K' * per)%nat /\
    (K' = 0%nat \/ ((K' - 1) * per < length data)%nat) /\
    length arr' = length arr /\
    index_blocks (fl_bctl l') = Some arr' /\
    (forall k b, arr' !! k = Some b -> (k < K')%nat ->
                 block_tiles data per k b).
Proof.
  pose proof sizeof_disk_control_pos as Hsz.
  induction fuel as [|fuel IH];
    intros l l' K arr data per Hrun Hmap Hibs Hbs Hid Hoff Harr Htiles Hprev.
  - cbn in Hrun. destruct (Z.ltb_spec (fl_offset l) (map_size (bctl_sort (fl_bctl l))));
      [discriminate|].
    injection Hrun as <-. fold data in Hmap. rewrite Hmap, Hoff in *.
    assert (length data <= K * per)%nat by nia.
    split; [apply base_frame_refl|]. split; [auto|].
    split.
    { intros j d Hj Hd. apply lookup_lt_Some in Hd. lia. }
    exists K, arr.
        split; [lia|]. split; [lia|]. split; [exact Hprev|].
        split; [reflexivity|]. split; [assumption|]. exact Htiles.
  - cbn [fill_blocks] in Hrun.
    destruct (Z.ltb_spec (fl_offset l) (map_size (bctl_sort (fl_bctl l))))
      as [Hlt|Hge].
    2:{ injection Hrun as <-. fold data in Hmap. rewrite Hmap, Hoff in *.
        assert (length data <= K * per)%nat by nia.
        split; [apply base_frame_refl|]. split; [auto|].
        split.
        { intros j d Hj Hd. apply lookup_lt_Some in Hd. lia. }
        exists K, arr.
        split; [lia|]. split; [lia|]. split; [exact Hprev|].
        split; [reflexivity|]. split; [assumption|]. exact Htiles. }
    fold data in Hmap.
    assert (Hin : (K * per < length data)%nat)
      by (rewrite Hmap, Hoff in Hlt; nia).
    rewrite Nat.min_l in Hoff by lia.
    unfold index_blocks_get in Hrun.
    cbn [fl_next_block fl_bctl fl_block fl_offset] in Hrun.
    rewrite Harr, Hid, Nat2Z.id in Hrun.
    destruct (arr !! K) as [b0|] eqn:Hb0; [|discriminate].
    match type of Hrun with
    | context [mbind _ ?c] => destruct c as [[l2|err l2]|] eqn:Hrec
    end; cbn [mbind outcome_bind] in Hrun; try discriminate.
    pose proof (fill_block_records_next _ _ _ _ (K * per)%nat Hrec) as Hnext.
    pose proof (fill_block_records_pass _ _ _ _ (K * per)%nat Hrec) as Hpass.
    cbn [fl_set_bctl fl_next_block fl_bctl fl_block fl_block_id fl_offset fl_dc
         store_block set_index_blocks bctl_sort back_cfg index_blocks
         bloom_size]
      in Hnext, Hpass.
    rewrite ?Hid, ?Nat2Z.id in Hnext, Hpass.
    fold data per in Hnext, Hpass.
    specialize (Hnext Hmap Hoff ltac:(lia) ltac:(lia)).
    specialize (Hpass Hmap Hoff ltac:(lia) Hbs).
    destruct Hnext as (Hs & Hc & Hb & m & Hm & Hom & _ & Hcases).
    destruct Hpass as (Hfr & Hid2 & Ho2 & Hmono & Hnew).
    assert (Hmeq : m = Nat.min (K * per + per) (length data)).
    { rewrite Hom in Ho2. nia. }
    assert (Hper : (0 < per)%nat) by (unfold per; lia).
    destruct Hcases as [(-> & _)|(Hlt' & Hde & d0 & Hd0 & Hblk)]; [lia|].
    rewrite Z.eqb_refl, Harr in Hblk. cbn [fmap option_fmap option_map] in Hblk.
    rewrite ?Nat2Z.id in Hblk, Hb.
    set (arr2 := alter (block_set_end (dc_key (fl_dc l2)) (fl_offset l2)) K
                   (alter (block_set_start_key (dc_key d0)) K
                      (alter (block_set_start_offset (fl_offset l)) K arr))).
    apply (IH _ _ (S K) arr2) in Hrun;
      cbn [fl_set_bctl fl_bctl fl_block fl_block_id fl_offset fl_dc store_block
           set_index_blocks bctl_sort back_cfg index_blocks bloom_size]
        in Hrun |- *.
    + rewrite Hs, Hc in Hrun. fold data per in Hrun.
      destruct Hrun as (Hfr' & Hmono' & Hnew' & K' & arr' & HK & Hcov & Hlast
                        & Hlen & Harr' & Htiles').
      split.
      { eapply base_frame_trans; [exact Hfr|].
        destruct Hfr' as (?&?&?&?&?&?&?&?). repeat split; assumption. }
      split.
      { intros key Hk. apply Hmono'. rewrite <- (Hmono key Hk).
        apply eblob_bloom_get_frame; reflexivity. }
      split.
      { intros j d Hj Hd Hsound Hlive.
        destruct (Nat.lt_ge_cases j m) as [Hjm|Hjm].
        - apply Hmono'.
          rewrite <- (Hnew j d ltac:(lia) Hd Hsound Hlive).
          apply eblob_bloom_get_frame; reflexivity.
        - apply (Hnew' j d); auto. lia. }
      exists K', arr'. unfold arr2 in HK, Hlen. rewrite !length_alter in HK, Hlen.
      apply lookup_lt_Some in Hb0.
      split; [lia|]. split; [lia|]. split; [exact Hlast|].
      split; [lia|]. split; [assumption|]. exact Htiles'.
    + rewrite Hs. exact Hmap.
    + rewrite Hc. exact Hibs.
    + destruct Hfr as (_&_&_&_&Hbs2&_). rewrite Hbs2. exact Hbs.
    + rewrite Hid2. lia.
    + rewrite Hs, Hc. fold data per. rewrite Hom, Hmeq. f_equal. f_equal. lia.
    + rewrite Hblk, Hb. reflexivity.
    + rewrite Hs, Hc. fold data per. intros k b Hk HkK. unfold arr2 in Hk.
      destruct (decide (k = K)) as [->|Hne].
      * rewrite !list_lookup_alter_eq, Hb0 in Hk. cbn in Hk.
        injection Hk as <-. unfold block_tiles. cbn.
        replace ((K + 1) * per)%nat with (K * per + per)%nat by lia.
        rewrite <- Hmeq. rewrite Hom, Hoff.
        repeat split; eauto.
      * rewrite !list_lookup_alter_ne in Hk by auto.
        apply Htiles; [exact Hk|lia].
    + rewrite Hs, Hc. fold data per. right.
      replace (S K - 1)%nat with K by lia. exact Hin.
Qed.

(** ** What a successful build leaves in the base *)

Lemma eblob_bloom_size_nonneg (bctl : eblob_base_ctl) (bs : Z) :
  eblob_bloom_size bctl = Ok bs -> 0 <= bs.
Proof.
  unfold eblob_bloom_size. destruct (udiv _ _); cbn; [|discriminate].
  intros [= <-]. apply Z.div_pos; [|lia]. unfold u64.
  apply Z.mod_pos_bound. lia.
Qed.

Lemma eblob_bloom_func_num_records (bctl : eblob_base_ctl) (f : Z) :
  eblob_bloom_func_num bctl = Ok f ->
  map_size (bctl_sort bctl) / sizeof_disk_control <> 0.
Proof.
  unfold eblob_bloom_func_num, udiv.
  destruct (Z.eqb_spec (map_size (bctl_sort bctl) / sizeof_disk_control) 0);
    [discriminate|auto].
Qed.

Lemma eblob_index_blocks_fill_built (calloc_ok : nat -> bool)
    (bctl bctl' : eblob_base_ctl) (arr : list eblob_index_block) :
  let data := map_data (bctl_sort bctl) in
  let per := Z.to_nat (index_block_size (back_cfg bctl)) in
  eblob_index_blocks_fill calloc_ok bctl = Ok (0, bctl') ->
  index_blocks bctl = None ->
  index_blocks bctl' = Some arr ->
  0 < index_block_size (back_cfg bctl) ->
  map_size (bctl_sort bctl) = sizeof_disk_control * Z.of_nat (length data) ->
  bctl_sort bctl' = bctl_sort bctl /\
  back_cfg bctl' = back_cfg bctl /\
  bctl_index bctl' = bctl_index bctl /\
  index_fd bctl' = index_fd bctl /\
  LST_INDEX_BLOCKS_SIZE (bctl_stat bctl') =
    Z.of_nat (length arr) * sizeof_index_block /\
  (length data <= length arr * per)%nat /\
  ((length arr - 1) * per < length data)%nat /\
  (forall k b, arr !! k = Some b -> block_tiles data per k b) /\
  (forall j d,
     data !! j = Some d ->
     (forall b, eblob_check_record b d = 0) ->
     live_record d ->
     eblob_bloom_get bctl' (dc_key d) = Ok true).
Proof.
  pose proof sizeof_disk_control_pos as Hsz.
  intros data per Hfill Hnone Harr Hibs Hmap.
  unfold eblob_index_blocks_fill in Hfill.
  destruct (eblob_bloom_size bctl) as [bsize|] eqn:Hbs; [|discriminate].
  apply eblob_bloom_size_nonneg in Hbs.
  cbn [mbind outcome_bind] in Hfill.
  destruct (eblob_bloom_func_num _) as [fnum|] eqn:Hfn; [|discriminate].
  apply eblob_bloom_func_num_records in Hfn. cbn in Hfn.
  fold data in Hmap. rewrite Hmap in Hfn.
  rewrite (Z.mul_comm sizeof_disk_control), Z.div_mul in Hfn by lia.
  cbn [mbind outcome_bind] in Hfill.
  destruct (calloc_ok 0%nat); cbn [bloom set_bloom] in Hfill.
  2:{ injection Hfill as <-. cbn in Harr. congruence. }
  destruct (howmany _ _) as [block_count|] eqn:Hcount; [|discriminate].
  cbn [mbind outcome_bind] in Hfill.
  destruct (calloc_ok 1%nat); cbn [index_blocks set_index_blocks] in Hfill.
  2:{ injection Hfill as Hz _. unfold ENOMEM in Hz. lia. }
  match type of Hfill with
  | context [mbind _ ?c] => destruct c as [[l|err l]|] eqn:Hloop
  end; cbn [mbind outcome_bind] in Hfill; try discriminate.
  2:{ injection Hfill as _ <-. cbn in Harr. discriminate. }
  injection Hfill as <-.
  cbn in Hcount. unfold howmany, udiv in Hcount.
  fold data in Hmap. rewrite Hmap in Hcount.
  rewrite (Z.mul_comm sizeof_disk_control), Z.div_mul in Hcount by lia.
  destruct (Z.eqb_spec (index_block_size (back_cfg bctl)) 0); [lia|].
  injection Hcount as <-.
  apply (fill_blocks_pass _ _ _ 0%nat
           (replicate
              (Z.to_nat ((Z.of_nat (length data) +
                          (index_block_size (back_cfg bctl) - 1))
                         / index_block_size (back_cfg bctl))) zero_block))
    in Hloop; cbn in Hloop |- *; try solve [auto | lia].
  fold data per in Hloop.
  destruct Hloop as (Hfr & _ & Hnew & K' & arr' & HK & Hcov & Hlast & Hlen
                     & Harr' & Htiles).
  cbn in Harr. rewrite Harr' in Harr. injection Harr as ->.
  rewrite length_replicate in Hlen, HK.
  destruct Hfr as (Hs & Hc & Hi & Hfd & _ & _ & _ & Hst). cbn in Hs, Hc, Hi, Hfd, Hst.
  assert (Hlow : (length arr <= K')%nat).
  { rewrite Hlen. apply Nat2Z.inj_le. rewrite Z2Nat.id.
    - apply Z.lt_succ_r, Z.div_lt_upper_bound; [lia|].
      assert (Z.of_nat (length data) <= Z.of_nat K' * index_block_size (back_cfg bctl))
        by (unfold per in Hcov; nia).
      nia.
    - apply Z.div_pos; lia. }
  assert (K' = length arr) as -> by lia.
  repeat match goal with |- _ /\ _ => split end; auto.
  - rewrite Hst, Hlen, Z2Nat.id; [reflexivity|]. apply Z.div_pos; lia.
  - destruct Hlast as [H0|]; [|assumption].
    rewrite H0 in Hcov. cbn in Hcov. lia.
  - intros k b Hk. apply Htiles; [exact Hk|]. apply lookup_lt_Some in Hk; lia.
  - intros j d Hj Hsound Hlive.
    rewrite <- (Hnew j d ltac:(lia) Hj Hsound Hlive).
    apply eblob_bloom_get_frame; reflexivity.
Qed.

(** ** More on the order on ids *)

Lemma eblob_id_cmp_lt_le (a b c : eblob_key) :
  eblob_id_cmp a b < 0 -> eblob_id_cmp b c <= 0 -> eblob_id_cmp a c < 0.
Proof.
  intros Hab Hbc.
  destruct (Z.lt_ge_cases (eblob_id_cmp a c) 0) as [|Hac]; [assumption|].
  assert (Hca : eblob_id_cmp c a <= 0)
    by (rewrite (eblob_id_cmp_antisym a c); lia).
  pose proof (eblob_id_cmp_trans b c a Hbc Hca) as Hba.
  rewrite (eblob_id_cmp_antisym a b) in Hba. lia.
Qed.

Lemma eblob_id_cmp_le_lt (a b c : eblob_key) :
  eblob_id_cmp a b <= 0 -> eblob_id_cmp b c < 0 -> eblob_id_cmp a c < 0.
Proof.
  intros Hab Hbc.
  destruct (Z.lt_ge_cases (eblob_id_cmp a c) 0) as [|Hac]; [assumption|].
  assert (Hca : eblob_id_cmp c a <= 0)
    by (rewrite (eblob_id_cmp_antisym a c); lia).
  pose proof (eblob_id_cmp_trans c a b Hca Hab) as Hcb.
  rewrite (eblob_id_cmp_antisym b c) in Hcb. lia.
Qed.

(** ** The sign of the range comparison *)

Lemma eblob_key_range_cmp_neg (key : eblob_key) (b : eblob_index_block) :
  eblob_key_range_cmp key b < 0 <-> eblob_id_cmp key (start_key b) < 0.
Proof.
  unfold eblob_key_range_cmp.
  destruct (Z.ltb_spec (eblob_id_cmp key (start_key b)) 0); [lia|].
  destruct (Z.eqb_spec (eblob_id_cmp key (start_key b)) 0); [lia|].
  destruct (Z.ltb_spec (eblob_id_cmp key (end_key b)) 0); [lia|].
  destruct (Z.eqb_spec (eblob_id_cmp key (end_key b)) 0); lia.
Qed.

Lemma eblob_key_range_cmp_pos (key : eblob_key) (b : eblob_index_block) :
  0 < eblob_key_range_cmp key b <->
  0 < eblob_id_cmp key (start_key b) /\ 0 < eblob_id_cmp key (end_key b).
Proof.
  unfold eblob_key_range_cmp.
  destruct (Z.ltb_spec (eblob_id_cmp key (start_key b)) 0); [lia|].
  destruct (Z.eqb_spec (eblob_id_cmp key (start_key b)) 0); [lia|].
  destruct (Z.ltb_spec (eblob_id_cmp key (end_key b)) 0); [lia|].
  destruct (Z.eqb_spec (eblob_id_cmp key (end_key b)) 0); lia.
Qed.

Lemma eblob_key_range_cmp_inside (key : eblob_key) (b : eblob_index_block) :
  key_in_block key b -> eblob_key_range_cmp key b = 0.
Proof.
  intros [Hs He]. rewrite (eblob_id_cmp_antisym key (start_key b)) in Hs.
  unfold eblob_key_range_cmp.
  destruct (Z.ltb_spec (eblob_id_cmp key (start_key b)) 0); [lia|].
  destruct (Z.eqb_spec (eblob_id_cmp key (start_key b)) 0); [lia|].
  destruct (Z.ltb_spec (eblob_id_cmp key (end_key b)) 0); [lia|].
  destruct (Z.eqb_spec (eblob_id_cmp key (end_key b)) 0); lia.
Qed.

(** ** bsearch finds what is there *)

Lemma bsearch_loop_complete {K A : Type} (compar : K -> A -> Z) (key : K)
    (get : nat -> option A) (i0 : nat) (a0 : A) :
  (forall i i' a a', (i <= i')%nat -> get i = Some a -> get i' = Some a' ->
     (compar key a < 0 -> compar key a' < 0) /\
     (0 < compar key a' -> 0 < compar key a)) ->
  get i0 = Some a0 -> compar key a0 = 0 ->
  forall fuel l u,
  (forall i, (i < u)%nat -> is_Some (get i)) ->
  (u - l < fuel)%nat -> (l <= i0 < u)%nat ->
  exists t, bsearch_loop compar key get fuel l u = Ok (Some t).
Proof.
  intros Hmono H0 Hc0. induction fuel as [|fuel IH]; intros l u Hin Hfuel Hi0;
    [lia|].
  cbn [bsearch_loop]; cbv zeta.
  destruct (Nat.ltb_spec l u) as [Hlu|]; [|lia].
  pose proof (bsearch_midpoint l u Hlu) as Hmid.
  destruct (Hin ((l + u) / 2)%nat ltac:(lia)) as [p Hp]. rewrite Hp.
  destruct (Z.ltb_spec (compar key p) 0) as [Hneg|Hnn].
  - apply IH; [intros i Hi; apply Hin; lia|lia|].
    destruct (Nat.lt_ge_cases i0 ((l + u) / 2)) as [|Hge]; [lia|].
    destruct (Hmono _ _ _ _ Hge Hp H0) as [Hlt _]. specialize (Hlt Hneg). lia.
  - destruct (Z.ltb_spec 0 (compar key p)) as [Hpos|].
    + apply IH; [exact Hin|lia|].
      destruct (Nat.lt_ge_cases ((l + u) / 2) i0) as [|Hle]; [lia|].
      destruct (Hmono _ _ _ _ Hle H0 Hp) as [_ Hgt]. specialize (Hgt Hpos). lia.
    + eauto.
Qed.

Lemma bsearch_loop_total {K A : Type} (compar : K -> A -> Z) (key : K)
    (get : nat -> option A) :
  forall fuel l u,
  (forall i, (i < u)%nat -> is_Some (get i)) ->
  (u - l < fuel)%nat ->
  exists r, bsearch_loop compar key get fuel l u = Ok r.
Proof.
  induction fuel as [|fuel IH]; intros l u Hin Hfuel; [lia|].
  cbn [bsearch_loop]; cbv zeta.
  destruct (Nat.ltb_spec l u) as [Hlu|]; [|eauto].
  pose proof (bsearch_midpoint l u Hlu) as Hmid.
  destruct (Hin ((l + u) / 2)%nat ltac:(lia)) as [p Hp]. rewrite Hp.
  destruct (compar key p <? 0).
  - apply IH; [intros i Hi; apply Hin; lia|lia].
  - destruct (0 <? compar key p); [|eauto].
    apply IH; [exact Hin|lia].
Qed.

(** ** The scans reach an accepted record of the run *)

Lemma scan_forward_finds (bctl : eblob_base_ctl) (dc : eblob_disk_control)
    (callback : eblob_disk_control -> eblob_disk_control -> bool)
    (j : nat) (d : eblob_disk_control) :
  map_size (bctl_sort bctl) =
    sizeof_disk_control * Z.of_nat (length (map_data (bctl_sort bctl))) ->
  map_data (bctl_sort bctl) !! j = Some d ->
  callback d dc = true ->
  forall (fuel idx : nat) (st : eblob_disk_search_stat),
  (idx <= j)%nat -> (j - idx < fuel)%nat ->
  (forall i r, (idx <= i <= j)%nat -> map_data (bctl_sort bctl) !! i = Some r ->
     eblob_disk_control_sort r dc = 0) ->
  exists p st',
    scan_forward bctl dc callback fuel (sizeof_disk_control * Z.of_nat idx) st
    = Ok (Some p, st').
Proof.
  pose proof sizeof_disk_control_pos as Hsz.
  intros Hmap Hj Hcb. pose proof (lookup_lt_Some _ _ _ Hj) as Hjlen.
  induction fuel as [|fuel IH]; intros idx st Hidx Hfuel Hrun; [lia|].
  cbn [scan_forward]. rewrite Hmap.
  destruct (Z.ltb_spec (sizeof_disk_control * Z.of_nat idx)
              (sizeof_disk_control *
               Z.of_nat (length (map_data (bctl_sort bctl))))); [|nia].
  destruct (lookup_lt_is_Some_2 (map_data (bctl_sort bctl)) idx ltac:(lia))
    as [r Hr].
  unfold sorted_at. rewrite dc_at_index, Hr. cbn [mbind outcome_bind].
  rewrite (Hrun idx r ltac:(lia) Hr), Z.eqb_refl.
  destruct (callback r dc) eqn:Hcbr; [eauto|].
  assert (idx <> j) by (intros ->; congruence).
  replace (sizeof_disk_control * Z.of_nat idx + sizeof_disk_control)
    with (sizeof_disk_control * Z.of_nat (S idx)) by lia.
  apply IH; [lia|lia|]. intros i r' Hi. apply Hrun. lia.
Qed.

Lemma scan_backward_finds (bctl : eblob_base_ctl) (dc : eblob_disk_control)
    (callback : eblob_disk_control -> eblob_disk_control -> bool)
    (j : nat) (d : eblob_disk_control) :
  map_data (bctl_sort bctl) !! j = Some d ->
  callback d dc = true ->
  forall (fuel idx : nat) (st : eblob_disk_search_stat),
  (j <= idx)%nat -> (idx - j < fuel)%nat ->
  (idx < length (map_data (bctl_sort bctl)))%nat ->
  (forall i r, (j <= i <= idx)%nat -> map_data (bctl_sort bctl) !! i = Some r ->
     eblob_disk_control_sort r dc = 0) ->
  exists p st',
    scan_backward bctl dc callback fuel (sizeof_disk_control * Z.of_nat idx) st
    = Ok (Some p, st').
Proof.
  pose proof sizeof_disk_control_pos as Hsz.
  intros Hj Hcb.
  induction fuel as [|fuel IH]; intros idx st Hidx Hfuel Hlen Hrun; [lia|].
  cbn [scan_backward].
  destruct (Z.leb_spec 0 (sizeof_disk_control * Z.of_nat idx)); [|nia].
  destruct (lookup_lt_is_Some_2 (map_data (bctl_sort bctl)) idx Hlen)
    as [r Hr].
  unfold sorted_at. rewrite dc_at_index, Hr. cbn [mbind outcome_bind].
  rewrite (Hrun idx r ltac:(lia) Hr), Z.eqb_refl. cbn [negb].
  destruct (callback r dc) eqn:Hcbr; [eauto|].
  assert (idx <> j) by (intros ->; congruence).
  destruct idx as [|idx]; [lia|].
  replace (sizeof_disk_control * Z.of_nat (S idx) - sizeof_disk_control)
    with (sizeof_disk_control * Z.of_nat idx) by lia.
  apply IH; [lia|lia|lia|]. intros i r' Hi. apply Hrun. lia.
Qed.

(** ** The searcher on a tiled block table *)

Lemma equal_key_run (data : list eblob_disk_control) (dc : eblob_disk_control)
    (a c i : nat) (ra rc r : eblob_disk_control) :
  key_sorted data ->
  data !! a = Some ra -> data !! c = Some rc -> data !! i = Some r ->
  eblob_id_cmp (dc_key dc) (dc_key ra) = 0 ->
  eblob_id_cmp (dc_key dc) (dc_key rc) = 0 ->
  (a <= i <= c)%nat ->
  eblob_disk_control_sort r dc = 0.
Proof.
  intros Hsorted Ha Hc Hi Hka Hkc [Hai Hic].
  apply eblob_id_cmp_eq in Hka, Hkc.
  pose proof (Hsorted a i ra r Hai Ha Hi) as H1.
  pose proof (Hsorted i c r rc Hic Hi Hc) as H2.
  rewrite <- Hka in H1. rewrite <- Hkc in H2.
  unfold eblob_disk_control_sort.
  rewrite (eblob_id_cmp_antisym (dc_key dc) (dc_key r)) in H2 |- *. lia.
Qed.

Section Complete.
Variable cfg : eblob_config.
Variable bctl : eblob_base_ctl.
Variable arr : list eblob_index_block.

Local Abbreviation recs := (map_data (bctl_sort bctl)).
Local Abbreviation per := (Z.to_nat (index_block_size cfg)).

Hypothesis mapped_whole :
  map_size (bctl_sort bctl) = sizeof_disk_control * Z.of_nat (length recs).
Hypothesis mapped_small : map_size (bctl_sort bctl) < 2 ^ 64.
Hypothesis blocks_pos : 0 < index_block_size cfg.
Hypothesis sorted : key_sorted recs.
Hypothesis table : index_blocks bctl = Some arr.
Hypothesis table_size :
  LST_INDEX_BLOCKS_SIZE (bctl_stat bctl) =
    Z.of_nat (length arr) * sizeof_index_block.
Hypothesis tiles :
  forall k b, arr !! k = Some b -> block_tiles recs per k b.
Hypothesis cover : (length recs <= length arr * per)%nat.

Lemma block_keys_mono (i i' : nat) (a a' : eblob_index_block) :
  (i <= i')%nat -> arr !! i = Some a -> arr !! i' = Some a' ->
  eblob_id_cmp (start_key a) (start_key a') <= 0 /\
  eblob_id_cmp (end_key a) (end_key a') <= 0.
Proof.
  intros Hii Ha Ha'.
  destruct (tiles _ _ Ha) as (Hlt & _ & _ & (ds & Hds & ->) & (de & Hde & ->)).
  destruct (tiles _ _ Ha') as (Hlt' & _ & _ & (ds' & Hds' & ->) & (de' & Hde' & ->)).
  split.
  - apply (sorted _ _ _ _ (Nat.mul_le_mono_r _ _ per Hii) Hds Hds').
  - refine (sorted _ _ _ _ _ Hde Hde'). nia.
Qed.

Lemma block_range_cmp_mono (key : eblob_key) (i i' : nat)
    (a a' : eblob_index_block) :
  (i <= i')%nat ->
  index_blocks_get bctl i = Some a -> index_blocks_get bctl i' = Some a' ->
  (eblob_key_range_cmp key a < 0 -> eblob_key_range_cmp key a' < 0) /\
  (0 < eblob_key_range_cmp key a' -> 0 < eblob_key_range_cmp key a).
Proof.
  unfold index_blocks_get. rewrite table. intros Hii Ha Ha'.
  destruct (block_keys_mono _ _ _ _ Hii Ha Ha') as [Hs He].
  rewrite !eblob_key_range_cmp_neg, !eblob_key_range_cmp_pos. split.
  - intros Hlt. eapply eblob_id_cmp_lt_le; eassumption.
  - intros [Hgs Hge].
    rewrite (eblob_id_cmp_antisym (start_key a') key) in Hgs.
    rewrite (eblob_id_cmp_antisym (end_key a') key) in Hge.
    rewrite (eblob_id_cmp_antisym (start_key a) key).
    rewrite (eblob_id_cmp_antisym (end_key a) key).
    pose proof (eblob_id_cmp_le_lt _ _ key Hs ltac:(lia)).
    pose proof (eblob_id_cmp_le_lt _ _ key He ltac:(lia)). lia.
Qed.

Lemma record_block (j : nat) (d : eblob_disk_control) :
  recs !! j = Some d ->
  exists b, arr !! (j / per)%nat = Some b /\ key_in_block (dc_key d) b.
Proof.
  intros Hj. pose proof (lookup_lt_Some _ _ _ Hj) as Hjlen.
  assert (Hper : (per <> 0)%nat) by lia.
  pose proof (Nat.Div0.mul_div_le j per) as Hlo.
  pose proof (Nat.mul_succ_div_gt j per Hper) as Hhi.
  assert (Hin : (j / per < length arr)%nat).
  { apply Nat.Div0.div_lt_upper_bound. lia. }
  destruct (lookup_lt_is_Some_2 arr _ Hin) as [b Hb].
  exists b. split; [exact Hb|].
  destruct (tiles _ _ Hb) as (_ & _ & _ & (ds & Hds & Hsk) & (de & Hde & Hek)).
  unfold key_in_block. rewrite Hsk, Hek. split.
  - refine (sorted _ _ _ _ _ Hds Hj). lia.
  - refine (sorted _ _ _ _ _ Hj Hde). lia.
Qed.

Lemma block_search_complete (key : eblob_key) (j : nat)
    (d : eblob_disk_control) :
  recs !! j = Some d -> dc_key d = key ->
  exists t b,
    bsearch eblob_key_range_cmp key (index_blocks_get bctl) (length arr)
      = Ok (Some t) /\
    arr !! t = Some b /\ eblob_key_range_cmp key b = 0.
Proof.
  intros Hj <-. destruct (record_block _ _ Hj) as (b0 & Hb0 & Hin0).
  pose proof (lookup_lt_Some _ _ _ Hb0) as Hlt0.
  destruct (bsearch_loop_complete eblob_key_range_cmp (dc_key d)
              (index_blocks_get bctl) (j / per)%nat b0) with
    (fuel := S (length arr)) (l := 0%nat) (u := length arr) as [t Ht].
  - intros i i' a a'. apply block_range_cmp_mono.
  - unfold index_blocks_get. rewrite table. exact Hb0.
  - apply eblob_key_range_cmp_inside, Hin0.
  - intros i Hi. unfold index_blocks_get. rewrite table.
    apply lookup_lt_is_Some_2, Hi.
  - lia.
  - lia.
  - pose proof Ht as Hhit. apply bsearch_loop_hit in Hhit as (b & Hb & Hc & _).
    unfold index_blocks_get in Hb. rewrite table in Hb.
    exists t, b. auto.
Qed.

Lemma eblob_find_on_disk_complete (dc : eblob_disk_control)
    (callback : eblob_disk_control -> eblob_disk_control -> bool)
    (j : nat) (d : eblob_disk_control) (st : eblob_disk_search_stat) :
  recs !! j = Some d -> dc_key d = dc_key dc -> callback d dc = true ->
  eblob_bloom_get bctl (dc_key dc) = Ok true ->
  exists p st',
    eblob_find_on_disk cfg bctl dc callback st = Ok (Some p, st').
Proof.
  pose proof sizeof_disk_control_pos as Hsz.
  pose proof sizeof_index_block_pos as Hsb.
  intros Hj Hkey Hcb Hbloom.
  pose proof (lookup_lt_Some _ _ _ Hj) as Hjlen.
  unfold eblob_find_on_disk, eblob_index_blocks_search_nolock.
  rewrite Hbloom. cbn [mbind outcome_bind negb].
  unfold eblob_index_blocks_search_nolock_bsearch_nobloom.
  rewrite table_size, Z.div_mul, Nat2Z.id by lia.
  destruct (block_search_complete (dc_key dc) j d Hj Hkey)
    as (t & b & Hbs & Hb & Hcmp).
  rewrite Hbs. cbn [mbind outcome_bind mret outcome_ret].
  unfold block_slice, index_blocks_get. rewrite table, Hb.
  destruct (tiles _ _ Hb) as (Htlt & Hso & Heo & (ds & Hds & Hsk) & (de & Hde & Hek)).
  rewrite mapped_whole, Hso.
  assert (Hrest : u64 (sizeof_disk_control * Z.of_nat (length recs) -
                       sizeof_disk_control * Z.of_nat (t * per)) =
                  Z.of_nat (length recs - t * per) * sizeof_disk_control).
  { unfold u64. rewrite mapped_whole in mapped_small.
    rewrite Z.mod_small; nia. }
  rewrite Hrest, Z.div_mul, Z_mod_mult by lia.
  destruct (Z.ltb_spec 0 (Z.of_nat (length recs - t * per))); [|lia].
  cbn [negb]. rewrite Z.eqb_refl. cbn [negb mbind outcome_bind mret outcome_ret].
  set (num := if index_block_size cfg <? Z.of_nat (length recs - t * per)
              then index_block_size cfg
              else Z.of_nat (length recs - t * per)).
  assert (Hnum : Z.to_nat num = Nat.min per (length recs - t * per)).
  { unfold num. destruct (Z.ltb_spec (index_block_size cfg)
                            (Z.of_nat (length recs - t * per))); lia. }
  set (get := fun i : nat =>
                dc_at (bctl_sort bctl)
                  (sizeof_disk_control * Z.of_nat (t * per) +
                   Z.of_nat i * sizeof_disk_control)).
  assert (Hget : forall i, get i = recs !! (t * per + i)%nat).
  { intros i. unfold get. rewrite <- dc_at_index. f_equal. lia. }
  (* a record of the key inside the slice *)
  assert (Hi0 : exists i0 r0, (i0 < Z.to_nat num)%nat /\
                  recs !! (t * per + i0)%nat = Some r0 /\
                  eblob_id_cmp (dc_key dc) (dc_key r0) = 0).
  { rewrite <- Hkey. rewrite <- Hkey in Hcmp.
    unfold eblob_key_range_cmp in Hcmp. rewrite Hsk, Hek in Hcmp.
    destruct (Z.ltb_spec (eblob_id_cmp (dc_key d) (dc_key ds)) 0) as [|Hge];
      [discriminate|].
    destruct (Z.eqb_spec (eblob_id_cmp (dc_key d) (dc_key ds)) 0) as [Heq|Hne].
    { exists 0%nat, ds. rewrite Nat.add_0_r. repeat split; auto; lia. }
    destruct (Z.ltb_spec (eblob_id_cmp (dc_key d) (dc_key de)) 0) as [Hlt|Hge2].
    2:{ destruct (Z.eqb_spec (eblob_id_cmp (dc_key d) (dc_key de)) 0)
          as [Heq|]; [|discriminate].
        exists (Nat.min ((t + 1) * per) (length recs) - 1 - t * per)%nat, de.
        split; [lia|]. split; [|exact Heq].
        rewrite <- Hde. f_equal. lia. }
    assert (Hlo : (t * per < j)%nat).
    { destruct (Nat.lt_ge_cases (t * per) j) as [|Hle]; [assumption|].
      pose proof (sorted _ _ _ _ Hle Hj Hds). lia. }
    assert (Hhi : (j < Nat.min ((t + 1) * per) (length recs) - 1)%nat).
    { destruct (Nat.lt_ge_cases j (Nat.min ((t + 1) * per) (length recs) - 1))
        as [|Hle]; [assumption|].
      pose proof (sorted _ _ _ _ Hle Hde Hj) as Hs.
      rewrite (eblob_id_cmp_antisym (dc_key d) (dc_key de)) in Hs. lia. }
    exists (j - t * per)%nat, d. split; [lia|]. split.
    - rewrite <- Hj. f_equal. lia.
    - apply eblob_id_cmp_refl. }
  destruct Hi0 as (i0 & r0 & Hi0 & Hr0 & Hc0).
  destruct (bsearch_loop_complete eblob_disk_control_sort dc get i0 r0) with
    (fuel := S (Z.to_nat num)) (l := 0%nat) (u := Z.to_nat num) as [i Hi].
  - intros a a' ra ra' Haa. rewrite !Hget. intros Hra Hra'.
    unfold eblob_disk_control_sort.
    assert (Hle : eblob_id_cmp (dc_key ra) (dc_key ra') <= 0)
      by (refine (sorted _ _ _ _ _ Hra Hra'); lia).
    split.
    + intros Hlt. eapply eblob_id_cmp_lt_le; eassumption.
    + intros Hgt.
      rewrite (eblob_id_cmp_antisym (dc_key ra') (dc_key dc)) in Hgt.
      rewrite (eblob_id_cmp_antisym (dc_key ra) (dc_key dc)).
      pose proof (eblob_id_cmp_le_lt _ _ (dc_key dc) Hle ltac:(lia)). lia.
  - rewrite Hget. exact Hr0.
  - exact Hc0.
  - intros a Ha. rewrite Hget. apply lookup_lt_is_Some_2. lia.
  - lia.
  - lia.
  - unfold bsearch. fold get. rewrite Hi.
    cbn [mbind outcome_bind mret outcome_ret].
    apply bsearch_loop_hit in Hi as (r & Hr & Hc & Hlt).
    rewrite Hget in Hr.
    replace (sizeof_disk_control * Z.of_nat (t * per) +
             Z.of_nat i * sizeof_disk_control)
      with (sizeof_disk_control * Z.of_nat (t * per + i)) by lia.
    unfold eblob_disk_control_sort in Hc.
    assert (Hdk : eblob_id_cmp (dc_key dc) (dc_key d) = 0)
      by (rewrite Hkey; apply eblob_id_cmp_refl).
    pose proof (lookup_lt_Some _ _ _ Hr) as Hrlen.
    match goal with
    | |- context [linear_expansion _ _ _ _ ?s] => generalize s
    end.
    intros st0. unfold linear_expansion.
    destruct (Nat.le_gt_cases (t * per + i) j) as [Hfw|Hbw].
    + destruct (scan_forward_finds bctl dc callback j d mapped_whole Hj Hcb
                  (S (length recs)) (t * per + i)%nat
                  st0)
        as (p & st' & Hp); [lia|lia| |].
      * intros a ra Ha Hra.
        exact (equal_key_run recs dc _ _ _ _ _ _ sorted Hr Hj Hra Hc Hdk Ha).
      * rewrite Hp. cbn. eauto.
    + destruct (scan_forward_run bctl dc callback mapped_whole
                  (S (length recs)) (t * per + i)%nat
                  st0)
        as (st1 & H1); [lia|lia|].
      rewrite H1. cbn [mbind outcome_bind mret outcome_ret].
      destruct (find_index _ _) as [k|]; cbn [fmap option_fmap option_map];
        [eauto|].
      replace (sizeof_disk_control * Z.of_nat (t * per + i) -
               sizeof_disk_control)
        with (sizeof_disk_control * Z.of_nat (t * per + i - 1))
        by (rewrite Nat2Z.inj_sub by lia; lia).
      apply (scan_backward_finds bctl dc callback j d Hj Hcb); [lia|lia|lia|].
      intros a ra Ha Hra.
      refine (equal_key_run recs dc _ _ _ _ _ _ sorted Hj Hr Hra Hdk Hc _).
      lia.
Qed.

Lemma eblob_find_on_disk_total (dc : eblob_disk_control)
    (callback : eblob_disk_control -> eblob_disk_control -> bool)
    (st : eblob_disk_search_stat) (present : bool) :
  eblob_bloom_get bctl (dc_key dc) = Ok present ->
  exists r st', eblob_find_on_disk cfg bctl dc callback st = Ok (r, st').
Proof.
  pose proof sizeof_disk_control_pos as Hsz.
  pose proof sizeof_index_block_pos as Hsb.
  intros Hbloom.
  unfold eblob_find_on_disk, eblob_index_blocks_search_nolock.
  rewrite Hbloom. cbn [mbind outcome_bind].
  destruct present; cbn [negb]; [|cbn; eauto].
  unfold eblob_index_blocks_search_nolock_bsearch_nobloom.
  rewrite table_size, Z.div_mul, Nat2Z.id by lia.
  destruct (bsearch_loop_total eblob_key_range_cmp (dc_key dc)
              (index_blocks_get bctl) (S (length arr)) 0%nat (length arr))
    as [[t|] Ht]; [|lia| |].
  { intros i Hi. unfold index_blocks_get. rewrite table.
    apply lookup_lt_is_Some_2, Hi. }
  2:{ unfold bsearch. rewrite Ht. cbn. eauto. }
  assert (Hbs : bsearch eblob_key_range_cmp (dc_key dc)
                  (index_blocks_get bctl) (length arr) = Ok (Some t))
    by exact Ht.
  rewrite Hbs.
  cbn [mbind outcome_bind mret outcome_ret].
  apply bsearch_loop_hit in Ht as (b & Hb & _ & _).
  unfold block_slice. rewrite Hb.
  unfold index_blocks_get in Hb. rewrite table in Hb.
  destruct (tiles _ _ Hb) as (Htlt & Hso & _).
  rewrite mapped_whole, Hso.
  assert (Hrest : u64 (sizeof_disk_control * Z.of_nat (length recs) -
                       sizeof_disk_control * Z.of_nat (t * per)) =
                  Z.of_nat (length recs - t * per) * sizeof_disk_control).
  { unfold u64. rewrite mapped_whole in mapped_small.
    rewrite Z.mod_small; nia. }
  rewrite Hrest, Z.div_mul, Z_mod_mult by lia.
  destruct (Z.ltb_spec 0 (Z.of_nat (length recs - t * per))); [|lia].
  cbn [negb]. rewrite Z.eqb_refl. cbn [negb mbind outcome_bind mret outcome_ret].
  set (num := if index_block_size cfg <? Z.of_nat (length recs - t * per)
              then index_block_size cfg
              else Z.of_nat (length recs - t * per)).
  assert (Hnum : Z.to_nat num = Nat.min per (length recs - t * per)).
  { unfold num. destruct (Z.ltb_spec (index_block_size cfg)
                            (Z.of_nat (length recs - t * per))); lia. }
  set (get := fun i : nat =>
                dc_at (bctl_sort bctl)
                  (sizeof_disk_control * Z.of_nat (t * per) +
                   Z.of_nat i * sizeof_disk_control)).
  assert (Hget : forall i, get i = recs !! (t * per + i)%nat).
  { intros i. unfold get. rewrite <- dc_at_index. f_equal. lia. }
  destruct (bsearch_loop_total eblob_disk_control_sort dc get
              (S (Z.to_nat num)) 0%nat (Z.to_nat num)) as [[i|] Hi]; [|lia| |].
  { intros a Ha. rewrite Hget. apply lookup_lt_is_Some_2. lia. }
  2:{ unfold bsearch. fold get. rewrite Hi. cbn. eauto. }
  unfold bsearch. fold get. rewrite Hi.
  cbn [mbind outcome_bind mret outcome_ret].
  apply bsearch_loop_hit in Hi as (r & Hr & _ & Hlt).
  rewrite Hget in Hr. apply lookup_lt_Some in Hr.
  replace (sizeof_disk_control * Z.of_nat (t * per) +
           Z.of_nat i * sizeof_disk_control)
    with (sizeof_disk_control * Z.of_nat (t * per + i)) by lia.
  match goal with
  | |- context [linear_expansion _ _ _ _ ?s] =>
      destruct (linear_expansion_run bctl dc callback mapped_whole
                  (t * per + i)%nat s Hr) as [st' Hst']
  end.
  rewrite Hst'. eauto.
Qed.

End Complete.

(** ** What the builder leaves alone, however it ends *)

(** The offset stays a multiple of the size of a record. *)
Lemma fill_block_records_multiple (n : nat) :
  forall (i : Z) (l l' : fill_locals),
  fill_block_records n i l = Ok (FillNext l') ->
  (exists k, fl_offset l = sizeof_disk_control * k) ->
  exists k, fl_offset l' = sizeof_disk_control * k.
Proof.
  induction n as [|n IH]; intros i l l' Hrun Hoff.
  - cbn in Hrun. injection Hrun as <-. exact Hoff.
  - cbn [fill_block_records] in Hrun.
    destruct (fl_offset l <? map_size (bctl_sort (fl_bctl l)));
      [|injection Hrun as <-; exact Hoff].
    destruct (pread _ _) as [[err [d|]]|];
      cbn [mbind outcome_bind] in Hrun; try discriminate.
    assert (Hstep : forall l2,
      fl_offset l2 = fl_offset l ->
      exists k, fl_offset (fl_advance l2) = sizeof_disk_control * k).
    { intros l2 Ho2. destruct Hoff as [k Hk]. exists (k + 1).
      cbn [fl_advance fl_offset]. lia. }
    destruct (negb _).
    + destruct (_ || _); [discriminate|].
      apply IH in Hrun; [exact Hrun|]. apply Hstep. reflexivity.
    + match type of Hrun with
      | context [mbind _ ?c] => destruct c as [l2|] eqn:Hl2
      end; [|discriminate].
      cbn [mbind outcome_bind] in Hrun.
      apply IH in Hrun; [exact Hrun|]. apply Hstep.
      destruct (flag_set _ _).
      * injection Hl2 as <-. destruct (i =? 0); reflexivity.
      * match type of Hl2 with
        | context [eblob_bloom_set ?b ?k] =>
            destruct (eblob_bloom_set b k) as [b2|]; [|discriminate]
        end.
        cbn [mbind outcome_bind] in Hl2. injection Hl2 as <-.
        destruct (i =? 0); reflexivity.
Qed.

(** The offset stays on the records of the mapping. *)
Lemma fill_block_records_aligned (n : nat) :
  forall (i : Z) (l l' : fill_locals) (idx : nat),
  fill_block_records n i l = Ok (FillNext l') ->
  fl_offset l = sizeof_disk_control * Z.of_nat idx ->
  (idx <= length (map_data (bctl_sort (fl_bctl l))))%nat ->
  bctl_sort (fl_bctl l') = bctl_sort (fl_bctl l) /\
  exists idx',
    fl_offset l' = sizeof_disk_control * Z.of_nat idx' /\
    (idx <= idx' <= length (map_data (bctl_sort (fl_bctl l))))%nat.
Proof.
  pose proof sizeof_disk_control_pos as Hsz.
  induction n as [|n IH]; intros i l l' idx Hrun Hoff Hidx.
  - cbn in Hrun. injection Hrun as <-. split; [reflexivity|].
    exists idx. split; [exact Hoff|lia].
  - cbn [fill_block_records] in Hrun.
    destruct (fl_offset l <? map_size (bctl_sort (fl_bctl l)));
      [|injection Hrun as <-; split; [reflexivity|];
        exists idx; split; [exact Hoff|lia]].
    destruct (pread _ _) as [[err [d|]]|] eqn:Hp;
      cbn [mbind outcome_bind] in Hrun; try discriminate.
    apply pread_record in Hp as (_ & Hd & _).
    rewrite Hoff, dc_at_index in Hd. apply lookup_lt_Some in Hd.
    assert (Hstep : forall l2,
      bctl_sort (fl_bctl l2) = bctl_sort (fl_bctl l) ->
      fl_offset l2 = fl_offset l ->
      fill_block_records n (i + 1) (fl_advance l2) = Ok (FillNext l') ->
      bctl_sort (fl_bctl l') = bctl_sort (fl_bctl l) /\
      exists idx',
        fl_offset l' = sizeof_disk_control * Z.of_nat idx' /\
        (idx <= idx' <= length (map_data (bctl_sort (fl_bctl l))))%nat).
    { intros l2 Hs2 Ho2 Hrec.
      apply (IH _ _ _ (S idx)) in Hrec; cbn [fl_advance fl_bctl fl_offset];
        [|rewrite Ho2, Hoff; lia|rewrite Hs2; lia].
      cbn [fl_advance fl_bctl] in Hrec. rewrite Hs2 in Hrec.
      destruct Hrec as (Hs & idx' & Ho & Hi).
      split; [exact Hs|]. exists idx'. split; [exact Ho|lia]. }
    destruct (negb _).
    + destruct (_ || _); [discriminate|].
      refine (Hstep _ _ _ Hrun); reflexivity.
    + match type of Hrun with
      | context [mbind _ ?c] => destruct c as [l2|] eqn:Hl2
      end; [|discriminate].
      cbn [mbind outcome_bind] in Hrun.
      refine (Hstep l2 _ _ Hrun).
      * destruct (flag_set _ _).
        -- injection Hl2 as <-. destruct (i =? 0); reflexivity.
        -- match type of Hl2 with
           | context [eblob_bloom_set ?b ?k] =>
               destruct (eblob_bloom_set b k) as [b2|] eqn:Hset;
                 [|discriminate]
           end.
           cbn [mbind outcome_bind] in Hl2. injection Hl2 as <-.
           apply eblob_bloom_set_frame in Hset as [bits ->].
           destruct (i =? 0); reflexivity.
      * destruct (flag_set _ _).
        -- injection Hl2 as <-. destruct (i =? 0); reflexivity.
        -- match type of Hl2 with
           | context [eblob_bloom_set ?b ?k] =>
               destruct (eblob_bloom_set b k) as [b2|]; [|discriminate]
           end.
           cbn [mbind outcome_bind] in Hl2. injection Hl2 as <-.
           destruct (i =? 0); reflexivity.
Qed.

(** The [while] loop ends at a record boundary at or after the end of the
    mapping: bytes after the last whole record stop the build. *)
Lemma fill_blocks_aligned (fuel : nat) :
  forall (l l' : fill_locals) (idx : nat),
  fill_blocks fuel l = Ok (FillNext l') ->
  fl_offset l = sizeof_disk_control * Z.of_nat idx ->
  (idx <= length (map_data (bctl_sort (fl_bctl l))))%nat ->
  map_size (bctl_sort (fl_bctl l)) <=
    sizeof_disk_control * Z.of_nat (length (map_data (bctl_sort (fl_bctl l)))).
Proof.
  pose proof sizeof_disk_control_pos as Hsz.
  induction fuel as [|fuel IH]; intros l l' idx Hrun Hoff Hidx;
    cbn [fill_blocks] in Hrun;
    (destruct (Z.ltb_spec (fl_offset l) (map_size (bctl_sort (fl_bctl l))));
     [|nia]);
    [discriminate|].
  destruct (index_blocks_get _ _); [|discriminate].
  match type of Hrun with
  | context [mbind _ ?c] => destruct c as [[l2|err l2]|] eqn:Hrec
  end; cbn [mbind outcome_bind] in Hrun; try discriminate.
  apply (fill_block_records_aligned _ _ _ _ idx) in Hrec;
    cbn [fl_set_bctl fl_next_block fl_bctl fl_offset store_block
         set_index_blocks bctl_sort]; [|exact Hoff|exact Hidx].
  cbn [fl_set_bctl fl_next_block fl_bctl fl_offset store_block
       set_index_blocks bctl_sort] in Hrec.
  destruct Hrec as (Hs & idx' & Ho & Hi).
  apply (IH _ _ idx') in Hrun;
    cbn [fl_set_bctl fl_bctl fl_offset store_block set_index_blocks bctl_sort]
      in Hrun |- *; rewrite ?Hs in *; [exact Hrun|exact Ho|lia].
Qed.

Lemma drop_reason_frame (b b' : eblob_base_ctl) (err : Z) :
  bctl_sort b' = bctl_sort b -> back_cfg b' = back_cfg b ->
  drop_reason b' err -> drop_reason b err.
Proof.
  unfold drop_reason. intros -> ->. auto.
Qed.

Lemma fill_block_records_exit (n : nat) :
  forall (i : Z) (l : fill_locals) (r : fill_exit),
  fill_block_records n i l = Ok r ->
  match r with
  | FillNext l' => base_frame (fl_bctl l) (fl_bctl l')
  | FillDropTree err l' =>
      base_frame (fl_bctl l) (fl_bctl l') /\
      ((exists k, fl_offset l = sizeof_disk_control * k) ->
       drop_reason (fl_bctl l) err)
  end.
Proof.
  pose proof sizeof_disk_control_pos as Hsz.
  induction n as [|n IH]; intros i l r Hrun.
  - cbn in Hrun. injection Hrun as <-. apply base_frame_refl.
  - cbn [fill_block_records] in Hrun.
    destruct (Z.ltb_spec (fl_offset l) (map_size (bctl_sort (fl_bctl l))))
      as [Hlt|_].
    2:{ injection Hrun as <-. apply base_frame_refl. }
    destruct (pread _ _) as [[err [d|]]|] eqn:Hp;
      cbn [mbind outcome_bind] in Hrun; [| |discriminate].
    2:{ injection Hrun as <-. split; [apply base_frame_refl|].
        intros [k Hoff].
        apply pread_no_record in Hp as [(e & He & ->)|(He & Hshort & ->)].
        - right. left. exists (fl_offset l), e. split; [exact He|].
          unfold pread_errno_value. rewrite He. reflexivity.
        - right. right.
          destruct (Z.ltb_spec (Z.max 0 (map_size (bctl_sort (fl_bctl l))
                                         - fl_offset l)) 0); [lia|].
          split; [|lia].
          apply Z.mod_unique with (q := k); lia. }
    assert (Hd : dc_at (bctl_sort (fl_bctl l)) (fl_offset l) = Some d).
    { apply pread_record in Hp. tauto. }
    assert (Hstep : forall l2,
      base_frame (fl_bctl l) (fl_bctl l2) ->
      fl_offset l2 = fl_offset l ->
      fill_block_records n (i + 1) (fl_advance l2) = Ok r ->
      match r with
      | FillNext l' => base_frame (fl_bctl l) (fl_bctl l')
      | FillDropTree err l' =>
          base_frame (fl_bctl l) (fl_bctl l') /\
          ((exists k, fl_offset l = sizeof_disk_control * k) ->
           drop_reason (fl_bctl l) err)
      end).
    { intros l2 Hfr Ho2 Hrec. apply IH in Hrec.
      cbn [fl_advance fl_bctl fl_offset] in Hrec.
      pose proof Hfr as (Hs & Hc & _).
      destruct r as [l'|err' l'].
      - eapply base_frame_trans; eassumption.
      - destruct Hrec as [Hfr' Herr].
        split; [eapply base_frame_trans; eassumption|].
        intros [k Hoff]. apply (drop_reason_frame _ _ _ Hs Hc).
        apply Herr. exists (k + 1). lia. }
    destruct (eblob_check_record (fl_bctl (fl_set_dc d l)) d =? 0) eqn:Hchk;
      cbn [negb] in Hrun.
    + match type of Hrun with
      | context [mbind _ ?c] => destruct c as [l2|] eqn:Hl2
      end; [|discriminate].
      cbn [mbind outcome_bind] in Hrun.
      refine (Hstep l2 _ _ Hrun).
      * destruct (flag_set (dc_flags d) (eblob_bswap64 BLOB_DISK_CTL_REMOVE)).
        -- injection Hl2 as <-. destruct (i =? 0); repeat split.
        -- match type of Hl2 with
           | context [eblob_bloom_set ?b ?k] =>
               destruct (eblob_bloom_set b k) as [b2|] eqn:Hset;
                 [|discriminate]
           end.
           cbn [mbind outcome_bind] in Hl2. injection Hl2 as <-.
           apply eblob_bloom_set_frame in Hset as [bits ->].
           destruct (i =? 0); repeat split.
      * destruct (flag_set (dc_flags d) (eblob_bswap64 BLOB_DISK_CTL_REMOVE)).
        -- injection Hl2 as <-. destruct (i =? 0); reflexivity.
        -- match type of Hl2 with
           | context [eblob_bloom_set ?b ?k] =>
               destruct (eblob_bloom_set b k) as [b2|] eqn:Hset;
                 [|discriminate]
           end.
           cbn [mbind outcome_bind] in Hl2. injection Hl2 as <-.
           destruct (i =? 0); reflexivity.
    + apply Z.eqb_neq in Hchk.
      match type of Hrun with
      | context [if ?c then _ else _] => destruct c
      end.
      * injection Hrun as <-. split; [repeat split|]. intros _.
        left. exists (fl_offset l), d, (fl_bctl l).
        split; [exact Hd|]. split; [reflexivity|]. split; [reflexivity|].
        split; [reflexivity|exact Hchk].
      * refine (Hstep _ _ _ Hrun); [repeat split|reflexivity].
Qed.

Lemma fill_blocks_exit (fuel : nat) :
  forall (l : fill_locals) (r : fill_exit),
  fill_blocks fuel l = Ok r ->
  match r with
  | FillNext l' => base_frame (fl_bctl l) (fl_bctl l')
  | FillDropTree err l' =>
      base_frame (fl_bctl l) (fl_bctl l') /\
      ((exists k, fl_offset l = sizeof_disk_control * k) ->
       drop_reason (fl_bctl l) err)
  end.
Proof.
  pose proof sizeof_disk_control_pos as Hsz.
  induction fuel as [|fuel IH]; intros l r Hrun;
    cbn [fill_blocks] in Hrun;
    (destruct (Z.ltb_spec (fl_offset l) (map_size (bctl_sort (fl_bctl l))));
     [|injection Hrun as <-; apply base_frame_refl]);
    [discriminate|].
  destruct (index_blocks_get _ _); [|discriminate].
  match type of Hrun with
  | context [mbind _ ?c] => destruct c as [[l2|err l2]|] eqn:Hrec
  end; cbn [mbind outcome_bind] in Hrun; try discriminate.
  - assert (Hal : (exists k, fl_offset l = sizeof_disk_control * k) ->
                  exists k, fl_offset l2 = sizeof_disk_control * k).
    { intros [k Hoff]. eapply fill_block_records_multiple; [exact Hrec|].
      exists k. exact Hoff. }
    apply fill_block_records_exit in Hrec.
    cbn [fl_set_bctl fl_next_block fl_bctl fl_offset] in Hrec.
    apply IH in Hrun.
    cbn [fl_set_bctl fl_bctl fl_offset] in Hrun.
    assert (Hfr : base_frame (fl_bctl l)
                    (store_block
                       (block_set_end (dc_key (fl_dc l2)) (fl_offset l2))
                       (fl_block l2) (fl_bctl l2))).
    { eapply base_frame_trans; [|eapply base_frame_trans; [exact Hrec|]];
        repeat split. }
    pose proof Hfr as (Hs & Hc & _).
    destruct r as [l'|err l'].
    + eapply base_frame_trans; eassumption.
    + destruct Hrun as [Hfr' Herr].
      split; [eapply base_frame_trans; eassumption|].
      intros Hoff. apply (drop_reason_frame _ _ _ Hs Hc). auto.
  - injection Hrun as <-. apply fill_block_records_exit in Hrec.
    cbn [fl_set_bctl fl_next_block fl_bctl fl_offset store_block
         set_index_blocks bctl_sort] in Hrec.
    destruct Hrec as [Hfr Herr]. split.
    + eapply base_frame_trans; [|exact Hfr]. repeat split.
    + intros Hoff. refine (drop_reason_frame _ _ _ _ _ (Herr Hoff));
        reflexivity.
Qed.

(** ** The searcher on a base the builder has filled *)

Lemma eblob_key_range_cmp_zero (key : eblob_key) (b : eblob_index_block) :
  eblob_id_cmp (start_key b) (end_key b) <= 0 ->
  eblob_key_range_cmp key b = 0 -> key_in_block key b.
Proof.
  intros Hse. unfold eblob_key_range_cmp, key_in_block.
  rewrite (eblob_id_cmp_antisym key (start_key b)).
  destruct (Z.ltb_spec (eblob_id_cmp key (start_key b)) 0); [discriminate|].
  destruct (Z.eqb_spec (eblob_id_cmp key (start_key b)) 0) as [Heq|].
  - intros _. apply eblob_id_cmp_eq in Heq. subst key.
    rewrite eblob_id_cmp_refl. split; [lia|exact Hse].
  - destruct (Z.ltb_spec (eblob_id_cmp key (end_key b)) 0); [lia|].
    destruct (Z.eqb_spec (eblob_id_cmp key (end_key b)) 0); [lia|discriminate].
Qed.

Lemma block_tiles_ordered (data : list eblob_disk_control) (per k : nat)
    (b : eblob_index_block) :
  key_sorted data -> (0 < per)%nat -> block_tiles data per k b ->
  eblob_id_cmp (start_key b) (end_key b) <= 0.
Proof.
  intros Hsorted Hper (Hlt & _ & _ & (ds & Hds & ->) & (de & Hde & ->)).
  refine (Hsorted _ _ _ _ _ Hds Hde). nia.
Qed.

Lemma fill_then_block_search
    (calloc_ok : nat -> bool) (bctl bctl' : eblob_base_ctl)
    (arr : list eblob_index_block) (key : eblob_key)
    (j : nat) (d : eblob_disk_control) :
  eblob_index_blocks_fill calloc_ok bctl = Ok (0, bctl') ->
  index_blocks bctl = None ->
  index_blocks bctl' = Some arr ->
  0 < index_block_size (back_cfg bctl) ->
  map_size (bctl_sort bctl) =
    sizeof_disk_control * Z.of_nat (length (map_data (bctl_sort bctl))) ->
  key_sorted (map_data (bctl_sort bctl)) ->
  map_data (bctl_sort bctl) !! j = Some d -> dc_key d = key ->
  exists t b,
    bsearch eblob_key_range_cmp key (index_blocks_get bctl')
      (Z.to_nat (LST_INDEX_BLOCKS_SIZE (bctl_stat bctl') / sizeof_index_block))
      = Ok (Some t) /\
    arr !! t = Some b /\ key_in_block key b.
Proof.
  pose proof sizeof_index_block_pos as Hsb.
  intros Hfill Hnone Harr Hibs Hmap Hsorted Hj Hkey.
  destruct (eblob_index_blocks_fill_built _ _ _ _ Hfill Hnone Harr Hibs Hmap)
    as (Hs & Hc & _ & _ & Hst & Hhi & Hlo & Htiles & _).
  rewrite Hst, Z.div_mul, Nat2Z.id by lia.
  destruct (block_search_complete (back_cfg bctl) bctl' arr) with
    (key := key) (j := j) (d := d) as (t & b & Hbs & Hb & Hcmp);
    rewrite ?Hs; auto.
  exists t, b. split; [exact Hbs|]. split; [exact Hb|].
  apply eblob_key_range_cmp_zero; [|exact Hcmp].
  eapply block_tiles_ordered; [exact Hsorted| |exact (Htiles t b Hb)]. lia.
Qed.

Lemma fill_then_find
    (calloc_ok : nat -> bool) (bctl bctl' : eblob_base_ctl)
    (arr : list eblob_index_block) (dc : eblob_disk_control)
    (callback : eblob_disk_control -> eblob_disk_control -> bool)
    (j : nat) (d : eblob_disk_control) (st : eblob_disk_search_stat) :
  eblob_index_blocks_fill calloc_ok bctl = Ok (0, bctl') ->
  index_blocks bctl = None ->
  index_blocks bctl' = Some arr ->
  0 < index_block_size (back_cfg bctl) ->
  map_size (bctl_sort bctl) =
    sizeof_disk_control * Z.of_nat (length (map_data (bctl_sort bctl))) ->
  map_size (bctl_sort bctl) < 2 ^ 64 ->
  key_sorted (map_data (bctl_sort bctl)) ->
  eblob_bloom_get bctl' (dc_key dc) = Ok true ->
  map_data (bctl_sort bctl) !! j = Some d ->
  dc_key d = dc_key dc -> callback d dc = true ->
  exists p st',
    eblob_find_on_disk (back_cfg bctl) bctl' dc callback st = Ok (Some p, st').
Proof.
  intros Hfill Hnone Harr Hibs Hmap Hsmall Hsorted Hbloom Hj Hkey Hcb.
  destruct (eblob_index_blocks_fill_built _ _ _ _ Hfill Hnone Harr Hibs Hmap)
    as (Hs & Hc & _ & _ & Hst & Hhi & Hlo & Htiles & _).
  apply (eblob_find_on_disk_complete (back_cfg bctl) bctl' arr) with
    (j := j) (d := d); rewrite ?Hs; auto.
Qed.

(** ** What a pass over the bases returns *)

Lemma elem_of_rev {A : Type} (x : A) (l : list A) : x ∈ rev l -> x ∈ l.
Proof.
  rewrite !list_elem_of_In. apply in_rev.
Qed.

Lemma lookup_bases_finished (cfg : eblob_config) (key : eblob_key)
    (l : list eblob_base_ctl) :
  forall (st st' : eblob_disk_search_stat) (err : Z)
         (rctl : option eblob_ram_control),
  lookup_bases cfg key l st = Ok (Finished err rctl st') ->
  (err = - ENOENT /\ rctl = None) \/
  (err = 0 /\
   exists bctl n r,
     bctl ∈ l /\ 0 <= index_fd bctl /\ 0 <= map_fd (bctl_sort bctl) /\
     map_data (bctl_sort bctl) !! n = Some r /\
     dc_key r = key /\ live_record r /\
     rctl = Some (mk_rctl (eblob_bswap64 (dc_position r))
                          (sizeof_disk_control * Z.of_nat n)
                          (eblob_bswap64 (dc_data_size r))
                          (bctl_index bctl))).
Proof.
  induction l as [|bctl rest IH]; intros st st' err rctl;
    cbn [lookup_bases].
  - intros [= <- <- <-]. left. split; reflexivity.
  - destruct (Z.ltb_spec (index_fd bctl) 0) as [|Hfd]; [discriminate|].
    assert (Hrest : forall s,
      lookup_bases cfg key rest s = Ok (Finished err rctl st') ->
      (err = - ENOENT /\ rctl = None) \/
      (err = 0 /\
       exists b n r,
         b ∈ bctl :: rest /\ 0 <= index_fd b /\ 0 <= map_fd (bctl_sort b) /\
         map_data (bctl_sort b) !! n = Some r /\
         dc_key r = key /\ live_record r /\
         rctl = Some (mk_rctl (eblob_bswap64 (dc_position r))
                              (sizeof_disk_control * Z.of_nat n)
                              (eblob_bswap64 (dc_data_size r))
                              (bctl_index b)))).
    { intros s Hs. apply IH in Hs as [?|(? & b & n & r & Hin & ?)];
        [left; assumption|right].
      split; [assumption|]. exists b, n, r.
      split; [apply elem_of_cons; right; exact Hin|assumption]. }
    destruct (Z.ltb_spec (map_fd (bctl_sort bctl)) 0) as [|Hmap];
      [apply Hrest|].
    destruct (eblob_find_on_disk _ _ _ _ _) as [[[p|] s1]|] eqn:Hfind;
      cbn [mbind outcome_bind]; [|apply Hrest|discriminate].
    apply eblob_find_on_disk_sound in Hfind as (r & Hr & Hk & Hcb).
    unfold sorted_at. rewrite Hr. cbn [mbind outcome_bind mret outcome_ret].
    intros [= <- <- <-]. right. split; [reflexivity|].
    apply dc_at_Some in Hr as [Hp Hr].
    exists bctl, (Z.to_nat (p / sizeof_disk_control)), r.
    split; [apply elem_of_cons; left; reflexivity|].
    split; [exact Hfd|]. split; [exact Hmap|]. split; [exact Hr|].
    split; [apply eblob_id_cmp_eq, Hk|].
    split; [apply negb_true_iff, Hcb|].
    rewrite <- Hp. reflexivity.
Qed.

Lemma lookup_bases_invalidated (cfg : eblob_config) (key : eblob_key)
    (l : list eblob_base_ctl) :
  forall (st st' : eblob_disk_search_stat),
  lookup_bases cfg key l st = Ok (Invalidated st') ->
  exists bctl, bctl ∈ l /\ index_fd bctl < 0.
Proof.
  induction l as [|bctl rest IH]; intros st st'; cbn [lookup_bases];
    [discriminate|].
  assert (Hrest : forall s,
    lookup_bases cfg key rest s = Ok (Invalidated st') ->
    exists b, b ∈ bctl :: rest /\ index_fd b < 0).
  { intros s Hs. apply IH in Hs as (b & Hin & Hb). exists b.
    split; [apply elem_of_cons; right; exact Hin|exact Hb]. }
  destruct (Z.ltb_spec (index_fd bctl) 0) as [Hfd|].
  - intros _. exists bctl. split; [apply elem_of_cons; left; reflexivity|exact Hfd].
  - destruct (map_fd (bctl_sort bctl) <? 0); [apply Hrest|].
    destruct (eblob_find_on_disk _ _ _ _ _) as [[[p|] s1]|];
      cbn [mbind outcome_bind]; [|apply Hrest|discriminate].
    destruct (sorted_at bctl p); discriminate.
Qed.

Lemma lookup_again_result (b : nat -> eblob_backend) (key : eblob_key)
    (fuel : nat) :
  forall (tries : Z) (st st' : eblob_disk_search_stat) (err : Z)
         (rctl : option eblob_ram_control),
  lookup_again fuel b key tries st = Ok (err, rctl, st') ->
  0 <= tries ->
  (exists n st0,
     (Z.to_nat tries <= n < Z.to_nat tries + fuel)%nat /\
     lookup_bases (b_cfg (b n)) key (rev (bases (b n))) st0
       = Ok (Finished err rctl st')) \/
  (err = - EDEADLK /\ rctl = None /\
   forall n, (Z.to_nat tries <= n <= 11)%nat ->
     exists bctl, bctl ∈ bases (b n) /\ index_fd bctl < 0).
Proof.
  induction fuel as [|fuel IH]; intros tries st st' err rctl;
    cbn [lookup_again]; [discriminate|].
  destruct (lookup_bases _ _ _ _) as [[s1|e r s1]|] eqn:Hpass;
    cbn [mbind outcome_bind mret outcome_ret]; [| |discriminate].
  - apply lookup_bases_invalidated in Hpass as (bctl & Hin & Hfd).
    apply elem_of_rev in Hin.
    destruct (Z.ltb_spec max_tries tries) as [Hmax|Hmax]; unfold max_tries in Hmax.
    + intros [= <- <- <-] Htries. right. split; [reflexivity|].
      split; [reflexivity|]. intros n Hn.
      assert (n = Z.to_nat tries) as -> by lia. eauto.
    + intros Hrun Htries. apply IH in Hrun; [|lia].
      destruct Hrun as [(n & st0 & Hn & Hrun)|(? & ? & Hall)].
      * left. exists n, st0. split; [lia|exact Hrun].
      * right. split; [assumption|]. split; [assumption|]. intros n Hn.
        destruct (decide (n = Z.to_nat tries)) as [->|Hne]; [eauto|].
        apply Hall. lia.
  - intros [= <- <- <-] Htries. left. exists (Z.to_nat tries), st.
    split; [lia|exact Hpass].
Qed.

Lemma lookup_bases_skips_unsorted (cfg : eblob_config) (key : eblob_key)
    (u : eblob_base_ctl) (pre post : list eblob_base_ctl) :
  0 <= index_fd u -> map_fd (bctl_sort u) < 0 ->
  forall st1 st2,
  pass_verdict (lookup_bases cfg key (pre ++ u :: post) st1) =
  pass_verdict (lookup_bases cfg key (pre ++ post) st2).
Proof.
  intros Hfd Hmap. induction pre as [|bctl pre IH]; intros st1 st2;
    cbn [app lookup_bases].
  - destruct (Z.ltb_spec (index_fd u) 0); [lia|].
    destruct (Z.ltb_spec (map_fd (bctl_sort u)) 0); [|lia].
    apply lookup_bases_stat.
  - destruct (index_fd bctl <? 0); [reflexivity|].
    destruct (map_fd (bctl_sort bctl) <? 0); [apply IH|].
    pose proof (eblob_find_on_disk_stat cfg bctl (mk_dc key 0 0 0 0)
                  eblob_find_non_removed_callback
                  (inc_loops st1) (inc_loops st2)) as Hfind.
    destruct (eblob_find_on_disk _ _ _ _ (inc_loops st1)) as [[f1 s1]|e1],
      (eblob_find_on_disk _ _ _ _ (inc_loops st2)) as [[f2 s2]|e2];
      cbn [found_of] in Hfind; try discriminate; cbn [mbind outcome_bind];
      [|injection Hfind as ->; reflexivity].
    injection Hfind as <-. destruct f1 as [p|]; [|apply IH].
    destruct (sorted_at bctl p); reflexivity.
Qed.

(** ** What the generator publishes *)

#[local] Existing Instance sort_with_flags_total.
#[local] Existing Instance sort_with_flags_trans.

Lemma eblob_generate_sorted_index_published
    (io : sort_io) (bctl bctl' : eblob_base_ctl) :
  eblob_generate_sorted_index io bctl = (0, bctl') ->
  0 < io_st_size io ->
  exists data,
    bctl' = set_sort (mk_map (io_open io) (io_st_size io) data) bctl /\
    0 <= io_open io /\
    (data ≡ₚ io_index io) /\ key_sorted data.
Proof.
  intros Hgen Hpos.
  apply eblob_generate_sorted_index_returns in Hgen
    as [[Hz _]|(_ & Hfd & ->)]; [lia|].
  eexists. split; [reflexivity|]. split; [exact Hfd|]. split.
  - apply merge_sort_Permutation.
  - apply sorted_with_flags_properties.
    apply (StronglySorted_merge_sort _).
Qed.

(** A build that succeeds has met no bytes after the last whole record of
    the mapping. *)
Lemma eblob_index_blocks_fill_whole
    (calloc_ok : nat -> bool) (bctl bctl' : eblob_base_ctl)
    (arr : list eblob_index_block) :
  eblob_index_blocks_fill calloc_ok bctl = Ok (0, bctl') ->
  index_blocks bctl = None ->
  index_blocks bctl' = Some arr ->
  map_size (bctl_sort bctl) <=
    sizeof_disk_control * Z.of_nat (length (map_data (bctl_sort bctl))).
Proof.
  intros Hfill Hnone Harr.
  unfold eblob_index_blocks_fill in Hfill.
  destruct (eblob_bloom_size bctl) as [bsize|]; [|discriminate].
  cbn [mbind outcome_bind] in Hfill.
  destruct (eblob_bloom_func_num _) as [fnum|]; [|discriminate].
  cbn [mbind outcome_bind] in Hfill.
  destruct (calloc_ok 0%nat); cbn [bloom set_bloom] in Hfill.
  2:{ injection Hfill as <-. cbn in Harr. congruence. }
  destruct (howmany _ _) as [block_count|]; [|discriminate].
  cbn [mbind outcome_bind] in Hfill.
  destruct (calloc_ok 1%nat); cbn [index_blocks set_index_blocks] in Hfill.
  2:{ injection Hfill as Hz _. unfold ENOMEM in Hz. lia. }
  match type of Hfill with
  | context [mbind _ ?c] => destruct c as [[l|err l]|] eqn:Hloop
  end; cbn [mbind outcome_bind] in Hfill; try discriminate.
  2:{ injection Hfill as _ <-. cbn in Harr. discriminate. }
  apply (fill_blocks_aligned _ _ _ 0%nat) in Hloop; cbn in Hloop |- *;
    [exact Hloop|lia|lia].
Qed.

(** ** The records the builder tolerates *)

Lemma fill_block_records_checked (n : nat) :
  forall (i : Z) (l l' : fill_locals) (idx : nat),
  fill_block_records n i l = Ok (FillNext l') ->
  map_size (bctl_sort (fl_bctl l)) =
    sizeof_disk_control * Z.of_nat (length (map_data (bctl_sort (fl_bctl l)))) ->
  fl_offset l = sizeof_disk_control * Z.of_nat idx ->
  (idx <= length (map_data (bctl_sort (fl_bctl l))))%nat ->
  fl_offset l' =
    sizeof_disk_control *
    Z.of_nat (Nat.min (idx + n) (length (map_data (bctl_sort (fl_bctl l))))) /\
  fl_err_count l' - fl_err_count l =
    LST_INDEX_CORRUPTED_ENTRIES (bctl_stat (fl_bctl l')) -
    LST_INDEX_CORRUPTED_ENTRIES (bctl_stat (fl_bctl l)) /\
  fl_err_count l <= fl_err_count l' /\
  (fl_err_count l' = fl_err_count l \/
   fl_err_count l' <= EBLOB_BLOB_INDEX_CORRUPT_MAX + 1) /\
  (forall j d,
     (idx <= j < Nat.min (idx + n)
                  (length (map_data (bctl_sort (fl_bctl l)))))%nat ->
     map_data (bctl_sort (fl_bctl l)) !! j = Some d ->
     i + Z.of_nat (j - idx) = 0 \/
     i + Z.of_nat (j - idx) = index_block_size (back_cfg (fl_bctl l)) - 1 ->
     exists b, base_frame (fl_bctl l) b /\ eblob_check_record b d = 0).
Proof.
  pose proof sizeof_disk_control_pos as Hsz.
  induction n as [|n IH]; intros i l l' idx Hrun Hmap Hoff Hidx.
  - cbn in Hrun. injection Hrun as <-.
    split; [rewrite Hoff; f_equal; lia|].
    split; [lia|]. split; [lia|]. split; [auto|]. intros j d Hj. lia.
  - cbn [fill_block_records] in Hrun. rewrite Hmap, Hoff in Hrun.
    destruct (Z.ltb_spec (sizeof_disk_control * Z.of_nat idx)
                (sizeof_disk_control *
                 Z.of_nat (length (map_data (bctl_sort (fl_bctl l))))))
      as [Hlt|Hge].
    + assert (Hin : (idx < length (map_data (bctl_sort (fl_bctl l))))%nat) by nia.
      destruct (lookup_lt_is_Some_2 _ idx Hin) as [d Hd].
      rewrite (pread_whole _ _ _ Hmap Hd) in Hrun.
      destruct (pread_errno _ _); cbn [mbind outcome_bind] in Hrun;
        [discriminate|].
      assert (Hstep : forall l2,
        base_frame (fl_bctl l) (fl_bctl l2) ->
        fl_offset l2 = fl_offset l ->
        fl_err_count l2 - fl_err_count l =
          LST_INDEX_CORRUPTED_ENTRIES (bctl_stat (fl_bctl l2)) -
          LST_INDEX_CORRUPTED_ENTRIES (bctl_stat (fl_bctl l)) ->
        fl_err_count l <= fl_err_count l2 ->
        (fl_err_count l2 = fl_err_count l \/
         fl_err_count l2 <= EBLOB_BLOB_INDEX_CORRUPT_MAX + 1) ->
        (i = 0 \/ i = index_block_size (back_cfg (fl_bctl l)) - 1 ->
         exists b, base_frame (fl_bctl l) b /\ eblob_check_record b d = 0) ->
        fill_block_records n (i + 1) (fl_advance l2) = Ok (FillNext l') ->
        fl_offset l' =
          sizeof_disk_control *
          Z.of_nat (Nat.min (idx + S n)
                      (length (map_data (bctl_sort (fl_bctl l))))) /\
        fl_err_count l' - fl_err_count l =
          LST_INDEX_CORRUPTED_ENTRIES (bctl_stat (fl_bctl l')) -
          LST_INDEX_CORRUPTED_ENTRIES (bctl_stat (fl_bctl l)) /\
        fl_err_count l <= fl_err_count l' /\
        (fl_err_count l' = fl_err_count l \/
         fl_err_count l' <= EBLOB_BLOB_INDEX_CORRUPT_MAX + 1) /\
        (forall j d,
           (idx <= j < Nat.min (idx + S n)
                        (length (map_data (bctl_sort (fl_bctl l)))))%nat ->
           map_data (bctl_sort (fl_bctl l)) !! j = Some d ->
           i + Z.of_nat (j - idx) = 0 \/
           i + Z.of_nat (j - idx) =
             index_block_size (back_cfg (fl_bctl l)) - 1 ->
           exists b, base_frame (fl_bctl l) b /\ eblob_check_record b d = 0)).
      { intros l2 Hfr2 Ho2 Hcnt2 Hle2 Hbound2 Hthis Hrec.
        pose proof Hfr2 as (Hs2 & Hc2 & _).
        apply (IH _ _ _ (S idx)) in Hrec; cbn [fl_advance fl_bctl fl_offset];
          [|rewrite Hs2; exact Hmap|rewrite Ho2, Hoff; lia|rewrite Hs2; lia].
        cbn [fl_advance fl_bctl fl_err_count] in Hrec.
        destruct Hrec as (Ho & Hcnt & Hle & Hbound & Hpos).
        rewrite Hs2 in Ho, Hpos. rewrite Hc2 in Hpos.
        split; [rewrite Ho; f_equal; lia|].
        split; [lia|]. split; [lia|]. split; [lia|].
        intros j dj Hj Hdj Hij.
        destruct (decide (j = idx)) as [->|Hne].
        - rewrite Hd in Hdj. injection Hdj as <-. apply Hthis.
          rewrite Nat.sub_diag in Hij. lia.
        - destruct (Hpos j dj) as (b & Hb & Hok); [lia|exact Hdj| |].
          + replace (i + 1 + Z.of_nat (j - S idx))
              with (i + Z.of_nat (j - idx)) by lia.
            exact Hij.
          + exists b. split; [|exact Hok].
            eapply base_frame_trans; [exact Hfr2|exact Hb]. }
      destruct (eblob_check_record (fl_bctl (fl_set_dc d l)) d =? 0) eqn:Hchk;
        cbn [negb] in Hrun.
      * apply Z.eqb_eq in Hchk.
        match type of Hrun with
        | context [mbind _ ?c] => destruct c as [l2|] eqn:Hl2
        end; [|discriminate].
        cbn [mbind outcome_bind] in Hrun.
        destruct (flag_set (dc_flags d) (eblob_bswap64 BLOB_DISK_CTL_REMOVE))
          eqn:Hrem.
        -- cbn [mret outcome_ret] in Hl2. injection Hl2 as <-.
           refine (Hstep _ _ _ _ _ _ _ Hrun); destruct (i =? 0);
             cbn;
             solve [repeat split | lia
                   | intros _; exists (fl_bctl l);
                     split; [apply base_frame_refl|exact Hchk]].
        -- destruct (eblob_bloom_set _ (dc_key d)) as [b2|] eqn:Hset;
             [|discriminate].
           cbn [mret outcome_ret mbind outcome_bind] in Hl2.
           injection Hl2 as <-.
           pose proof (eblob_bloom_set_frame _ _ _ Hset) as [bits Hb2].
           rewrite Hb2 in *.
           refine (Hstep _ _ _ _ _ _ _ Hrun); destruct (i =? 0);
             cbn;
             solve [repeat split | lia
                   | intros _; exists (fl_bctl l);
                     split; [apply base_frame_refl|exact Hchk]].
      * match type of Hrun with
        | (if ?c then _ else _) = _ => destruct c eqn:Hfatal
        end; [discriminate|].
        apply orb_false_iff in Hfatal as [Hfatal Hlast].
        apply orb_false_iff in Hfatal as [Hmax Hfirst].
        apply Z.ltb_ge in Hmax. apply Z.eqb_neq in Hfirst, Hlast.
        cbn [fl_inc_err_count fl_set_bctl fl_set_dc fl_bctl fl_err_count
             back_cfg set_stat] in Hmax, Hlast.
        refine (Hstep _ _ _ _ _ _ _ Hrun); cbn;
          solve [repeat split | lia].
    + injection Hrun as <-.
      assert (idx = length (map_data (bctl_sort (fl_bctl l)))) by nia.
      split; [rewrite Hoff; f_equal; lia|].
      split; [lia|]. split; [lia|]. split; [auto|]. intros j d Hj. lia.
Qed.


Lemma fill_blocks_checked (fuel : nat) :
  forall (l l' : fill_locals) (K : nat),
  let data := map_data (bctl_sort (fl_bctl l)) in
  let per := Z.to_nat (index_block_size (back_cfg (fl_bctl l))) in
  fill_blocks fuel l = Ok (FillNext l') ->
  map_size (bctl_sort (fl_bctl l)) =
    sizeof_disk_control * Z.of_nat (length data) ->
  0 < index_block_size (back_cfg (fl_bctl l)) ->
  fl_offset l = sizeof_disk_control * Z.of_nat (Nat.min (K * per) (length data)) ->
  fl_err_count l' - fl_err_count l =
    LST_INDEX_CORRUPTED_ENTRIES (bctl_stat (fl_bctl l')) -
    LST_INDEX_CORRUPTED_ENTRIES (bctl_stat (fl_bctl l)) /\
  fl_err_count l <= fl_err_count l' /\
  (fl_err_count l' = fl_err_count l \/
   fl_err_count l' <= EBLOB_BLOB_INDEX_CORRUPT_MAX + 1) /\
  (forall j d,
     (Nat.min (K * per) (length data) <= j)%nat ->
     data !! j = Some d ->
     (j mod per = 0 \/ j mod per = per - 1)%nat ->
     exists b, base_frame (fl_bctl l) b /\ eblob_check_record b d = 0).
Proof.
  pose proof sizeof_disk_control_pos as Hsz.
  induction fuel as [|fuel IH];
    intros l l' K data per Hrun Hmap Hibs Hoff; cbn [fill_blocks] in Hrun;
    (destruct (Z.ltb_spec (fl_offset l) (map_size (bctl_sort (fl_bctl l))))
       as [Hlt|Hge];
     [|injection Hrun as <-; fold data in Hmap; rewrite Hmap, Hoff in Hge;
       split; [lia|]; split; [lia|]; split; [auto|];
       intros j d Hj Hd; apply lookup_lt_Some in Hd; nia]);
    [discriminate|].
  fold data in Hmap.
  assert (Hin : (K * per < length data)%nat)
    by (rewrite Hmap, Hoff in Hlt; nia).
  rewrite Nat.min_l in Hoff by lia.
  destruct (index_blocks_get _ _); [|discriminate].
  match type of Hrun with
  | context [mbind _ ?c] => destruct c as [[l2|err l2]|] eqn:Hrec
  end; cbn [mbind outcome_bind] in Hrun; try discriminate.
  pose proof (fill_block_records_exit _ _ _ _ Hrec) as Hfr.
  pose proof (fill_block_records_checked _ _ _ _ (K * per)%nat Hrec) as Hchk.
  cbn [fl_set_bctl fl_next_block fl_bctl fl_block fl_block_id fl_offset fl_dc
       fl_err_count store_block set_index_blocks bctl_sort back_cfg bctl_stat]
    in Hfr, Hchk.
  fold data per in Hchk.
  specialize (Hchk Hmap Hoff ltac:(lia)).
  destruct Hchk as (Ho2 & Hcnt & Hle & Hbound & Hpos).
  pose proof Hfr as (Hs & Hc & _). cbn in Hs, Hc.
  assert (Hper : (0 < per)%nat) by (unfold per; lia).
  apply (IH _ _ (S K)) in Hrun;
    cbn [fl_set_bctl fl_bctl fl_offset fl_err_count store_block
         set_index_blocks bctl_sort back_cfg bctl_stat] in Hrun |- *.
  - rewrite Hs, Hc in Hrun. fold data per in Hrun.
    destruct Hrun as (Hcnt' & Hle' & Hbound' & Hpos').
    split; [lia|]. split; [lia|]. split; [lia|].
    intros j d Hj Hd Hmod.
    destruct (Nat.lt_ge_cases j (Nat.min (K * per + per) (length data)))
      as [Hjm|Hjm].
    + destruct (Hpos j d) as (b & Hb & Hok); [lia|exact Hd| |].
      * assert (Hjmod : (j mod per = j - K * per)%nat).
        { symmetry. apply Nat.mod_unique with (q := K); lia. }
        rewrite Hjmod in Hmod. unfold per in Hmod |- *. lia.
      * exists b. split; [|exact Hok].
        eapply base_frame_trans; [|exact Hb]. repeat split.
    + destruct (Hpos' j d) as (b & Hb & Hok); [|exact Hd|exact Hmod|].
      * replace (S K * per)%nat with (K * per + per)%nat by lia. exact Hjm.
      * exists b. split; [|exact Hok].
        eapply base_frame_trans; [|exact Hb].
        eapply base_frame_trans; [|eapply base_frame_trans; [exact Hfr|]];
          repeat split.
  - rewrite Hs. exact Hmap.
  - rewrite Hc. exact Hibs.
  - rewrite Hs, Hc. fold data per. rewrite Ho2. do 3 f_equal. lia.
Qed.

(** ** The removed records the builder counts *)

Lemma s64_add_l (a b : Z) : s64 (s64 a + b) = s64 (a + b).
Proof.
  unfold s64.
  replace ((a + 2 ^ 63) mod 2 ^ 64 - 2 ^ 63 + b + 2 ^ 63)
    with ((a + 2 ^ 63) mod 2 ^ 64 + b) by lia.
  rewrite Zplus_mod_idemp_l. do 2 f_equal. lia.
Qed.

Lemma s64_small (x : Z) : - 2 ^ 63 <= x < 2 ^ 63 -> s64 x = x.
Proof.
  intros Hx. unfold s64. rewrite Z.mod_small; lia.
Qed.

Lemma removed_records_snoc (l : list eblob_disk_control)
    (d : eblob_disk_control) :
  removed_records (l ++ [d]) =
  removed_records l ++
  (if flag_set (dc_flags d) (eblob_bswap64 BLOB_DISK_CTL_REMOVE)
   then [d] else []).
Proof.
  unfold removed_records. rewrite List.filter_app. reflexivity.
Qed.

Lemma disk_size_sum_snoc (l : list eblob_disk_control)
    (d : eblob_disk_control) :
  disk_size_sum (l ++ [d]) = disk_size_sum l + dc_disk_size d.
Proof.
  unfold disk_size_sum. induction l as [|x l IH]; cbn; [lia|].
  rewrite IH. lia.
Qed.

Lemma fill_block_records_removed (n : nat) :
  forall (i : Z) (l l' : fill_locals) (idx : nat) (r0 s0 : Z),
  fill_block_records n i l = Ok (FillNext l') ->
  map_size (bctl_sort (fl_bctl l)) =
    sizeof_disk_control * Z.of_nat (length (map_data (bctl_sort (fl_bctl l)))) ->
  fl_offset l = sizeof_disk_control * Z.of_nat idx ->
  (idx <= length (map_data (bctl_sort (fl_bctl l))))%nat ->
  (forall d b, d ∈ map_data (bctl_sort (fl_bctl l)) ->
               eblob_check_record b d = 0) ->
  fl_removed l =
    s64 (r0 + Z.of_nat (length (removed_records
                             (take idx (map_data (bctl_sort (fl_bctl l))))))) ->
  fl_removed_size l =
    s64 (s0 + disk_size_sum (removed_records
                          (take idx (map_data (bctl_sort (fl_bctl l)))))) ->
  let m := Nat.min (idx + n) (length (map_data (bctl_sort (fl_bctl l)))) in
  fl_removed l' =
    s64 (r0 + Z.of_nat (length (removed_records
                             (take m (map_data (bctl_sort (fl_bctl l))))))) /\
  fl_removed_size l' =
    s64 (s0 + disk_size_sum (removed_records
                          (take m (map_data (bctl_sort (fl_bctl l)))))).
Proof.
  pose proof sizeof_disk_control_pos as Hsz.
  induction n as [|n IH]; intros i l l' idx r0 s0 Hrun Hmap Hoff Hidx Hsound Hr Hs m.
  - cbn in Hrun. injection Hrun as <-. unfold m.
    replace (Nat.min (idx + 0) _) with idx by lia. auto.
  - cbn [fill_block_records] in Hrun. rewrite Hmap, Hoff in Hrun.
    destruct (Z.ltb_spec (sizeof_disk_control * Z.of_nat idx)
                (sizeof_disk_control *
                 Z.of_nat (length (map_data (bctl_sort (fl_bctl l))))))
      as [Hlt|Hge].
    + assert (Hin : (idx < length (map_data (bctl_sort (fl_bctl l))))%nat) by nia.
      destruct (lookup_lt_is_Some_2 _ idx Hin) as [d Hd].
      rewrite (pread_whole _ _ _ Hmap Hd) in Hrun.
      destruct (pread_errno _ _); cbn [mbind outcome_bind] in Hrun;
        [discriminate|].
      rewrite (Hsound d _ (list_elem_of_lookup_2 _ _ _ Hd)) in Hrun.
      cbn [Z.eqb negb] in Hrun.
      match type of Hrun with
      | context [mbind _ ?c] => destruct c as [l2|] eqn:Hl2
      end; [|discriminate].
      cbn [mbind outcome_bind] in Hrun.
      assert (Hl2' : bctl_sort (fl_bctl l2) = bctl_sort (fl_bctl l) /\
                     fl_offset l2 = fl_offset l /\
                     fl_removed l2 =
                       s64 (r0 + Z.of_nat (length (removed_records
                              (take (S idx) (map_data (bctl_sort (fl_bctl l))))))) /\
                     fl_removed_size l2 =
                       s64 (s0 + disk_size_sum (removed_records
                              (take (S idx) (map_data (bctl_sort (fl_bctl l))))))).
      { rewrite (take_S_r _ _ _ Hd), removed_records_snoc.
        destruct (flag_set (dc_flags d) (eblob_bswap64 BLOB_DISK_CTL_REMOVE)).
        - cbn [mret outcome_ret] in Hl2. injection Hl2 as <-.
          rewrite length_app, disk_size_sum_snoc. cbn [length].
          assert (Hr' : s64 (fl_removed l + 1) =
                        s64 (r0 + Z.of_nat (length (removed_records
                               (take idx (map_data (bctl_sort (fl_bctl l)))))
                             + 1)%nat))
            by (rewrite Hr, s64_add_l; f_equal; lia).
          assert (Hs' : s64 (fl_removed_size l + dc_disk_size d) =
                        s64 (s0 + (disk_size_sum (removed_records
                               (take idx (map_data (bctl_sort (fl_bctl l)))))
                             + dc_disk_size d)))
            by (rewrite Hs, s64_add_l; f_equal; lia).
          destruct (i =? 0);
            (split; [reflexivity|split; [reflexivity|split]]);
            [exact Hr'|exact Hs'|exact Hr'|exact Hs'].
        - destruct (eblob_bloom_set _ (dc_key d)) as [b2|] eqn:Hset;
            [|discriminate].
          cbn [mret outcome_ret mbind outcome_bind] in Hl2.
          injection Hl2 as <-.
          apply eblob_bloom_set_frame in Hset as [bits ->].
          rewrite app_nil_r.
          destruct (i =? 0);
            (split; [reflexivity|split; [reflexivity|split]]); assumption. }
      destruct Hl2' as (Hs2 & Ho2 & Hr2 & Hz2).
      apply (IH _ _ _ (S idx) r0 s0) in Hrun;
        cbn [fl_advance fl_bctl fl_offset fl_removed fl_removed_size];
        rewrite ?Hs2; auto; [|rewrite Ho2, Hoff; lia].
      cbn [fl_advance fl_bctl] in Hrun. cbn zeta in Hrun.
      rewrite Hs2 in Hrun. unfold m.
      replace (idx + S n)%nat with (S idx + n)%nat by lia. exact Hrun.
    + injection Hrun as <-. unfold m.
      replace (Nat.min (idx + S n) _) with idx by nia. auto.
Qed.

Lemma fill_blocks_removed (fuel : nat) :
  forall (l l' : fill_locals) (K : nat) (r0 s0 : Z),
  let data := map_data (bctl_sort (fl_bctl l)) in
  let per := Z.to_nat (index_block_size (back_cfg (fl_bctl l))) in
  fill_blocks fuel l = Ok (FillNext l') ->
  map_size (bctl_sort (fl_bctl l)) =
    sizeof_disk_control * Z.of_nat (length data) ->
  0 < index_block_size (back_cfg (fl_bctl l)) ->
  fl_offset l = sizeof_disk_control * Z.of_nat (Nat.min (K * per) (length data)) ->
  (forall d b, d ∈ data -> eblob_check_record b d = 0) ->
  fl_removed l =
    s64 (r0 + Z.of_nat (length (removed_records
                             (take (Nat.min (K * per) (length data)) data)))) ->
  fl_removed_size l =
    s64 (s0 + disk_size_sum (removed_records
                          (take (Nat.min (K * per) (length data)) data))) ->
  fl_removed l' = s64 (r0 + Z.of_nat (length (removed_records data))) /\
  fl_removed_size l' = s64 (s0 + disk_size_sum (removed_records data)).
Proof.
  pose proof sizeof_disk_control_pos as Hsz.
  induction fuel as [|fuel IH];
    intros l l' K r0 s0 data per Hrun Hmap Hibs Hoff Hsound Hr Hs;
    cbn [fill_blocks] in Hrun;
    (destruct (Z.ltb_spec (fl_offset l) (map_size (bctl_sort (fl_bctl l))))
       as [Hlt|Hge];
     [|injection Hrun as <-; fold data in Hmap; rewrite Hmap, Hoff in Hge;
       rewrite take_ge in Hr, Hs by nia; auto]);
    [discriminate|].
  fold data in Hmap.
  assert (Hin : (K * per < length data)%nat)
    by (rewrite Hmap, Hoff in Hlt; nia).
  rewrite Nat.min_l in Hoff, Hr, Hs by lia.
  destruct (index_blocks_get _ _); [|discriminate].
  match type of Hrun with
  | context [mbind _ ?c] => destruct c as [[l2|err l2]|] eqn:Hrec
  end; cbn [mbind outcome_bind] in Hrun; try discriminate.
  pose proof (fill_block_records_exit _ _ _ _ Hrec) as Hfr.
  pose proof (fill_block_records_checked _ _ _ _ (K * per)%nat Hrec) as Hchk.
  pose proof (fill_block_records_removed _ _ _ _ (K * per)%nat r0 s0 Hrec)
    as Hrem.
  cbn [fl_set_bctl fl_next_block fl_bctl fl_block fl_block_id fl_offset fl_dc
       fl_err_count fl_removed fl_removed_size store_block set_index_blocks
       bctl_sort back_cfg bctl_stat]
    in Hfr, Hchk, Hrem.
  fold data per in Hchk, Hrem.
  specialize (Hchk Hmap Hoff ltac:(lia)).
  specialize (Hrem Hmap Hoff ltac:(lia) Hsound Hr Hs).
  destruct Hchk as (Ho2 & _). destruct Hrem as [Hr2 Hs2].
  destruct Hfr as (Hsf & Hc & _). cbn in Hsf, Hc.
  apply (IH _ _ (S K) r0 s0) in Hrun;
    cbn [fl_set_bctl fl_bctl fl_offset fl_removed fl_removed_size store_block
         set_index_blocks bctl_sort back_cfg bctl_stat] in Hrun |- *;
    rewrite ?Hsf, ?Hc; fold data per; auto.
  - rewrite Hsf in Hrun. exact Hrun.
  - rewrite Ho2. do 3 f_equal. lia.
  - rewrite Hr2. do 6 f_equal. lia.
  - rewrite Hs2. do 5 f_equal. lia.
Qed.

(** ** The unsound records the builder skips *)

Lemma unsound_records_snoc (b : eblob_base_ctl)
    (l : list eblob_disk_control) (d : eblob_disk_control) :
  unsound_records b (l ++ [d]) =
  unsound_records b l ++
  (if negb (eblob_check_record b d =? 0) then [d] else []).
Proof.
  unfold unsound_records. rewrite List.filter_app. reflexivity.
Qed.

Lemma fill_block_records_unsound (b0 : eblob_base_ctl) (n : nat) :
  forall (i : Z) (l l' : fill_locals) (idx : nat) (e0 : Z),
  fill_block_records n i l = Ok (FillNext l') ->
  bctl_sort (fl_bctl l) = bctl_sort b0 ->
  back_cfg (fl_bctl l) = back_cfg b0 ->
  map_size (bctl_sort b0) =
    sizeof_disk_control * Z.of_nat (length (map_data (bctl_sort b0))) ->
  fl_offset l = sizeof_disk_control * Z.of_nat idx ->
  (idx <= length (map_data (bctl_sort b0)))%nat ->
  (forall d b, d ∈ map_data (bctl_sort b0) ->
               bctl_sort b = bctl_sort b0 -> back_cfg b = back_cfg b0 ->
               eblob_check_record b d = eblob_check_record b0 d) ->
  fl_err_count l =
    e0 + Z.of_nat (length (unsound_records b0
                             (take idx (map_data (bctl_sort b0))))) ->
  fl_err_count l' =
    e0 + Z.of_nat (length (unsound_records b0
            (take (Nat.min (idx + n) (length (map_data (bctl_sort b0))))
                  (map_data (bctl_sort b0))))).
Proof.
  pose proof sizeof_disk_control_pos as Hsz.
  induction n as [|n IH];
    intros i l l' idx e0 Hrun Hs0 Hc0 Hmap Hoff Hidx Hind He.
  - cbn in Hrun. injection Hrun as <-.
    replace (Nat.min (idx + 0) _) with idx by lia. exact He.
  - cbn [fill_block_records] in Hrun. rewrite Hs0, Hmap, Hoff in Hrun.
    destruct (Z.ltb_spec (sizeof_disk_control * Z.of_nat idx)
                (sizeof_disk_control *
                 Z.of_nat (length (map_data (bctl_sort b0)))))
      as [Hlt|Hge].
    2:{ injection Hrun as <-.
        replace (Nat.min (idx + S n) _) with idx by nia. exact He. }
    assert (Hin : (idx < length (map_data (bctl_sort b0)))%nat) by nia.
    destruct (lookup_lt_is_Some_2 _ idx Hin) as [d Hd].
    rewrite (pread_whole _ _ _ Hmap Hd) in Hrun.
    destruct (pread_errno _ _); cbn [mbind outcome_bind] in Hrun;
      [discriminate|].
    assert (Hstep : forall l2,
      bctl_sort (fl_bctl l2) = bctl_sort b0 ->
      back_cfg (fl_bctl l2) = back_cfg b0 ->
      fl_offset l2 = fl_offset l ->
      fl_err_count l2 =
        e0 + Z.of_nat (length (unsound_records b0
                                 (take (S idx) (map_data (bctl_sort b0))))) ->
      fill_block_records n (i + 1) (fl_advance l2) = Ok (FillNext l') ->
      fl_err_count l' =
        e0 + Z.of_nat (length (unsound_records b0
                (take (Nat.min (idx + S n) (length (map_data (bctl_sort b0))))
                      (map_data (bctl_sort b0)))))).
    { intros l2 Hs2 Hc2 Ho2 He2 Hrec.
      apply (IH _ _ _ (S idx) e0) in Hrec;
        cbn [fl_advance fl_bctl fl_offset fl_err_count]; auto;
        [|rewrite Ho2, Hoff; lia].
      replace (idx + S n)%nat with (S idx + n)%nat by lia. exact Hrec. }
    assert (Hv : eblob_check_record (fl_bctl (fl_set_dc d l)) d =
                 eblob_check_record b0 d).
    { apply Hind; [eapply list_elem_of_lookup_2; exact Hd|exact Hs0|exact Hc0]. }
    rewrite Hv in Hrun.
    pose proof (unsound_records_snoc b0 (take idx (map_data (bctl_sort b0))) d)
      as Hsnoc.
    rewrite <- (take_S_r _ _ _ Hd) in Hsnoc.
    destruct (eblob_check_record b0 d =? 0); cbn [negb] in Hrun, Hsnoc.
    + rewrite app_nil_r in Hsnoc.
      match type of Hrun with
      | context [mbind _ ?c] => destruct c as [l2|] eqn:Hl2
      end; [|discriminate].
      cbn [mbind outcome_bind] in Hrun.
      refine (Hstep l2 _ _ _ _ Hrun); rewrite ?Hsnoc;
        (destruct (flag_set (dc_flags d) (eblob_bswap64 BLOB_DISK_CTL_REMOVE));
         [injection Hl2 as <-; destruct (i =? 0);
          first [reflexivity | assumption]|]);
        (match type of Hl2 with
         | context [eblob_bloom_set ?b ?k] =>
             destruct (eblob_bloom_set b k) as [b2|] eqn:Hset; [|discriminate]
         end);
        cbn [mbind outcome_bind] in Hl2; injection Hl2 as <-;
        apply eblob_bloom_set_frame in Hset as [bits ->];
        destruct (i =? 0); first [reflexivity | assumption].
    + match type of Hrun with
      | (if ?c then _ else _) = _ => destruct c
      end; [discriminate|].
      refine (Hstep _ _ _ _ _ Hrun); rewrite ?Hsnoc; try assumption;
        [reflexivity|].
      cbn [fl_inc_err_count fl_set_bctl fl_set_dc fl_err_count].
      rewrite He, length_app. cbn [length]. lia.
Qed.

Lemma fill_blocks_unsound (b0 : eblob_base_ctl) (fuel : nat) :
  forall (l l' : fill_locals) (K : nat) (e0 : Z),
  let data := map_data (bctl_sort b0) in
  let per := Z.to_nat (index_block_size (back_cfg b0)) in
  fill_blocks fuel l = Ok (FillNext l') ->
  bctl_sort (fl_bctl l) = bctl_sort b0 ->
  back_cfg (fl_bctl l) = back_cfg b0 ->
  map_size (bctl_sort b0) = sizeof_disk_control * Z.of_nat (length data) ->
  0 < index_block_size (back_cfg b0) ->
  fl_offset l = sizeof_disk_control * Z.of_nat (Nat.min (K * per) (length data)) ->
  (forall d b, d ∈ data ->
               bctl_sort b = bctl_sort b0 -> back_cfg b = back_cfg b0 ->
               eblob_check_record b d = eblob_check_record b0 d) ->
  fl_err_count l =
    e0 + Z.of_nat (length (unsound_records b0
                             (take (Nat.min (K * per) (length data)) data))) ->
  fl_err_count l' = e0 + Z.of_nat (length (unsound_records b0 data)).
Proof.
  pose proof sizeof_disk_control_pos as Hsz.
  induction fuel as [|fuel IH];
    intros l l' K e0 data per Hrun Hs0 Hc0 Hmap Hibs Hoff Hind He;
    cbn [fill_blocks] in Hrun;
    (destruct (Z.ltb_spec (fl_offset l) (map_size (bctl_sort (fl_bctl l))))
       as [Hlt|Hge];
     [|injection Hrun as <-; rewrite Hs0, Hmap, Hoff in Hge;
       rewrite take_ge in He by nia; exact He]);
    [discriminate|].
  rewrite Hs0 in Hlt.
  assert (Hin : (K * per < length data)%nat)
    by (rewrite Hmap, Hoff in Hlt; nia).
  rewrite Nat.min_l in Hoff, He by lia.
  destruct (index_blocks_get _ _); [|discriminate].
  match type of Hrun with
  | context [mbind _ ?c] => destruct c as [[l2|err l2]|] eqn:Hrec
  end; cbn [mbind outcome_bind] in Hrun; try discriminate.
  pose proof (fill_block_records_exit _ _ _ _ Hrec) as Hfr.
  pose proof (fill_block_records_aligned _ _ _ _ (K * per)%nat Hrec) as Hal.
  pose proof (fill_block_records_checked _ _ _ _ (K * per)%nat Hrec) as Hchk.
  pose proof (fill_block_records_unsound b0 _ _ _ _ (K * per)%nat e0 Hrec)
    as Hun.
  cbn [fl_set_bctl fl_next_block fl_bctl fl_block fl_block_id fl_offset fl_dc
       fl_err_count fl_removed fl_removed_size store_block set_index_blocks
       bctl_sort back_cfg bctl_stat]
    in Hfr, Hchk, Hun, Hal.
  rewrite Hs0, Hc0 in Hchk. fold data per in Hchk, Hun.
  specialize (Hchk Hmap Hoff ltac:(lia)).
  specialize (Hun Hs0 Hc0 Hmap Hoff ltac:(lia) Hind He).
  destruct Hchk as (Ho2 & _).
  destruct Hfr as (Hsf & Hc & _). cbn in Hsf, Hc.
  refine (IH _ _ (S K) e0 Hrun _ _ Hmap Hibs _ Hind _);
    cbn [fl_set_bctl fl_bctl fl_offset fl_err_count store_block
         set_index_blocks bctl_sort back_cfg bctl_stat]; fold data per.
  - congruence.
  - congruence.
  - rewrite Ho2. do 2 f_equal. lia.
  - rewrite Hun, Hc0. fold per. do 5 f_equal. lia.
Qed.

(** ** The builder, seen from its caller *)

(** Property X4.  Whatever [eblob_index_blocks_fill] returns, it has not
    touched the sorted mapping, the configuration, the number of the base or
    its index descriptor, and [bloom_size] holds the size [eblob_bloom_size]
    computed. *)
Theorem eblob_index_blocks_fill_keeps_mapping
    (calloc_ok : nat -> bool) (bctl bctl' : eblob_base_ctl) (err : Z) :
  eblob_index_blocks_fill calloc_ok bctl = Ok (err, bctl') ->
  bctl_sort bctl' = bctl_sort bctl /\
  back_cfg bctl' = back_cfg bctl /\
  bctl_index bctl' = bctl_index bctl /\
  index_fd bctl' = index_fd bctl /\
  eblob_bloom_size bctl = Ok (bloom_size bctl').
Proof.
  unfold eblob_index_blocks_fill.
  destruct (eblob_bloom_size bctl) as [bsize|]; [|discriminate].
  cbn [mbind outcome_bind].
  destruct (eblob_bloom_func_num _) as [fnum|]; [|discriminate].
  cbn [mbind outcome_bind].
  destruct (calloc_ok 0%nat); cbn [bloom set_bloom].
  2:{ intros [= <- <-]. repeat split. }
  destruct (howmany _ _) as [block_count|]; [|discriminate].
  cbn [mbind outcome_bind].
  destruct (calloc_ok 1%nat); cbn [index_blocks set_index_blocks].
  2:{ intros [= <- <-]. repeat split. }
  match goal with
  | |- context [mbind _ ?c] => destruct c as [[l|e l]|] eqn:Hloop
  end; cbn [mbind outcome_bind]; try discriminate.
  - intros [= <- <-]. apply fill_blocks_exit in Hloop.
    destruct Hloop as (Hs & Hc & Hi & Hfd & Hb & _). cbn in Hs, Hc, Hi, Hfd, Hb.
    cbn. rewrite Hs, Hc, Hi, Hfd, Hb. repeat split.
  - intros [= <- <-]. apply fill_blocks_exit in Hloop.
    destruct Hloop as [(Hs & Hc & Hi & Hfd & Hb & _) _].
    cbn in Hs, Hc, Hi, Hfd, Hb.
    cbn. rewrite Hs, Hc, Hi, Hfd, Hb. repeat split.
Qed.

(** Property X5.  A nonzero return of [eblob_index_blocks_fill] is [-ENOMEM]
    for the block array that could not be allocated, or it comes from the
    loop over the records: the verdict of [eblob_check_record] on a record
    of the sorted index, [-errno] of a [pread] that failed, or the count of
    a short [pread], the number of bytes the sorted file has after its last
    whole record.  After a return from the loop the block table and the
    Bloom array are gone and their two size counters are 0. *)
Theorem eblob_index_blocks_fill_failure
    (calloc_ok : nat -> bool) (bctl bctl' : eblob_base_ctl) (err : Z) :
  eblob_index_blocks_fill calloc_ok bctl = Ok (err, bctl') ->
  err <> 0 ->
  (err = - ENOMEM /\ calloc_ok 1%nat = false /\ index_blocks bctl' = None) \/
  (index_blocks bctl' = None /\ bloom bctl' = None /\
   LST_BLOOM_SIZE (bctl_stat bctl') = 0 /\
   LST_INDEX_BLOCKS_SIZE (bctl_stat bctl') = 0 /\
   ((exists p d b,
       dc_at (bctl_sort bctl) p = Some d /\
       bctl_sort b = bctl_sort bctl /\ back_cfg b = back_cfg bctl /\
       err = eblob_check_record b d) \/
    (exists p e,
       pread_errno (map_fd (bctl_sort bctl)) p = Some e /\ err = - Z.pos e) \/
    (err = map_size (bctl_sort bctl) mod sizeof_disk_control /\ 0 < err))).
Proof.
  unfold eblob_index_blocks_fill.
  destruct (eblob_bloom_size bctl) as [bsize|]; [|discriminate].
  cbn [mbind outcome_bind].
  destruct (eblob_bloom_func_num _) as [fnum|]; [|discriminate].
  cbn [mbind outcome_bind].
  destruct (calloc_ok 0%nat); cbn [bloom set_bloom].
  2:{ intros [= <- <-] E. contradiction. }
  destruct (howmany _ _) as [block_count|]; [|discriminate].
  cbn [mbind outcome_bind].
  destruct (calloc_ok 1%nat); cbn [index_blocks set_index_blocks].
  2:{ intros [= <- <-] _. left. repeat split. }
  match goal with
  | |- context [mbind _ ?c] => destruct c as [[l|e l]|] eqn:Hloop
  end; cbn [mbind outcome_bind]; try discriminate.
  - intros [= <- <-] E. contradiction.
  - intros [= <- <-] E. right. apply fill_blocks_exit in Hloop.
    destruct Hloop as [_ Hwhy]. cbn [fl_offset fl_bctl] in Hwhy.
    split; [reflexivity|]. split; [reflexivity|]. split; [reflexivity|].
    split; [reflexivity|].
    destruct Hwhy as [(p & d & b & Hd & Hs & Hc & He & _)|[Hio|Hshort]];
      [exists 0; lia| | |].
    + left. exists p, d, b. auto.
    + right. left. exact Hio.
    + right. right. exact Hshort.
Qed.

(** Property X6.  On a base without records, or with [index_block_size = 0],
    the sizing of the Bloom filter divides by zero before anything is
    allocated. *)
Theorem eblob_index_blocks_fill_empty_index_traps
    (calloc_ok : nat -> bool) (bctl : eblob_base_ctl) :
  map_size (bctl_sort bctl) / sizeof_disk_control = 0 \/
  index_block_size (back_cfg bctl) = 0 ->
  eblob_index_blocks_fill calloc_ok bctl = Fault DivideByZero.
Proof.
  intros Hz. unfold eblob_index_blocks_fill, eblob_bloom_size, udiv.
  destruct (Z.eqb_spec (index_block_size (back_cfg bctl)) 0) as [|Hnz];
    [reflexivity|].
  destruct Hz as [Hz|]; [|contradiction].
  cbn [mbind outcome_bind mret outcome_ret].
  unfold eblob_bloom_func_num, udiv. cbn [bctl_sort set_bloom_size].
  rewrite Hz. reflexivity.
Qed.

(** Property X7.  After a successful build the block array has one block for
    every [index_block_size] records, the last one possibly shorter; block
    [k] starts at record [k * index_block_size], ends before the first
    record of block [k + 1] or at the end of the mapping, and carries the
    keys of its first and of its last record.  [LST_INDEX_BLOCKS_SIZE] is
    the size of the array in bytes. *)
Theorem eblob_index_blocks_fill_tiles
    (calloc_ok : nat -> bool) (bctl bctl' : eblob_base_ctl)
    (arr : list eblob_index_block) :
  eblob_index_blocks_fill calloc_ok bctl = Ok (0, bctl') ->
  index_blocks bctl = None ->
  index_blocks bctl' = Some arr ->
  0 < index_block_size (back_cfg bctl) ->
  map_size (bctl_sort bctl) =
    sizeof_disk_control * Z.of_nat (length (map_data (bctl_sort bctl))) ->
  Z.of_nat (length arr) =
    (Z.of_nat (length (map_data (bctl_sort bctl))) +
     (index_block_size (back_cfg bctl) - 1)) / index_block_size (back_cfg bctl) /\
  LST_INDEX_BLOCKS_SIZE (bctl_stat bctl') =
    Z.of_nat (length arr) * sizeof_index_block /\
  forall k b, arr !! k = Some b ->
    block_tiles (map_data (bctl_sort bctl))
      (Z.to_nat (index_block_size (back_cfg bctl))) k b.
Proof.
  intros Hfill Hnone Harr Hibs Hmap.
  destruct (eblob_index_blocks_fill_built _ _ _ _ Hfill Hnone Harr Hibs Hmap)
    as (_ & _ & _ & _ & Hst & Hhi & Hlo & Htiles & _).
  split; [|split; [exact Hst|exact Htiles]].
  apply Z.div_unique with
    (r := Z.of_nat (length (map_data (bctl_sort bctl))) +
          (index_block_size (back_cfg bctl) - 1) -
          index_block_size (back_cfg bctl) * Z.of_nat (length arr)); nia.
Qed.

(** Property X8.  After a successful build every record of the index lies in
    the byte range of exactly one block, block number [j / index_block_size]
    for record [j]. *)
Theorem eblob_index_blocks_fill_covers_every_record
    (calloc_ok : nat -> bool) (bctl bctl' : eblob_base_ctl)
    (arr : list eblob_index_block) (j : nat) (d : eblob_disk_control) :
  eblob_index_blocks_fill calloc_ok bctl = Ok (0, bctl') ->
  index_blocks bctl = None ->
  index_blocks bctl' = Some arr ->
  0 < index_block_size (back_cfg bctl) ->
  map_size (bctl_sort bctl) =
    sizeof_disk_control * Z.of_nat (length (map_data (bctl_sort bctl))) ->
  map_data (bctl_sort bctl) !! j = Some d ->
  forall k b, arr !! k = Some b ->
    (start_offset b <= sizeof_disk_control * Z.of_nat j < end_offset b <->
     k = (j / Z.to_nat (index_block_size (back_cfg bctl)))%nat).
Proof.
  pose proof sizeof_disk_control_pos as Hsz.
  intros Hfill Hnone Harr Hibs Hmap Hj k b Hb.
  destruct (eblob_index_blocks_fill_built _ _ _ _ Hfill Hnone Harr Hibs Hmap)
    as (_ & _ & _ & _ & _ & Hhi & Hlo & Htiles & _).
  destruct (Htiles k b Hb) as (Hlt & -> & -> & _).
  apply lookup_lt_Some in Hj.
  set (per := Z.to_nat (index_block_size (back_cfg bctl))) in *.
  assert (Hper : (per <> 0)%nat) by (unfold per; lia).
  pose proof (Nat.Div0.mul_div_le j per) as Hdl.
  pose proof (Nat.mul_succ_div_gt j per Hper) as Hdh.
  split.
  - intros [H1 H2].
    assert (Hkj : (k * per <= j < (k + 1) * per)%nat) by nia.
    apply Nat.div_unique with (r := (j - k * per)%nat); lia.
  - intros ->. split; [nia|].
    apply Z.mul_lt_mono_pos_l; [lia|]. apply Nat2Z.inj_lt. lia.
Qed.

(** Property X9.  After a successful build the Bloom filter answers yes for
    the key of every live record of the index that [eblob_check_record]
    accepts: the filter has no false negative. *)
Theorem eblob_index_blocks_fill_bloom_holds_live_keys
    (calloc_ok : nat -> bool) (bctl bctl' : eblob_base_ctl)
    (arr : list eblob_index_block) (j : nat) (d : eblob_disk_control) :
  eblob_index_blocks_fill calloc_ok bctl = Ok (0, bctl') ->
  index_blocks bctl = None ->
  index_blocks bctl' = Some arr ->
  0 < index_block_size (back_cfg bctl) ->
  map_size (bctl_sort bctl) =
    sizeof_disk_control * Z.of_nat (length (map_data (bctl_sort bctl))) ->
  map_data (bctl_sort bctl) !! j = Some d ->
  (forall b, eblob_check_record b d = 0) ->
  live_record d ->
  eblob_bloom_get bctl' (dc_key d) = Ok true.
Proof.
  intros Hfill Hnone Harr Hibs Hmap Hj Hsound Hlive.
  destruct (eblob_index_blocks_fill_built _ _ _ _ Hfill Hnone Harr Hibs Hmap)
    as (_ & _ & _ & _ & _ & _ & _ & _ & Hbloom).
  exact (Hbloom j d Hj Hsound Hlive).
Qed.

(** ** The comparators *)

(** Property X2.  For a block whose start key is not above its end key,
    [eblob_key_range_cmp] returns -1 exactly for the keys below the start
    key, 0 exactly for the keys of the closed range and 1 exactly for the
    keys above the end key. *)
Theorem eblob_key_range_cmp_classifies (key : eblob_key)
    (b : eblob_index_block) :
  eblob_id_cmp (start_key b) (end_key b) <= 0 ->
  (eblob_key_range_cmp key b = -1 <-> eblob_id_cmp key (start_key b) < 0) /\
  (eblob_key_range_cmp key b = 0 <-> key_in_block key b) /\
  (eblob_key_range_cmp key b = 1 <-> 0 < eblob_id_cmp key (end_key b)).
Proof.
  intros Hse.
  assert (Hval : eblob_key_range_cmp key b = -1 \/
                 eblob_key_range_cmp key b = 0 \/
                 eblob_key_range_cmp key b = 1).
  { unfold eblob_key_range_cmp. repeat case_match; auto. }
  pose proof (eblob_key_range_cmp_neg key b) as Hneg.
  pose proof (eblob_key_range_cmp_pos key b) as Hpos.
  assert (Hin : eblob_key_range_cmp key b = 0 <-> key_in_block key b).
  { split; [apply eblob_key_range_cmp_zero, Hse
           |apply eblob_key_range_cmp_inside]. }
  split; [|split; [exact Hin|]].
  - rewrite <- Hneg. lia.
  - split.
    + intros H1. apply Hpos. lia.
    + intros Hgt.
      assert (Hgs : 0 < eblob_id_cmp key (start_key b)).
      { rewrite (eblob_id_cmp_antisym (end_key b) key) in Hgt.
        rewrite (eblob_id_cmp_antisym (start_key b) key).
        pose proof (eblob_id_cmp_le_lt _ _ key Hse ltac:(lia)). lia. }
      destruct Hpos as [_ Hpos]. specialize (Hpos (conj Hgs Hgt)). lia.
Qed.

(** Property X1.  [eblob_disk_control_sort_with_flags] is a consistent
    comparator: swapping the arguments negates the result, and the result is
    0 exactly for two records of one key that are both removed or both live. *)
Theorem eblob_disk_control_sort_with_flags_antisym
    (dc1 dc2 : eblob_disk_control) :
  eblob_disk_control_sort_with_flags dc2 dc1 =
    - eblob_disk_control_sort_with_flags dc1 dc2 /\
  (eblob_disk_control_sort_with_flags dc1 dc2 = 0 <->
   dc_key dc1 = dc_key dc2 /\
   flag_set (dc_flags dc1) BLOB_DISK_CTL_REMOVE =
   flag_set (dc_flags dc2) BLOB_DISK_CTL_REMOVE).
Proof.
  unfold eblob_disk_control_sort_with_flags.
  rewrite (eblob_id_cmp_antisym (dc_key dc1) (dc_key dc2)).
  destruct (Z.eqb_spec (eblob_id_cmp (dc_key dc1) (dc_key dc2)) 0) as [E|N].
  - rewrite E. cbn [Z.opp Z.eqb].
    pose proof (eblob_id_cmp_eq _ _ E) as Hk.
    destruct (flag_set (dc_flags dc1) BLOB_DISK_CTL_REMOVE),
      (flag_set (dc_flags dc2) BLOB_DISK_CTL_REMOVE); cbn;
      (split; [reflexivity|]); split; auto; try discriminate;
      intros [_ ?]; discriminate.
  - destruct (Z.eqb_spec (- eblob_id_cmp (dc_key dc1) (dc_key dc2)) 0);
      [lia|].
    split; [reflexivity|]. split; [contradiction|].
    intros [Hk _]. rewrite Hk, eblob_id_cmp_refl in N. contradiction.
Qed.

(** ** The searcher, seen from its caller *)

(** Property X3.  On a base the builder has filled from an index sorted by
    key, a block that [eblob_index_blocks_search_nolock] selects has the key
    in its range, and a block is selected for every key that the Bloom
    filter admits and a record of the index carries. *)
Theorem eblob_index_blocks_search_nolock_selects_block
    (calloc_ok : nat -> bool) (bctl bctl' : eblob_base_ctl)
    (arr : list eblob_index_block) (dc : eblob_disk_control)
    (st : eblob_disk_search_stat) :
  eblob_index_blocks_fill calloc_ok bctl = Ok (0, bctl') ->
  index_blocks bctl = None ->
  index_blocks bctl' = Some arr ->
  0 < index_block_size (back_cfg bctl) ->
  map_size (bctl_sort bctl) =
    sizeof_disk_control * Z.of_nat (length (map_data (bctl_sort bctl))) ->
  key_sorted (map_data (bctl_sort bctl)) ->
  (forall t st',
     eblob_index_blocks_search_nolock bctl' dc st = Ok (Some t, st') ->
     exists b, arr !! t = Some b /\ key_in_block (dc_key dc) b) /\
  (forall j d,
     map_data (bctl_sort bctl) !! j = Some d -> dc_key d = dc_key dc ->
     eblob_bloom_get bctl' (dc_key dc) = Ok true ->
     exists t st',
       eblob_index_blocks_search_nolock bctl' dc st = Ok (Some t, st')).
Proof.
  intros Hfill Hnone Harr Hibs Hmap Hsorted. split.
  - intros t st'.
    destruct (eblob_index_blocks_fill_built _ _ _ _ Hfill Hnone Harr Hibs Hmap)
      as (_ & _ & _ & _ & _ & _ & _ & Htiles & _).
    unfold eblob_index_blocks_search_nolock,
      eblob_index_blocks_search_nolock_bsearch_nobloom.
    destruct (eblob_bloom_get _ _) as [[|]|]; cbn [mbind outcome_bind negb];
      try discriminate.
    destruct (bsearch eblob_key_range_cmp _ _ _) as [[t'|]|] eqn:Hbs;
      cbn [mbind outcome_bind mret outcome_ret]; try discriminate.
    intros [= <- _]. apply bsearch_hit in Hbs as (b & Hb & Hcmp & _).
    unfold index_blocks_get in Hb. rewrite Harr in Hb.
    exists b. split; [exact Hb|].
    apply eblob_key_range_cmp_zero; [|exact Hcmp].
    eapply block_tiles_ordered; [exact Hsorted| |exact (Htiles t' b Hb)]. lia.
  - intros j d Hj Hkey Hbloom.
    destruct (fill_then_block_search _ _ _ _ (dc_key dc) j d
                Hfill Hnone Harr Hibs Hmap Hsorted Hj Hkey)
      as (t & b & Hbs & _).
    unfold eblob_index_blocks_search_nolock,
      eblob_index_blocks_search_nolock_bsearch_nobloom.
    rewrite Hbloom. cbn [mbind outcome_bind negb]. rewrite Hbs.
    cbn. eauto.
Qed.

(** Property X13.  What [eblob_find_on_disk] returns is the byte offset of a
    record of the sorted mapping that has the key searched for and that the
    callback accepts. *)
Theorem eblob_find_on_disk_returns_accepted_record
    (cfg : eblob_config) (bctl : eblob_base_ctl) (dc : eblob_disk_control)
    (callback : eblob_disk_control -> eblob_disk_control -> bool)
    (p : Z) (st st' : eblob_disk_search_stat) :
  eblob_find_on_disk cfg bctl dc callback st = Ok (Some p, st') ->
  exists n r,
    p = sizeof_disk_control * Z.of_nat n /\
    map_data (bctl_sort bctl) !! n = Some r /\
    dc_key r = dc_key dc /\ callback r dc = true.
Proof.
  intros Hfind. apply eblob_find_on_disk_sound in Hfind as (r & Hr & Hk & Hcb).
  apply dc_at_Some in Hr as [Hp Hr]. apply eblob_id_cmp_eq in Hk.
  exists (Z.to_nat (p / sizeof_disk_control)), r. auto.
Qed.

(** Property X14.  On a base the builder has filled from an index sorted by
    key, [eblob_find_on_disk] finds a record for every key that the Bloom
    filter admits and for which the index holds a record the callback
    accepts; the record found has the key and is accepted. *)
Theorem eblob_find_on_disk_finds_accepted_record
    (calloc_ok : nat -> bool) (bctl bctl' : eblob_base_ctl)
    (arr : list eblob_index_block) (dc : eblob_disk_control)
    (callback : eblob_disk_control -> eblob_disk_control -> bool)
    (j : nat) (d : eblob_disk_control) (st : eblob_disk_search_stat) :
  eblob_index_blocks_fill calloc_ok bctl = Ok (0, bctl') ->
  index_blocks bctl = None ->
  index_blocks bctl' = Some arr ->
  0 < index_block_size (back_cfg bctl) ->
  map_size (bctl_sort bctl) =
    sizeof_disk_control * Z.of_nat (length (map_data (bctl_sort bctl))) ->
  map_size (bctl_sort bctl) < 2 ^ 64 ->
  key_sorted (map_data (bctl_sort bctl)) ->
  eblob_bloom_get bctl' (dc_key dc) = Ok true ->
  map_data (bctl_sort bctl) !! j = Some d ->
  dc_key d = dc_key dc -> callback d dc = true ->
  exists p r st',
    eblob_find_on_disk (back_cfg bctl) bctl' dc callback st = Ok (Some p, st') /\
    dc_at (bctl_sort bctl) p = Some r /\
    dc_key r = dc_key dc /\ callback r dc = true.
Proof.
  intros Hfill Hnone Harr Hibs Hmap Hsmall Hsorted Hbloom Hj Hkey Hcb.
  destruct (fill_then_find calloc_ok bctl bctl' arr dc callback j d st)
    as (p & st' & Hp); auto.
  pose proof (eblob_index_blocks_fill_built _ _ _ _ Hfill Hnone Harr Hibs Hmap)
    as (Hs & _).
  pose proof Hp as Hfound.
  apply eblob_find_on_disk_sound in Hfound as (r & Hr & Hk & Hcbr).
  rewrite Hs in Hr. apply eblob_id_cmp_eq in Hk.
  exists p, r, st'. auto.
Qed.

(** Property X15.  Build, then search: on a base the builder has filled from
    an index sorted by key, the search for the key of a live record that
    [eblob_check_record] accepts returns a live record of that key. *)
Theorem eblob_find_on_disk_finds_live_record
    (calloc_ok : nat -> bool) (bctl bctl' : eblob_base_ctl)
    (arr : list eblob_index_block)
    (j : nat) (d : eblob_disk_control) (st : eblob_disk_search_stat) :
  eblob_index_blocks_fill calloc_ok bctl = Ok (0, bctl') ->
  index_blocks bctl = None ->
  index_blocks bctl' = Some arr ->
  0 < index_block_size (back_cfg bctl) ->
  map_size (bctl_sort bctl) =
    sizeof_disk_control * Z.of_nat (length (map_data (bctl_sort bctl))) ->
  map_size (bctl_sort bctl) < 2 ^ 64 ->
  key_sorted (map_data (bctl_sort bctl)) ->
  map_data (bctl_sort bctl) !! j = Some d ->
  (forall b, eblob_check_record b d = 0) ->
  live_record d ->
  exists p r st',
    eblob_find_on_disk (back_cfg bctl) bctl' (mk_dc (dc_key d) 0 0 0 0)
      eblob_find_non_removed_callback st = Ok (Some p, st') /\
    dc_at (bctl_sort bctl) p = Some r /\
    dc_key r = dc_key d /\ live_record r.
Proof.
  intros Hfill Hnone Harr Hibs Hmap Hsmall Hsorted Hj Hsound Hlive.
  destruct (eblob_index_blocks_fill_built _ _ _ _ Hfill Hnone Harr Hibs Hmap)
    as (Hs & _ & _ & _ & _ & _ & _ & _ & Hbloom).
  destruct (fill_then_find calloc_ok bctl bctl' arr (mk_dc (dc_key d) 0 0 0 0)
              eblob_find_non_removed_callback j d st)
    as (p & st' & Hp); auto.
  - exact (Hbloom j d Hj Hsound Hlive).
  - unfold eblob_find_non_removed_callback. apply negb_true_iff, Hlive.
  - pose proof Hp as Hfound.
    apply eblob_find_on_disk_sound in Hfound as (r & Hr & Hk & Hcb).
    rewrite Hs in Hr. apply eblob_id_cmp_eq in Hk.
    exists p, r, st'. repeat split; auto. apply negb_true_iff, Hcb.
Qed.

(** ** The generator, seen from its caller *)

(** Property X17.  [eblob_generate_sorted_index] changes the base only when
    it returns 0, and then only the sorted mapping.  For an index file that
    is not empty the mapping it publishes has the descriptor [open]
    returned, which is not negative, and the size [fstat] gave for the
    index file, whether or not that is a whole number of records.  Its
    records are the whole records of the file, [st_size / sizeof (struct
    eblob_disk_control)] of them, in the order of their keys. *)
Theorem eblob_generate_sorted_index_all_or_nothing
    (io : sort_io) (bctl bctl' : eblob_base_ctl) (err : Z) :
  eblob_generate_sorted_index io bctl = (err, bctl') ->
  (err <> 0 -> bctl' = bctl) /\
  (exists m, bctl' = set_sort m bctl) /\
  (err = 0 -> 0 < io_st_size io ->
   map_fd (bctl_sort bctl') = io_open io /\
   0 <= map_fd (bctl_sort bctl') /\
   map_size (bctl_sort bctl') = io_st_size io /\
   Z.of_nat (length (map_data (bctl_sort bctl'))) =
     io_st_size io / sizeof_disk_control /\
   (map_data (bctl_sort bctl') ≡ₚ io_index io) /\
   key_sorted (map_data (bctl_sort bctl'))).
Proof.
  intros Hgen.
  assert (Hkeep : bctl = set_sort (bctl_sort bctl) bctl)
    by (destruct bctl; reflexivity).
  split; [|split].
  - intros Herr. unfold eblob_generate_sorted_index in Hgen.
    repeat match type of Hgen with
           | (if ?c then _ else _) = _ => destruct c
           end;
      injection Hgen as Hz Hb; congruence.
  - unfold eblob_generate_sorted_index in Hgen.
    repeat match type of Hgen with
           | (if ?c then _ else _) = _ => destruct c
           end;
      injection Hgen as Hz Hb; subst bctl'; eauto.
  - intros -> Hpos.
    destruct (eblob_generate_sorted_index_published _ _ _ Hgen Hpos)
      as (data & -> & Hfd & Hperm & Hsorted).
    destruct (io_st_size_records io) as (_ & Hrecs & _).
    cbn [bctl_sort set_sort map_fd map_size map_data].
    rewrite (Permutation_length Hperm), Hrecs. auto 10.
Qed.

(** ** The lookup, seen from its caller *)

(** Property X18.  A record [eblob_disk_index_lookup] returns comes with
    error code 0 and describes a live record of the key in a base that was
    valid and had a sorted index at one of the at most twelve passes: the
    number of that base, the offset of the record in the sorted index, and
    the position and size of the data in host byte order. *)
Theorem eblob_disk_index_lookup_sound
    (b : nat -> eblob_backend) (key : eblob_key) (err : Z)
    (rctl : eblob_ram_control) (st : eblob_disk_search_stat) :
  eblob_disk_index_lookup b key = Ok (err, Some rctl, st) ->
  err = 0 /\
  exists pass bctl n r,
    (pass <= 11)%nat /\ bctl ∈ bases (b pass) /\
    0 <= index_fd bctl /\ 0 <= map_fd (bctl_sort bctl) /\
    map_data (bctl_sort bctl) !! n = Some r /\
    dc_key r = key /\ live_record r /\
    rctl = mk_rctl (eblob_bswap64 (dc_position r))
                   (sizeof_disk_control * Z.of_nat n)
                   (eblob_bswap64 (dc_data_size r))
                   (bctl_index bctl).
Proof.
  unfold eblob_disk_index_lookup. intros Hrun.
  apply lookup_again_result in Hrun; [|lia].
  destruct Hrun as [(pass & st0 & Hpass & Hrun)|(_ & ? & _)]; [|discriminate].
  apply lookup_bases_finished in Hrun
    as [[_ ?]|(-> & bctl & n & r & Hin & Hfd & Hmap & Hr & Hk & Hl & Hrc)];
    [discriminate|].
  split; [reflexivity|]. exists pass, bctl, n, r.
  split; [unfold max_tries in Hpass; lia|].
  split; [apply elem_of_rev, Hin|].
  injection Hrc as ->. auto 10.
Qed.

(** Property X19.  [eblob_disk_index_lookup] returns 0 with a record,
    [-ENOENT] without one, or [-EDEADLK] without one; the last only after
    each of twelve passes has met a base whose index descriptor was invalid. *)
Theorem eblob_disk_index_lookup_codes
    (b : nat -> eblob_backend) (key : eblob_key) (err : Z)
    (rctl : option eblob_ram_control) (st : eblob_disk_search_stat) :
  eblob_disk_index_lookup b key = Ok (err, rctl, st) ->
  (err = 0 /\ is_Some rctl) \/
  (err = - ENOENT /\ rctl = None) \/
  (err = - EDEADLK /\ rctl = None /\
   forall pass, (pass <= 11)%nat ->
     exists bctl, bctl ∈ bases (b pass) /\ index_fd bctl < 0).
Proof.
  unfold eblob_disk_index_lookup. intros Hrun.
  apply lookup_again_result in Hrun; [|lia].
  destruct Hrun as [(pass & st0 & Hpass & Hrun)|(-> & -> & Hall)].
  - apply lookup_bases_finished in Hrun
      as [[-> ->]|(-> & bctl & n & r & _ & _ & _ & _ & _ & _ & ->)]; eauto.
  - right. right. split; [reflexivity|]. split; [reflexivity|].
    intros pass Hpass. apply Hall. lia.
Qed.

(** Property X20.  A valid base without a sorted index is transparent to
    [eblob_disk_index_lookup], wherever it stands among the bases of a
    backend that no other thread changes: the lookup finds what it finds
    without it. *)
Theorem lookup_skips_unsorted_base
    (cfg : eblob_config) (key : eblob_key) (unsorted : eblob_base_ctl)
    (older newer : list eblob_base_ctl) :
  0 <= index_fd unsorted ->
  map_fd (bctl_sort unsorted) < 0 ->
  found_of (eblob_disk_index_lookup
              (fun _ => mk_backend cfg (older ++ unsorted :: newer)) key) =
  found_of (eblob_disk_index_lookup
              (fun _ => mk_backend cfg (older ++ newer)) key).
Proof.
  intros Hfd Hmap. unfold eblob_disk_index_lookup.
  apply lookup_again_stat. intros _ st1 st2. cbn [b_cfg bases].
  rewrite !rev_app_distr. cbn [rev]. rewrite <- app_assoc. cbn [app].
  apply lookup_bases_skips_unsorted; assumption.
Qed.

(** Property X21.  Sort, build, look up.  When [eblob_generate_sorted_index]
    and then [eblob_index_blocks_fill] have succeeded on the newest base of
    a backend that no other thread changes, the lookup of the key of a live
    record of the index file that [eblob_check_record] accepts returns 0 and
    a live record of that key in that base, whatever the older bases hold. *)
Theorem lookup_finds_record_of_newest_base
    (io : sort_io) (calloc_ok : nat -> bool) (cfg : eblob_config)
    (closed sorted filled : eblob_base_ctl) (older : list eblob_base_ctl)
    (d : eblob_disk_control) :
  eblob_generate_sorted_index io closed = (0, sorted) ->
  eblob_index_blocks_fill calloc_ok sorted = Ok (0, filled) ->
  index_blocks closed = None ->
  index_blocks filled <> None ->
  0 <= index_fd closed ->
  back_cfg closed = cfg ->
  0 < index_block_size cfg ->
  sizeof_disk_control * Z.of_nat (length (io_index io)) < 2 ^ 64 ->
  d ∈ io_index io ->
  (forall b, eblob_check_record b d = 0) ->
  live_record d ->
  exists rctl st n r,
    eblob_disk_index_lookup
      (fun _ => mk_backend cfg (older ++ [filled])) (dc_key d)
      = Ok (0, Some rctl, st) /\
    map_data (bctl_sort filled) !! n = Some r /\
    dc_key r = dc_key d /\ live_record r /\
    rctl = mk_rctl (eblob_bswap64 (dc_position r))
                   (sizeof_disk_control * Z.of_nat n)
                   (eblob_bswap64 (dc_data_size r))
                   (bctl_index closed).
Proof.
  intros Hgen Hfill Hnone Hsome Hfd Hcfg Hibs Hsmall Hd Hsound Hlive.
  pose proof sizeof_disk_control_pos as Hsz.
  destruct (io_st_size_records io) as (_ & Hrecs & _).
  assert (Hlow : sizeof_disk_control * Z.of_nat (length (io_index io))
                 <= io_st_size io)
    by (rewrite <- Hrecs; apply Z.mul_div_le; lia).
  assert (Hpos : 0 < io_st_size io).
  { destruct (io_index io); [inversion Hd|]. cbn [length] in Hlow. nia. }
  destruct (eblob_generate_sorted_index_published _ _ _ Hgen Hpos)
    as (data & -> & Hopen & Hperm & Hsorted).
  rewrite <- Hperm in Hd. apply list_elem_of_lookup_1 in Hd as [j Hj].
  rewrite <- (Permutation_length Hperm) in Hsmall, Hlow.
  destruct (index_blocks filled) as [arr|] eqn:Harr; [|contradiction].
  subst cfg.
  pose proof (eblob_index_blocks_fill_whole _ _ _ _ Hfill Hnone Harr) as Hup.
  cbn [bctl_sort set_sort map_size map_data] in Hup.
  assert (Hmap : map_size (bctl_sort
                   (set_sort (mk_map (io_open io) (io_st_size io) data) closed))
                 = sizeof_disk_control *
                   Z.of_nat (length (map_data (bctl_sort
                     (set_sort (mk_map (io_open io) (io_st_size io) data)
                               closed)))))
    by (cbn [bctl_sort set_sort map_size map_data]; lia).
  assert (Hsmall' : map_size (bctl_sort
                      (set_sort (mk_map (io_open io) (io_st_size io) data)
                                closed)) < 2 ^ 64)
    by (rewrite Hmap; exact Hsmall).
  destruct (eblob_index_blocks_fill_built _ _ _ _ Hfill Hnone Harr Hibs
              Hmap)
    as (Hs & Hc & Hi & Hf & _ & _ & _ & _ & Hbloom).
  destruct (fill_then_find calloc_ok _ filled arr (mk_dc (dc_key d) 0 0 0 0)
              eblob_find_non_removed_callback j d (inc_loops sstat0)
              Hfill Hnone Harr Hibs Hmap Hsmall' Hsorted)
    as (p & st' & Hp); auto.
  - exact (Hbloom j d Hj Hsound Hlive).
  - unfold eblob_find_non_removed_callback. apply negb_true_iff, Hlive.
  - pose proof Hp as Hfound.
    apply eblob_find_on_disk_sound in Hfound as (r & Hr & Hk & Hcb).
    rewrite Hs in Hr. apply eblob_id_cmp_eq in Hk.
    cbn [bctl_sort set_sort back_cfg bctl_index index_fd] in *.
    apply dc_at_Some in Hr as [Hpn Hr]; cbn [map_data] in Hr.
    eexists _, st', (Z.to_nat (p / sizeof_disk_control)), r.
    split; [|split; [rewrite Hs; exact Hr|split; [exact Hk|split;
             [apply negb_true_iff, Hcb|reflexivity]]]].
    unfold eblob_disk_index_lookup.
    change (Z.to_nat (max_tries + 2)) with 12%nat.
    cbn [lookup_again b_cfg bases]. rewrite rev_app_distr.
    cbn [rev app lookup_bases].
    destruct (Z.ltb_spec (index_fd filled) 0); [lia|].
    destruct (Z.ltb_spec (map_fd (bctl_sort filled)) 0) as [Hneg|_];
      [rewrite Hs in Hneg; cbn in Hneg; lia|].
    rewrite Hp. cbn [mbind outcome_bind mret outcome_ret].
    unfold sorted_at. rewrite Hs. cbn [bctl_sort set_sort].
    rewrite Hpn at 1. rewrite dc_at_index. cbn [map_data]. rewrite Hr.
    cbn [mbind outcome_bind mret outcome_ret eblob_convert_disk_control
         dc_position dc_data_size].
    rewrite Hi, <- Hpn. reflexivity.
Qed.
(** ** What a successful build has checked and counted *)

(** Property X10.  After a successful build the first record of every block,
    and the last record of every block of full length, has passed
    [eblob_check_record], in a state of the base with the same mapping and
    configuration: an unsound record at either place stops the build. *)
Theorem eblob_index_blocks_fill_checks_block_ends
    (calloc_ok : nat -> bool) (bctl bctl' : eblob_base_ctl)
    (arr : list eblob_index_block) (j : nat) (d : eblob_disk_control) :
  eblob_index_blocks_fill calloc_ok bctl = Ok (0, bctl') ->
  index_blocks bctl = None ->
  index_blocks bctl' = Some arr ->
  0 < index_block_size (back_cfg bctl) ->
  map_size (bctl_sort bctl) =
    sizeof_disk_control * Z.of_nat (length (map_data (bctl_sort bctl))) ->
  map_data (bctl_sort bctl) !! j = Some d ->
  (j mod Z.to_nat (index_block_size (back_cfg bctl)) = 0 \/
   j mod Z.to_nat (index_block_size (back_cfg bctl)) =
     Z.to_nat (index_block_size (back_cfg bctl)) - 1)%nat ->
  exists b,
    bctl_sort b = bctl_sort bctl /\ back_cfg b = back_cfg bctl /\
    eblob_check_record b d = 0.
Proof.
  intros Hfill Hnone Harr Hibs Hmap Hj Hmod.
  unfold eblob_index_blocks_fill in Hfill.
  destruct (eblob_bloom_size bctl) as [bsize|]; [|discriminate].
  cbn [mbind outcome_bind] in Hfill.
  destruct (eblob_bloom_func_num _) as [fnum|]; [|discriminate].
  cbn [mbind outcome_bind] in Hfill.
  destruct (calloc_ok 0%nat); cbn [bloom set_bloom] in Hfill.
  2:{ injection Hfill as <-. cbn in Harr. congruence. }
  destruct (howmany _ _) as [block_count|]; [|discriminate].
  cbn [mbind outcome_bind] in Hfill.
  destruct (calloc_ok 1%nat); cbn [index_blocks set_index_blocks] in Hfill.
  2:{ injection Hfill as Hz _. unfold ENOMEM in Hz. lia. }
  match type of Hfill with
  | context [mbind _ ?c] => destruct c as [[l|err l]|] eqn:Hloop
  end; cbn [mbind outcome_bind] in Hfill; try discriminate.
  2:{ injection Hfill as _ <-. cbn in Harr. discriminate. }
  apply (fill_blocks_checked _ _ _ 0%nat) in Hloop;
    cbn in Hloop |- *; try solve [auto | lia].
  destruct Hloop as (_ & _ & _ & Hpos).
  destruct (Hpos j d ltac:(lia) Hj Hmod) as (b & (Hs & Hc & _) & Hok).
  exists b. auto.
Qed.

(** Property X11.  Where the verdict of [eblob_check_record] on the records
    of the index depends on the base through its sorted mapping and its
    configuration only, a successful build has counted every record the
    check rejects, and no other: [LST_INDEX_CORRUPTED_ENTRIES] has grown by
    the number of these records, and there are at most
    [EBLOB_BLOB_INDEX_CORRUPT_MAX + 1] of them. *)
Theorem eblob_index_blocks_fill_skips_bounded
    (calloc_ok : nat -> bool) (bctl bctl' : eblob_base_ctl)
    (arr : list eblob_index_block) :
  eblob_index_blocks_fill calloc_ok bctl = Ok (0, bctl') ->
  index_blocks bctl = None ->
  index_blocks bctl' = Some arr ->
  0 < index_block_size (back_cfg bctl) ->
  map_size (bctl_sort bctl) =
    sizeof_disk_control * Z.of_nat (length (map_data (bctl_sort bctl))) ->
  (forall d b, d ∈ map_data (bctl_sort bctl) ->
               bctl_sort b = bctl_sort bctl -> back_cfg b = back_cfg bctl ->
               eblob_check_record b d = eblob_check_record bctl d) ->
  LST_INDEX_CORRUPTED_ENTRIES (bctl_stat bctl') -
  LST_INDEX_CORRUPTED_ENTRIES (bctl_stat bctl) =
    Z.of_nat (length (unsound_records bctl (map_data (bctl_sort bctl)))) /\
  Z.of_nat (length (unsound_records bctl (map_data (bctl_sort bctl))))
    <= Z.max 0 (EBLOB_BLOB_INDEX_CORRUPT_MAX + 1).
Proof.
  intros Hfill Hnone Harr Hibs Hmap Hind.
  unfold eblob_index_blocks_fill in Hfill.
  destruct (eblob_bloom_size bctl) as [bsize|]; [|discriminate].
  cbn [mbind outcome_bind] in Hfill.
  destruct (eblob_bloom_func_num _) as [fnum|]; [|discriminate].
  cbn [mbind outcome_bind] in Hfill.
  destruct (calloc_ok 0%nat); cbn [bloom set_bloom] in Hfill.
  2:{ injection Hfill as <-. cbn in Harr. congruence. }
  destruct (howmany _ _) as [block_count|]; [|discriminate].
  cbn [mbind outcome_bind] in Hfill.
  destruct (calloc_ok 1%nat); cbn [index_blocks set_index_blocks] in Hfill.
  2:{ injection Hfill as Hz _. unfold ENOMEM in Hz. lia. }
  match type of Hfill with
  | context [mbind _ ?c] => destruct c as [[l|err l]|] eqn:Hloop
  end; cbn [mbind outcome_bind] in Hfill; try discriminate.
  2:{ injection Hfill as _ <-. cbn in Harr. discriminate. }
  injection Hfill as <-.
  pose proof (fill_blocks_unsound bctl _ _ _ 0%nat 0 Hloop) as Hun.
  apply (fill_blocks_checked _ _ _ 0%nat) in Hloop;
    [|exact Hmap|exact Hibs|cbn; lia].
  destruct Hloop as (Hcnt & Hle & Hbound & _).
  cbn [fl_err_count fl_bctl bctl_stat set_stat set_index_blocks set_bloom
       set_bloom_func_num set_bloom_size LST_INDEX_CORRUPTED_ENTRIES
       stat_set_index_blocks_size stat_set_bloom_size
       stat_set_records_removed stat_set_removed_size] in Hcnt, Hle, Hbound |- *.
  specialize (Hun eq_refl eq_refl Hmap Hibs ltac:(cbn; lia) Hind eq_refl).
  cbn [fl_err_count] in Hun. lia.
Qed.

(** Property X12.  After a successful build over an index in which every
    record passes [eblob_check_record], [LST_RECORDS_REMOVED] is the number
    of records that carry the removal flag and [LST_REMOVED_SIZE] the sum of
    their disk sizes, each as the [int64_t] the function counts in: the sum
    is reduced modulo [2 ^ 64] into the signed range, and is the exact sum
    when that fits [int64_t]. *)
Theorem eblob_index_blocks_fill_counts_removed
    (calloc_ok : nat -> bool) (bctl bctl' : eblob_base_ctl)
    (arr : list eblob_index_block) :
  eblob_index_blocks_fill calloc_ok bctl = Ok (0, bctl') ->
  index_blocks bctl = None ->
  index_blocks bctl' = Some arr ->
  0 < index_block_size (back_cfg bctl) ->
  map_size (bctl_sort bctl) =
    sizeof_disk_control * Z.of_nat (length (map_data (bctl_sort bctl))) ->
  (forall d b, d ∈ map_data (bctl_sort bctl) -> eblob_check_record b d = 0) ->
  LST_RECORDS_REMOVED (bctl_stat bctl') =
    s64 (Z.of_nat (length (removed_records (map_data (bctl_sort bctl))))) /\
  LST_REMOVED_SIZE (bctl_stat bctl') =
    s64 (disk_size_sum (removed_records (map_data (bctl_sort bctl)))) /\
  (Z.of_nat (length (removed_records (map_data (bctl_sort bctl)))) < 2 ^ 63 ->
   LST_RECORDS_REMOVED (bctl_stat bctl') =
     Z.of_nat (length (removed_records (map_data (bctl_sort bctl))))) /\
  (- 2 ^ 63 <= disk_size_sum (removed_records (map_data (bctl_sort bctl)))
     < 2 ^ 63 ->
   LST_REMOVED_SIZE (bctl_stat bctl') =
     disk_size_sum (removed_records (map_data (bctl_sort bctl)))).
Proof.
  intros Hfill Hnone Harr Hibs Hmap Hsound.
  unfold eblob_index_blocks_fill in Hfill.
  destruct (eblob_bloom_size bctl) as [bsize|]; [|discriminate].
  cbn [mbind outcome_bind] in Hfill.
  destruct (eblob_bloom_func_num _) as [fnum|]; [|discriminate].
  cbn [mbind outcome_bind] in Hfill.
  destruct (calloc_ok 0%nat); cbn [bloom set_bloom] in Hfill.
  2:{ injection Hfill as <-. cbn in Harr. congruence. }
  destruct (howmany _ _) as [block_count|]; [|discriminate].
  cbn [mbind outcome_bind] in Hfill.
  destruct (calloc_ok 1%nat); cbn [index_blocks set_index_blocks] in Hfill.
  2:{ injection Hfill as Hz _. unfold ENOMEM in Hz. lia. }
  match type of Hfill with
  | context [mbind _ ?c] => destruct c as [[l|err l]|] eqn:Hloop
  end; cbn [mbind outcome_bind] in Hfill; try discriminate.
  2:{ injection Hfill as _ <-. cbn in Harr. discriminate. }
  injection Hfill as <-.
  apply (fill_blocks_removed _ _ _ 0%nat 0 0) in Hloop;
    [|exact Hmap|exact Hibs|cbn; lia|exact Hsound|reflexivity|reflexivity].
  cbn [fl_bctl bctl_sort set_stat set_index_blocks set_bloom
       set_bloom_func_num set_bloom_size] in Hloop.
  rewrite !Z.add_0_l in Hloop. destruct Hloop as [Hr Hs].
  cbn [bctl_stat set_stat LST_RECORDS_REMOVED LST_REMOVED_SIZE
       stat_set_records_removed stat_set_removed_size].
  split; [exact Hr|]. split; [exact Hs|]. split.
  - intros Hfit. rewrite Hr. apply s64_small. lia.
  - intros Hfit. rewrite Hs. apply s64_small. exact Hfit.
Qed.

(** Property X16.  On a base the builder has filled, a search whose Bloom
    query answers comes to an end without a trap, for every key and every
    callback: neither assertion of [eblob_find_on_disk] fails and no access
    leaves the block array or the mapping. *)
Theorem eblob_find_on_disk_never_traps
    (calloc_ok : nat -> bool) (bctl bctl' : eblob_base_ctl)
    (arr : list eblob_index_block) (dc : eblob_disk_control)
    (callback : eblob_disk_control -> eblob_disk_control -> bool)
    (st : eblob_disk_search_stat) (present : bool) :
  eblob_index_blocks_fill calloc_ok bctl = Ok (0, bctl') ->
  index_blocks bctl = None ->
  index_blocks bctl' = Some arr ->
  0 < index_block_size (back_cfg bctl) ->
  map_size (bctl_sort bctl) =
    sizeof_disk_control * Z.of_nat (length (map_data (bctl_sort bctl))) ->
  map_size (bctl_sort bctl) < 2 ^ 64 ->
  eblob_bloom_get bctl' (dc_key dc) = Ok present ->
  exists r st',
    eblob_find_on_disk (back_cfg bctl) bctl' dc callback st = Ok (r, st').
Proof.
  intros Hfill Hnone Harr Hibs Hmap Hsmall Hbloom.
  destruct (eblob_index_blocks_fill_built _ _ _ _ Hfill Hnone Harr Hibs Hmap)
    as (Hs & Hc & _ & _ & Hst & Hhi & Hlo & Htiles & _).
  apply (eblob_find_on_disk_total (back_cfg bctl) bctl' arr) with
    (present := present); rewrite ?Hs; auto.
Qed.

End More.

(** * The further properties on concrete bases *)

Section MoreConcrete.
Import Sample Built.
#[local] Existing Instance header.
#[local] Existing Instance disk.

Lemma sorted_a_key_sorted : key_sorted (map_data (bctl_sort sorted_a)).
Proof.
  apply sorted_with_flags_properties.
  apply (bool_decide_unpack _). vm_compute. exact I.
Qed.

(** The build of [base_a] from [sorted_a]. *)
Lemma eblob_index_blocks_fill_keeps_mapping_witness :
  bctl_sort base_a = bctl_sort sorted_a /\
  back_cfg base_a = back_cfg sorted_a /\
  bctl_index base_a = bctl_index sorted_a /\
  index_fd base_a = index_fd sorted_a /\
  eblob_bloom_size sorted_a = Ok (bloom_size base_a).
Proof.
  apply (eblob_index_blocks_fill_keeps_mapping calloc_always sorted_a base_a 0).
  vm_compute. reflexivity.
Defined.

(** A sorted file of 146 bytes, one record and 50 bytes more: the second
    [pread] returns 50, and so does the build.  Two records on a disk whose
    read at byte 96 fails with [errno = 5]: the build returns -5. *)
Lemma eblob_index_blocks_fill_failure_witness :
  (exists bctl',
     eblob_index_blocks_fill calloc_always truncated = Ok (50, bctl') /\
     ((50 = - ENOMEM /\ calloc_always 1%nat = false /\
       index_blocks bctl' = None) \/
      (index_blocks bctl' = None /\ bloom bctl' = None /\
       LST_BLOOM_SIZE (bctl_stat bctl') = 0 /\
       LST_INDEX_BLOCKS_SIZE (bctl_stat bctl') = 0 /\
       ((exists p d b,
           dc_at (bctl_sort truncated) p = Some d /\
           bctl_sort b = bctl_sort truncated /\
           back_cfg b = back_cfg truncated /\
           50 = eblob_check_record b d) \/
        (exists p e,
           pread_errno (map_fd (bctl_sort truncated)) p = Some e /\
           50 = - Z.pos e) \/
        (50 = 146 mod 96 /\ 0 < 50))))) /\
  (exists bctl',
     @eblob_index_blocks_fill header failing_disk calloc_always
       (unfilled [live 1 1; live 2 2]) = Ok (-5, bctl') /\
     ((-5 = - ENOMEM /\ calloc_always 1%nat = false /\
       index_blocks bctl' = None) \/
      (index_blocks bctl' = None /\ bloom bctl' = None /\
       LST_BLOOM_SIZE (bctl_stat bctl') = 0 /\
       LST_INDEX_BLOCKS_SIZE (bctl_stat bctl') = 0 /\
       ((exists p d b,
           dc_at (bctl_sort (unfilled [live 1 1; live 2 2])) p = Some d /\
           bctl_sort b = bctl_sort (unfilled [live 1 1; live 2 2]) /\
           back_cfg b = back_cfg (unfilled [live 1 1; live 2 2]) /\
           -5 = eblob_check_record b d) \/
        (exists p e,
           @pread_errno failing_disk
             (map_fd (bctl_sort (unfilled [live 1 1; live 2 2]))) p = Some e /\
           -5 = - Z.pos e) \/
        (-5 = 192 mod 96 /\ 0 < -5))))).
Proof.
  split.
  - eexists. split; [vm_compute; reflexivity|].
    refine (eblob_index_blocks_fill_failure calloc_always truncated _ 50 _ _);
      [vm_compute; reflexivity|discriminate].
  - eexists. split; [vm_compute; reflexivity|].
    refine (@eblob_index_blocks_fill_failure header failing_disk calloc_always
              (unfilled [live 1 1; live 2 2]) _ (-5) _ _);
      [vm_compute; reflexivity|discriminate].
Defined.

(** A base without records. *)
Lemma eblob_index_blocks_fill_empty_index_traps_witness :
  eblob_index_blocks_fill calloc_always (unfilled []) = Fault DivideByZero.
Proof.
  apply eblob_index_blocks_fill_empty_index_traps. left.
  vm_compute. reflexivity.
Defined.

(** The six records of [sorted_a] in blocks of four: two blocks. *)
Lemma eblob_index_blocks_fill_tiles_witness :
  Z.of_nat (length blocks_a) = (6 + (4 - 1)) / 4 /\
  LST_INDEX_BLOCKS_SIZE (bctl_stat base_a) = 2 * 144 /\
  forall k b, blocks_a !! k = Some b ->
    block_tiles (map_data (bctl_sort sorted_a)) 4 k b.
Proof.
  refine (eblob_index_blocks_fill_tiles calloc_always sorted_a base_a blocks_a
            _ _ _ _ _); vm_compute; reflexivity.
Defined.

(** Record 4 of [sorted_a] lies in the byte range of block 1. *)
Lemma eblob_index_blocks_fill_covers_every_record_witness :
  start_offset (mk_block (key 7) (key 9) 384 576) <= 96 * 4
    < end_offset (mk_block (key 7) (key 9) 384 576) <->
  1%nat = (4 / 4)%nat.
Proof.
  refine (eblob_index_blocks_fill_covers_every_record calloc_always sorted_a
            base_a blocks_a 4%nat (live 7 6) _ _ _ _ _ _
            1%nat (mk_block (key 7) (key 9) 384 576) _);
    vm_compute; reflexivity.
Defined.

(** The live record of key 7 is in the Bloom of [base_a]. *)
Lemma eblob_index_blocks_fill_bloom_holds_live_keys_witness :
  eblob_bloom_get base_a (key 7) = Ok true.
Proof.
  refine (eblob_index_blocks_fill_bloom_holds_live_keys calloc_always sorted_a
            base_a blocks_a 4%nat (live 7 6) _ _ _ _ _ _ _ _);
    vm_compute; reflexivity.
Defined.

(** Key 3 and the block of the keys 1 to 7. *)
Lemma eblob_key_range_cmp_classifies_witness :
  let b := mk_block (key 1) (key 7) 0 384 in
  (eblob_key_range_cmp (key 3) b = -1 <->
   eblob_id_cmp (key 3) (start_key b) < 0) /\
  (eblob_key_range_cmp (key 3) b = 0 <-> key_in_block (key 3) b) /\
  (eblob_key_range_cmp (key 3) b = 1 <->
   0 < eblob_id_cmp (key 3) (end_key b)).
Proof.
  intros b. refine (eblob_key_range_cmp_classifies (key 3) b _).
  vm_compute. discriminate.
Defined.

(** The block search of [base_a] for key 7. *)
Lemma eblob_index_blocks_search_nolock_selects_block_witness :
  (forall t st',
     eblob_index_blocks_search_nolock base_a (probe 7) sstat0
       = Ok (Some t, st') ->
     exists b, blocks_a !! t = Some b /\ key_in_block (key 7) b) /\
  (forall j d,
     map_data (bctl_sort sorted_a) !! j = Some d -> dc_key d = key 7 ->
     eblob_bloom_get base_a (key 7) = Ok true ->
     exists t st',
       eblob_index_blocks_search_nolock base_a (probe 7) sstat0
         = Ok (Some t, st')).
Proof.
  refine (eblob_index_blocks_search_nolock_selects_block calloc_always
            sorted_a base_a blocks_a (probe 7) sstat0 _ _ _ _ _ _);
    try (vm_compute; reflexivity).
  exact sorted_a_key_sorted.
Defined.

(** The search of [base_b] for key 7 returns byte 288, record 3. *)
Lemma eblob_find_on_disk_returns_accepted_record_witness :
  exists n r,
    288 = 96 * Z.of_nat n /\
    map_data (bctl_sort base_b) !! n = Some r /\
    dc_key r = key 7 /\ eblob_find_non_removed_callback r (probe 7) = true.
Proof.
  refine (eblob_find_on_disk_returns_accepted_record cfg base_b (probe 7)
            eblob_find_non_removed_callback 288 sstat0 _ _).
  vm_compute. reflexivity.
Defined.

(** The search of [base_a] for key 7, which record 4 carries. *)
Lemma eblob_find_on_disk_finds_accepted_record_witness :
  exists p r st',
    eblob_find_on_disk cfg base_a (probe 7) eblob_find_non_removed_callback
      sstat0 = Ok (Some p, st') /\
    dc_at (bctl_sort sorted_a) p = Some r /\
    dc_key r = key 7 /\ eblob_find_non_removed_callback r (probe 7) = true.
Proof.
  refine (eblob_find_on_disk_finds_accepted_record calloc_always sorted_a
            base_a blocks_a (probe 7) eblob_find_non_removed_callback
            4%nat (live 7 6) sstat0 _ _ _ _ _ _ _ _ _ _ _);
    try (vm_compute; reflexivity).
  exact sorted_a_key_sorted.
Defined.

Lemma eblob_find_on_disk_finds_live_record_witness :
  exists p r st',
    eblob_find_on_disk cfg base_a (mk_dc (key 7) 0 0 0 0)
      eblob_find_non_removed_callback sstat0 = Ok (Some p, st') /\
    dc_at (bctl_sort sorted_a) p = Some r /\
    dc_key r = key 7 /\ live_record r.
Proof.
  refine (eblob_find_on_disk_finds_live_record calloc_always sorted_a
            base_a blocks_a 4%nat (live 7 6) sstat0 _ _ _ _ _ _ _ _ _ _);
    try (vm_compute; reflexivity).
  exact sorted_a_key_sorted.
Defined.

(** The generator on an index file of 146 bytes, one record and 50 bytes
    more: the mapping it publishes is 146 bytes long and holds one
    record. *)
Lemma eblob_generate_sorted_index_all_or_nothing_witness :
  (0 <> 0 -> sorted_146 = closed_base 1) /\
  (exists m, sorted_146 = set_sort m (closed_base 1)) /\
  (0 = 0 -> 0 < 146 ->
   map_fd (bctl_sort sorted_146) = 4 /\
   0 <= map_fd (bctl_sort sorted_146) /\
   map_size (bctl_sort sorted_146) = 146 /\
   Z.of_nat (length (map_data (bctl_sort sorted_146))) = 146 / 96 /\
   (map_data (bctl_sort sorted_146) ≡ₚ [live 1 1]) /\
   key_sorted (map_data (bctl_sort sorted_146))).
Proof.
  refine (eblob_generate_sorted_index_all_or_nothing
            (io_tailed [live 1 1] 50) (closed_base 1) sorted_146 0 _).
  vm_compute. reflexivity.
Defined.

(** Key 3, live in base 1 and removed in base 2. *)
Lemma eblob_disk_index_lookup_sound_witness :
  0 = 0 /\
  exists pass bctl n r,
    (pass <= 11)%nat /\ bctl ∈ [older_live; newer_tomb] /\
    0 <= index_fd bctl /\ 0 <= map_fd (bctl_sort bctl) /\
    map_data (bctl_sort bctl) !! n = Some r /\
    dc_key r = key 3 /\ live_record r /\
    mk_rctl 100 0 10 1 =
      mk_rctl (dc_position r) (96 * Z.of_nat n) (dc_data_size r)
              (bctl_index bctl).
Proof.
  refine (eblob_disk_index_lookup_sound
            (fun _ => mk_backend cfg [older_live; newer_tomb]) (key 3) 0
            (mk_rctl 100 0 10 1) _ _).
  vm_compute. reflexivity.
Defined.

Lemma eblob_disk_index_lookup_codes_witness :
  (0 = 0 /\ is_Some (Some (mk_rctl 100 0 10 1))) \/
  (0 = - ENOENT /\ Some (mk_rctl 100 0 10 1) = None) \/
  (0 = - EDEADLK /\ Some (mk_rctl 100 0 10 1) = None /\
   forall pass, (pass <= 11)%nat ->
     exists bctl, bctl ∈ [older_live; newer_tomb] /\ index_fd bctl < 0).
Proof.
  refine (eblob_disk_index_lookup_codes
            (fun _ => mk_backend cfg [older_live; newer_tomb]) (key 3) 0
            (Some (mk_rctl 100 0 10 1)) _ _).
  vm_compute. reflexivity.
Defined.

(** A closed base number 5, not sorted yet, between two sorted bases. *)
Lemma lookup_skips_unsorted_base_witness :
  found_of (eblob_disk_index_lookup
              (fun _ => mk_backend cfg
                          ([older_live] ++ closed_base 5 :: [newer_tomb]))
              (key 3)) =
  found_of (eblob_disk_index_lookup
              (fun _ => mk_backend cfg ([older_live] ++ [newer_tomb]))
              (key 3)).
Proof.
  refine (lookup_skips_unsorted_base cfg (key 3) (closed_base 5)
            [older_live] [newer_tomb] _ _);
    vm_compute; [discriminate|reflexivity].
Defined.

(** [base_a], sorted and built from [index_a], as the newest base in front
    of [older_live]: the lookup of key 7 returns its live record. *)
Lemma lookup_finds_record_of_newest_base_witness :
  exists rctl st n r,
    eblob_disk_index_lookup
      (fun _ => mk_backend cfg ([older_live] ++ [base_a])) (key 7)
      = Ok (0, Some rctl, st) /\
    map_data (bctl_sort base_a) !! n = Some r /\
    dc_key r = key 7 /\ live_record r /\
    rctl = mk_rctl (dc_position r) (96 * Z.of_nat n) (dc_data_size r) 1.
Proof.
  refine (lookup_finds_record_of_newest_base (io_ok index_a) calloc_always cfg
            (closed_base 1) sorted_a base_a [older_live] (live 7 6)
            _ _ _ _ _ _ _ _ _ _ _);
    try (vm_compute; reflexivity).
  - vm_compute. discriminate.
  - vm_compute. discriminate.
  - apply (list_elem_of_lookup_2 _ 3%nat). reflexivity.
Defined.

(** Record 4 of [sorted_a] opens block 1. *)
Lemma eblob_index_blocks_fill_checks_block_ends_witness :
  exists b,
    bctl_sort b = bctl_sort sorted_a /\ back_cfg b = back_cfg sorted_a /\
    eblob_check_record b (live 7 6) = 0.
Proof.
  refine (eblob_index_blocks_fill_checks_block_ends calloc_always sorted_a
            base_a blocks_a 4%nat (live 7 6) _ _ _ _ _ _ _);
    try (vm_compute; reflexivity).
  left. reflexivity.
Defined.

(** An index of 204 records, 101 of them unsound and none first or last
    of its block: the build succeeds and has counted 101, the most it
    tolerates. *)
Lemma eblob_index_blocks_fill_skips_bounded_witness :
  LST_INDEX_CORRUPTED_ENTRIES
    (bctl_stat (built (unfilled index_101_unsound))) -
  LST_INDEX_CORRUPTED_ENTRIES (bctl_stat (unfilled index_101_unsound)) = 101 /\
  101 <= Z.max 0 (100 + 1).
Proof.
  refine (eblob_index_blocks_fill_skips_bounded calloc_always
            (unfilled index_101_unsound) (built (unfilled index_101_unsound))
            (blocks_of (built (unfilled index_101_unsound))) _ _ _ _ _ _);
    vm_compute; reflexivity.
Defined.

(** [sorted_a] holds one removed record, of disk size 16.  Two removed
    records of disk size [2 ^ 63] each: the sum, [2 ^ 64], is counted
    as 0. *)
Lemma eblob_index_blocks_fill_counts_removed_witness :
  (LST_RECORDS_REMOVED (bctl_stat base_a) = 1 /\
   LST_REMOVED_SIZE (bctl_stat base_a) = 16) /\
  (LST_RECORDS_REMOVED
     (bctl_stat (built (unfilled [huge_removed 1; huge_removed 2]))) = 2 /\
   LST_REMOVED_SIZE
     (bctl_stat (built (unfilled [huge_removed 1; huge_removed 2]))) = 0).
Proof.
  split.
  - destruct (eblob_index_blocks_fill_counts_removed calloc_always sorted_a
                base_a blocks_a) as (Hr & Hs & _);
      try (vm_compute; reflexivity); [|split; [exact Hr|exact Hs]].
    intros d b Hd. apply list_elem_of_In in Hd. vm_compute in Hd.
    repeat destruct Hd as [<-|Hd]; try reflexivity. destruct Hd.
  - destruct (eblob_index_blocks_fill_counts_removed calloc_always
                (unfilled [huge_removed 1; huge_removed 2])
                (built (unfilled [huge_removed 1; huge_removed 2]))
                (blocks_of (built (unfilled [huge_removed 1; huge_removed 2]))))
      as (Hr & Hs & _);
      try (vm_compute; reflexivity); [|split; [exact Hr|exact Hs]].
    intros d b Hd. apply list_elem_of_In in Hd. vm_compute in Hd.
    repeat destruct Hd as [<-|Hd]; try reflexivity. destruct Hd.
Defined.

(** The search of [base_a] for key 7 comes to an end. *)
Lemma eblob_find_on_disk_never_traps_witness :
  exists r st',
    eblob_find_on_disk cfg base_a (probe 7) eblob_find_non_removed_callback
      sstat0 = Ok (r, st').
Proof.
  refine (eblob_find_on_disk_never_traps calloc_always sorted_a base_a
            blocks_a (probe 7) eblob_find_non_removed_callback sstat0 true
            _ _ _ _ _ _ _); vm_compute; reflexivity.
Defined.

End MoreConcrete.
